(** * GeminiLiveSession: the duplex audio session of services/geminiService.ts

    A shallow embedding of the [GeminiLiveSession] class: its fields, the
    inbound handler [handleServerMessage] (split at its [await]), the capture
    callback, [connect] and [disconnect].  Host objects (audio contexts,
    tracks, the Live API session) are observed through the trace of calls
    the class makes on them. *)

From Stdlib Require Import QArith Qminmax Lqa List String Ascii Bool Arith Lia.
From Stdlib Require Import Decimal DecimalString.
Import ListNotations.

Local Open Scope Q_scope.
Local Open Scope string_scope.
Local Open Scope list_scope.

(** ** Wire messages (the part of [LiveServerMessage] the class reads) *)

Record Blob := mkBlob { data : option string }.
Record Part := mkPart { inlineData : option Blob }.
Record Content := mkContent { parts : option (list Part) }.

Record LiveServerContent := mkServerContent {
  modelTurn : option Content;
  interrupted : bool;
  turnComplete : bool
}.

Record LiveServerMessage := mkMessage { serverContent : option LiveServerContent }.

(** ** Host audio objects *)

Inductive AudioContextState := suspended | running | closed.

Record AudioContext := mkContext {
  sampleRate : Z;
  state : AudioContextState
}.

(** An [AudioBuffer]: one channel of samples at a rate.  [duration] is
    the frame count over the rate, as a real; the property the code reads
    is the host's number for it ([seconds] below). *)
Record AudioBuffer := mkBuffer {
  channelData : list Q;
  bufferRate : positive
}.

Definition duration (b : AudioBuffer) : Q :=
  Z.of_nat (List.length (channelData b)) # bufferRate b.

Record MediaStream := mkStream { getTracks : list nat }.

Inductive AudioNode := MediaStreamSource | ScriptProcessor.

(** The object the connection promise resolves to. *)
Record LiveSession := mkLive {
  has_sendRealtimeInput : bool;
  has_close : bool
}.

Definition PcmBlob := list Q.

(** Reactions chained on [sessionPromise] with [.then(..).catch(..)]. *)
Inductive Reaction :=
| ThenSend (media : PcmBlob)
| ThenClose.

Inductive Promise :=
| Pending (reactions : list Reaction)
| Fulfilled (session : option LiveSession)
| Rejected.

Inductive Which := Input | Output.

(** ** Observable calls *)

Inductive Effect :=
| ConsoleError (what : string)
| ConsoleLog (what : string)
| SourceStart (src : nat) (buffer : AudioBuffer) (gain : Q) (when : Q)
| SourceStop (src : nat)
| SendRealtimeInput (media : PcmBlob)
| SessionClose
| LiveConnect (systemInstruction : string)
| TrackStop (t : nat)
| NodeDisconnect (n : AudioNode)
| ContextClose (which : Which) (was : AudioContextState)
| CallOnMessage (m : LiveServerMessage)
| CallOnError (e : string)
| CallOnClose.

(** A handler parked at [await decodeAudioData(..)]: the promise's eventual
    value ([None] when it rejects) and the message's [interrupted] flag. *)
Record Suspended := mkSuspended {
  awaited : option AudioBuffer;
  then_interrupted : bool
}.

(** ** The session instance together with the runtime around it *)

Record World := mkWorld {
  sessionPromise : option Promise;
  inputAudioContext : option AudioContext;
  outputAudioContext : option AudioContext;
  nextStartTime : Q;
  sources : list nat;
  stream : option MediaStream;
  cleanupCallbacks : list (list AudioNode);
  effects : list Effect;
  awaiting : list Suspended;
  allocated : nat
}.

(** [new GeminiLiveSession(onMessage, onError, onClose)] *)
Definition new_session : World :=
  mkWorld None None None 0 [] None [] [] [] 0.

Definition emit (e : Effect) (w : World) : World :=
  mkWorld (sessionPromise w) (inputAudioContext w) (outputAudioContext w)
    (nextStartTime w) (sources w) (stream w) (cleanupCallbacks w)
    (effects w ++ [e]) (awaiting w) (allocated w).

Definition set_nextStartTime (t : Q) (w : World) : World :=
  mkWorld (sessionPromise w) (inputAudioContext w) (outputAudioContext w)
    t (sources w) (stream w) (cleanupCallbacks w)
    (effects w) (awaiting w) (allocated w).

Definition set_sources (l : list nat) (w : World) : World :=
  mkWorld (sessionPromise w) (inputAudioContext w) (outputAudioContext w)
    (nextStartTime w) l (stream w) (cleanupCallbacks w)
    (effects w) (awaiting w) (allocated w).

Definition set_awaiting (l : list Suspended) (w : World) : World :=
  mkWorld (sessionPromise w) (inputAudioContext w) (outputAudioContext w)
    (nextStartTime w) (sources w) (stream w) (cleanupCallbacks w)
    (effects w) l (allocated w).

Definition set_allocated (n : nat) (w : World) : World :=
  mkWorld (sessionPromise w) (inputAudioContext w) (outputAudioContext w)
    (nextStartTime w) (sources w) (stream w) (cleanupCallbacks w)
    (effects w) (awaiting w) n.

Definition set_sessionPromise (p : option Promise) (w : World) : World :=
  mkWorld p (inputAudioContext w) (outputAudioContext w)
    (nextStartTime w) (sources w) (stream w) (cleanupCallbacks w)
    (effects w) (awaiting w) (allocated w).

Definition set_inputAudioContext (c : option AudioContext) (w : World) : World :=
  mkWorld (sessionPromise w) c (outputAudioContext w)
    (nextStartTime w) (sources w) (stream w) (cleanupCallbacks w)
    (effects w) (awaiting w) (allocated w).

Definition set_outputAudioContext (c : option AudioContext) (w : World) : World :=
  mkWorld (sessionPromise w) (inputAudioContext w) c
    (nextStartTime w) (sources w) (stream w) (cleanupCallbacks w)
    (effects w) (awaiting w) (allocated w).

Definition set_stream (s : option MediaStream) (w : World) : World :=
  mkWorld (sessionPromise w) (inputAudioContext w) (outputAudioContext w)
    (nextStartTime w) (sources w) s (cleanupCallbacks w)
    (effects w) (awaiting w) (allocated w).

Definition set_cleanupCallbacks (l : list (list AudioNode)) (w : World) : World :=
  mkWorld (sessionPromise w) (inputAudioContext w) (outputAudioContext w)
    (nextStartTime w) (sources w) (stream w) l
    (effects w) (awaiting w) (allocated w).

(** The playback gain set on every chunk's gain node, [1.2]. *)
Definition gain_value : Q := 12 # 10.

(** ** Numbers

    Times are JavaScript numbers.  They are carried as rationals, and
    [number x] is the host's number for the real [x]: [a + b] of the code
    is [number (a + b)] here.  Comparisons and [Math.max] return one of
    their arguments and round nothing.  One fact of [number] is used: it
    sends no real that is not negative below zero. *)
Class Numbers := {
  number : Q -> Q;
  number_nonneg : forall x, 0 <= x -> 0 <= number x
}.

(** Arithmetic without rounding, which the specification computes with.
    The code agrees with it as long as every sum is a double. *)
#[export] Instance exact_numbers : Numbers :=
  {| number := fun x => x; number_nonneg := fun x H => H |}.

(** [a / d < 2 ^ e], for [d] positive. *)
Definition below_pow2 (a d e : Z) : bool :=
  if (0 <=? e)%Z then (a <? d * 2 ^ e)%Z else (a * 2 ^ (- e) <? d)%Z.

(** [n / d] rounded to the nearest integer, a tie going to the even one. *)
Definition nearest_even (n d : Z) : Z :=
  let k := (n / d)%Z in
  match (2 * (n mod d) ?= d)%Z with
  | Lt => k
  | Gt => (k + 1)%Z
  | Eq => if Z.even k then k else (k + 1)%Z
  end.

(** IEEE 754 binary64, the numbers of every JavaScript host: [x] rounded
    to the nearest double, ties to the even significand, with 53
    significant bits and exponents down to the subnormal step 2^-1074.
    With [2 ^ e <= |x| < 2 ^ (e + 1)] the doubles around [x] are the
    multiples of [2 ^ q], [q] being [e - 52] or, for subnormals, -1074.
    Overflow is left out: no time of a session comes near 2^1024
    seconds. *)
Definition binary64 (x : Q) : Q :=
  let r := Qred x in
  let a := Z.abs (Qnum r) in
  let d := Zpos (Qden r) in
  if (a =? 0)%Z then 0
  else
    let e0 := (Z.log2 a - Z.log2 d)%Z in
    let e := if below_pow2 a d e0 then (e0 - 1)%Z else e0 in
    let q := Z.max (e - 52) (-1074) in
    let k := if (0 <=? q)%Z then nearest_even a (d * 2 ^ q)
             else nearest_even (a * 2 ^ (- q)) d in
    Qred (if (0 <=? q)%Z then (Z.sgn (Qnum r) * k * 2 ^ q) # 1
          else (Z.sgn (Qnum r) * k) # Z.to_pos (2 ^ (- q))).

(** [part?.inlineData?.data] with the truthiness test of
    [if (base64Audio)] folded in: an absent or empty string is [None]. *)
Definition audio_of_part (p : Part) : option string :=
  match inlineData p with
  | None => None
  | Some b =>
      match data b with
      | Some s => if String.eqb s "" then None else Some s
      | None => None
      end
  end.

(** [message.serverContent?.modelTurn?.parts?.[0]?.inlineData?.data] *)
Definition base64Audio (m : LiveServerMessage) : option string :=
  match serverContent m with
  | None => None
  | Some sc =>
    match modelTurn sc with
    | None => None
    | Some turn =>
      match parts turn with
      | None => None
      | Some ps =>
        match nth_error ps 0 with
        | None => None
        | Some p => audio_of_part p
        end
      end
    end
  end.

(** [message.serverContent?.interrupted] as a condition. *)
Definition is_interrupted (m : LiveServerMessage) : bool :=
  match serverContent m with
  | None => false
  | Some sc => interrupted sc
  end.

(** What the browser answers during [connect]; [None] and [false] are
    the failures. *)
Record Host := mkHost {
  newInputContext : option AudioContext;
  newOutputContext : option AudioContext;
  resumeInput : bool;
  resumeOutput : bool;
  getUserMedia : option MediaStream
}.

Definition default_instruction : string :=
  "You are a helpful, rugged, and knowledgeable AI assistant for New Zealand tradies. Speak clearly and concisely about building plans, materials, and schedules.".

(** ** types.ts, and what the text endpoint takes and gives *)

Inductive AttachmentType := image | pdf.

(** [Attachment]; [att_base64] is optional because the uploader fills it
    with [split(',')[1]], which can be [undefined]. *)
Record Attachment := mkAttachment {
  att_id : option string;
  att_type : AttachmentType;
  att_url : string;
  att_base64 : option string;
  att_mimeType : string;
  att_name : string;
  att_date : option Z;
  att_analysis : option string
}.

Record Segment := mkSegment {
  startIndex : option nat;
  endIndex : option nat
}.

Record GroundingSupport := mkSupport {
  segment : option Segment;
  groundingChunkIndices : option (list nat)
}.

Inductive GroundingChunk :=
| WebChunk (uri title : string)
| MapsChunk (uri title : string)
| OtherChunk.

Record GroundingMetadata := mkGrounding {
  groundingSupports : option (list GroundingSupport);
  groundingChunks : option (list GroundingChunk)
}.

Inductive Role := user | model.

Record Message := mkMsg {
  msg_id : string;
  msg_role : Role;
  msg_text : string;
  msg_timestamp : Z;
  msg_isThinking : bool;
  msg_attachments : option (list Attachment);
  msg_groundingMetadata : option GroundingMetadata
}.

Record UserLocation := mkLocation {
  latitude : Q;
  longitude : Q
}.

Inductive RequestPart :=
| InlineData (mimeType : string) (base64 : option string)
| TextPart (text : string).

Inductive Tool := googleMaps | googleSearch.

Record GenerateContentRequest := mkRequest {
  req_model : string;
  req_parts : list RequestPart;
  req_systemInstruction : string;
  req_tools : list Tool;
  req_toolConfig : option UserLocation
}.

Record Candidate := mkCandidate { cand_groundingMetadata : option GroundingMetadata }.

Record GenerateContentResponse := mkResponse {
  resp_text : option string;
  resp_candidates : option (list Candidate)
}.

(** [response.candidates?.[0]?.groundingMetadata] *)
Definition first_grounding (r : GenerateContentResponse) : option GroundingMetadata :=
  match resp_candidates r with
  | Some (c :: _) => cand_groundingMetadata c
  | _ => None
  end.

(** [t || fallback] on a string that may be absent. *)
Definition text_or (t : option string) (fallback : string) : string :=
  match t with
  | Some s => if String.eqb s "" then fallback else s
  | None => fallback
  end.

(** [n.toString()] of an integer. *)
Definition toString (z : Z) : string := NilZero.string_of_int (Z.to_int z).

(** [generatePlanAnalysis] up to its call of [ai.models.generateContent]:
    one inline part per attachment, pushed in order, then the prompt;
    Maps grounding with the coordinates when a location is known, Search
    grounding otherwise. *)
Definition plan_request
  (prompt : string) (attachments : list Attachment) (location : option UserLocation)
  : GenerateContentRequest :=
  let parts :=
    fold_left (fun acc att => acc ++ [InlineData (att_mimeType att) (att_base64 att)])
      attachments [] in
  let parts := parts ++ [TextPart prompt] in
  let tools := match location with
               | Some _ => [] ++ [googleMaps]
               | None => [] ++ [googleSearch]
               end in
  mkRequest "gemini-2.5-flash" parts
    "You are an expert AI assistant for New Zealand tradies. You are knowledgeable about the NZ Building Code (NZBC), NZS 3604, and local construction practices. When analyzing plans, explicitly cite relevant code clauses. Be professional, concise, and safety-conscious."
    tools location.

(** ** React state of the two screens, by what each handler touches *)

Record Overlay := mkOverlay {
  ov_text : string;
  ov_title : option string;
  ov_note : option string
}.

(** Plans and history as [LiveInterface] sees them: its own
    [latestResponse], [isLoading], [showSavedPlans] and the state lifted
    to [App]. *)
Record Plans := mkPlans {
  activeAttachment : option Attachment;
  savedAttachments : list Attachment;
  messages : list Message;
  latestResponse : option Overlay;
  isLoading : bool;
  showSavedPlans : bool
}.

(** [ChatInterface]: its own [input], [isLoading], [attachments] and the
    lifted [messages]. *)
Record Chat := mkChat {
  input : string;
  chat_isLoading : bool;
  attachments : list Attachment;
  chat_messages : list Message
}.

(** [{...attachment, id: Date.now().toString(), date: new Date()}] *)
Definition stamped (a : Attachment) (now date : Z) : Attachment :=
  mkAttachment (Some (toString now)) (att_type a) (att_url a) (att_base64 a)
    (att_mimeType a) (att_name a) (Some date) (att_analysis a).

Definition with_analysis (a : Attachment) (analysis : string) : Attachment :=
  mkAttachment (att_id a) (att_type a) (att_url a) (att_base64 a)
    (att_mimeType a) (att_name a) (att_date a) (Some analysis).

Definition same_name (a b : Attachment) : bool := String.eqb (att_name a) (att_name b).

(** [att.analysis] as a condition and as the left of [||]. *)
Definition analysis_of (a : Attachment) : option string :=
  match att_analysis a with
  | Some s => if String.eqb s "" then None else Some s
  | None => None
  end.

(** [handleSelectSavedPlan] *)
Definition handleSelectSavedPlan (att : Attachment) (p : Plans) : Plans :=
  mkPlans (Some att) (savedAttachments p) (messages p)
    (Some (mkOverlay
             (match analysis_of att with
              | Some s => s
              | None => "Switched context to " ++ att_name att
                        ++ ". No previous analysis saved."
              end)
             (Some "Active Plan Changed") None))
    (isLoading p) false.

(** [handleRemoveActivePlan] *)
Definition handleRemoveActivePlan (p : Plans) : Plans :=
  mkPlans None (savedAttachments p) (messages p) (latestResponse p) (isLoading p) false.

(** [!!msg.serverContent?.modelTurn?.parts?.[0]?.inlineData?.data], the
    test of the [onMessage] callback of [LiveInterface]. *)
Definition hasAudio (msg : LiveServerMessage) : bool :=
  match serverContent msg with
  | None => false
  | Some sc =>
    match modelTurn sc with
    | None => false
    | Some turn =>
      match parts turn with
      | None => false
      | Some ps =>
        match ps with
        | [] => false
        | p :: _ =>
          match inlineData p with
          | None => false
          | Some b =>
            match data b with
            | None => false
            | Some s => negb (String.eqb s "")
            end
          end
        end
      end
    end
  end.

(** [msg.serverContent?.turnComplete] as a condition. *)
Definition is_turnComplete (msg : LiveServerMessage) : bool :=
  match serverContent msg with
  | None => false
  | Some sc => turnComplete sc
  end.

(** The voice part of [LiveInterface]: its [isActive], [isSpeaking],
    [status] and [sessionRef], the [setTimeout] callbacks not yet run,
    and the session objects it has constructed ([sessionRef] points into
    them). *)
Record Voice := mkVoice {
  isActive : bool;
  isSpeaking : bool;
  status : string;
  sessionRef : option nat;
  timers : nat;
  heap : list World
}.

Definition set_heap (h : list World) (v : Voice) : Voice :=
  mkVoice (isActive v) (isSpeaking v) (status v) (sessionRef v) (timers v) h.

(** [l] with its [i]-th element replaced. *)
Fixpoint update_nth {A} (i : nat) (x : A) (l : list A) : list A :=
  match l, i with
  | [], _ => []
  | _ :: t, O => x :: t
  | h :: t, S j => h :: update_nth j x t
  end.

(** The [onMessage] callback [LiveInterface] gives the session. *)
Definition ui_onMessage (msg : LiveServerMessage) (v : Voice) : Voice :=
  let v1 := if hasAudio msg
            then mkVoice (isActive v) true (status v) (sessionRef v) (S (timers v)) (heap v)
            else v in
  if is_turnComplete msg
  then mkVoice (isActive v1) false (status v1) (sessionRef v1) (timers v1) (heap v1)
  else v1.

(** Its [onError] callback. *)
Definition ui_onError (v : Voice) : Voice :=
  mkVoice false (isSpeaking v) "Connection error. Retrying..." (sessionRef v)
    (timers v) (heap v).

(** Its [onClose] callback. *)
Definition ui_onClose (v : Voice) : Voice :=
  mkVoice false (isSpeaking v) "Tap orb to start" (sessionRef v) (timers v) (heap v).

(** A [setTimeout(() => setIsSpeaking(false), 2000)] callback runs. *)
Definition timer_fires (v : Voice) : Voice :=
  match timers v with
  | O => v
  | S n => mkVoice (isActive v) false (status v) (sessionRef v) n (heap v)
  end.

(** The observer a call of the session reaches. *)
Definition deliver (v : Voice) (e : Effect) : Voice :=
  match e with
  | CallOnMessage m => ui_onMessage m v
  | CallOnError _ => ui_onError v
  | CallOnClose => ui_onClose v
  | _ => v
  end.

Definition notify (es : list Effect) (v : Voice) : Voice := fold_left deliver es v.

(** The end of the active branch of [toggleSession]. *)
Definition switched_off (v : Voice) : Voice :=
  mkVoice false (isSpeaking v) "Tap orb to start" None (timers v) (heap v).

(** ** PlanUploader *)

(** The chosen file, with what the browser makes of it:
    [URL.createObjectURL(file)] and the result of [readAsDataURL]. *)
Record File := mkFile {
  file_type : string;
  file_name : string;
  file_objectURL : string;
  file_dataURL : string
}.

(** [s.split(sep)] for a one-character separator. *)
Fixpoint split (sep : ascii) (s : string) : list string :=
  match s with
  | EmptyString => [EmptyString]
  | String c rest =>
      if Ascii.eqb c sep then EmptyString :: split sep rest
      else match split sep rest with
           | first :: others => String c first :: others
           | [] => [String c EmptyString]
           end
  end.

(** [s.includes(needle)] *)
Fixpoint includes (needle s : string) : bool :=
  match s with
  | EmptyString => String.prefix needle EmptyString
  | String _ rest => String.prefix needle s || includes needle rest
  end.

Fixpoint has_char (c : ascii) (s : string) : bool :=
  match s with
  | EmptyString => false
  | String x rest => Ascii.eqb x c || has_char c rest
  end.

(** The attachment [reader.onload] hands to [onUpload]; nothing is
    uploaded when no file was chosen. *)
Definition handleFileChange (file : option File) : option Attachment :=
  match file with
  | None => None
  | Some f =>
      Some (mkAttachment None
              (if includes "pdf" (file_type f) then pdf else image)
              (file_objectURL f)
              (nth_error (split "," (file_dataURL f)) 1)
              (file_type f) (file_name f) None None)
  end.

(** ** renderMessageContent of ChatInterface *)

Fixpoint drop (n : nat) (s : string) : string :=
  match n, s with
  | O, _ => s
  | S k, EmptyString => EmptyString
  | S k, String _ rest => drop k rest
  end.

Fixpoint take (n : nat) (s : string) : string :=
  match n, s with
  | O, _ => EmptyString
  | S k, EmptyString => EmptyString
  | S k, String c rest => String c (take k rest)
  end.

(** [text.substring(a, b)]: both ends clamped to the length, and
    swapped when out of order. *)
Definition substring (a b : nat) (text : string) : string :=
  let a' := Nat.min a (String.length text) in
  let b' := Nat.min b (String.length text) in
  take (Nat.max a' b' - Nat.min a' b') (drop (Nat.min a' b') text).

(** [support.segment?.startIndex || 0] and the like. *)
Definition start_of (support : GroundingSupport) : nat :=
  match segment support with
  | Some seg => match startIndex seg with Some n => n | None => O end
  | None => O
  end.

Definition end_of (support : GroundingSupport) : nat :=
  match segment support with
  | Some seg => match endIndex seg with Some n => n | None => O end
  | None => O
  end.

Definition indices_of (support : GroundingSupport) : list nat :=
  match groundingChunkIndices support with
  | Some l => l
  | None => []
  end.

(** [[...supports].sort((a, b) => start(a) - start(b))]: ascending by
    start, supports of equal start keeping their order. *)
Fixpoint insert_support (x : GroundingSupport) (l : list GroundingSupport)
  : list GroundingSupport :=
  match l with
  | [] => [x]
  | y :: rest =>
      if Nat.ltb (start_of x) (start_of y) then x :: l
      else y :: insert_support x rest
  end.

Definition sort_supports (l : list GroundingSupport) : list GroundingSupport :=
  fold_left (fun acc x => insert_support x acc) l [].

(** What is rendered: plain text, or a highlighted segment with its
    citation numbers. *)
Inductive Piece :=
| Plain (text : string)
| Cited (text : string) (citations : list nat).

Definition piece_text (p : Piece) : string :=
  match p with Plain t => t | Cited t _ => t end.

(** The body of the [forEach] over the sorted supports, on [elements]
    and [lastIndex]. *)
Definition render_support (text : string) (acc : list Piece * nat)
  (support : GroundingSupport) : list Piece * nat :=
  let '(elements, lastIndex) := acc in
  let elements :=
    if Nat.ltb lastIndex (start_of support)
    then elements ++ [Plain (substring lastIndex (start_of support) text)]
    else elements in
  (elements ++ [Cited (substring (start_of support) (end_of support) text)
                  (map S (indices_of support))],
   end_of support).

Definition render_supports (text : string) (supports : list GroundingSupport)
  : list Piece :=
  let '(elements, lastIndex) :=
    fold_left (render_support text) (sort_supports supports) ([], O) in
  if Nat.ltb lastIndex (String.length text)
  then elements ++ [Plain (drop lastIndex text)]
  else elements.

(** The text pieces [renderMessageContent] lays out for a message. *)
Definition renderMessageContent (msg : Message) : list Piece :=
  match msg_role msg with
  | user => [Plain (msg_text msg)]
  | model =>
      match msg_groundingMetadata msg with
      | None => [Plain (msg_text msg)]
      | Some g =>
          match groundingSupports g with
          | None => [Plain (msg_text msg)]
          | Some supports => render_supports (msg_text msg) supports
          end
      end
  end.

(** The text a reader sees: the pieces one after the other. *)
Definition shown_text (ps : list Piece) : string :=
  fold_right (fun p acc => (piece_text p ++ acc)%string) EmptyString ps.

(** Segments in reading order: each begins at or after [from], the end
    of the one before, ends at or after its beginning, and lies within
    [len]. *)
Fixpoint in_reading_order (from len : nat) (l : list GroundingSupport) : Prop :=
  match l with
  | [] => True
  | x :: rest =>
      (from <= start_of x)%nat /\ (start_of x <= end_of x)%nat
      /\ (end_of x <= len)%nat /\ in_reading_order (end_of x) len rest
  end.

(** ** Sample data for the worked scenarios *)

(** A codec in the shape of audioUtils: a payload names its PCM bytes,
    unknown text fails to decode, and an empty byte string is refused by
    the buffer builder. *)
Definition sample_decode (b64 : string) : option (list nat) :=
  if String.eqb b64 "pcm-1.0s" then Some (repeat 0%nat (Z.to_nat 24000))
  else if String.eqb b64 "pcm-0.5s" then Some (repeat 0%nat (Z.to_nat 12000))
  else if String.eqb b64 "pcm-2.0s" then Some (repeat 0%nat (Z.to_nat 48000))
  else if String.eqb b64 "pcm-0.1s" then Some (repeat 0%nat (Z.to_nat 2400))
  else if String.eqb b64 "pcm-0.2s" then Some (repeat 0%nat (Z.to_nat 4800))
  else if String.eqb b64 "pcm-a" then Some [64; 32; 0]%nat
  else if String.eqb b64 "pcm-b" then Some [16; 16]%nat
  else if String.eqb b64 "pcm-empty" then Some []
  else None.

Definition sample_decodeAudioData
  (bytes : list nat) (ctx : AudioContext) (rate channels : Z) : option AudioBuffer :=
  match bytes with
  | [] => None
  | _ => Some (mkBuffer (map (fun n => Z.of_nat n # 32768) bytes) (Z.to_pos rate))
  end.

Definition sample_createPcmBlob (inputData : list Q) : PcmBlob := inputData.

Definition no_throw (e : Effect) : bool := false.

Definition track_stop_throws (e : Effect) : bool :=
  match e with TrackStop _ => true | _ => false end.

Definition audio_message (b64 : string) (flag : bool) : LiveServerMessage :=
  mkMessage (Some (mkServerContent
    (Some (mkContent (Some [mkPart (Some (mkBlob (Some b64)))]))) flag false)).

Definition interruption_message : LiveServerMessage :=
  mkMessage (Some (mkServerContent None true false)).

(** Audio in the second part only. *)
Definition second_part_message : LiveServerMessage :=
  mkMessage (Some (mkServerContent
    (Some (mkContent (Some [mkPart None; mkPart (Some (mkBlob (Some "pcm-a")))])))
    false false)).

Definition buffer_a : AudioBuffer := mkBuffer [64 # 32768; 32 # 32768; 0 # 32768] 24000.
Definition buffer_b : AudioBuffer := mkBuffer [16 # 32768; 16 # 32768] 24000.

Definition sample_host : Host :=
  mkHost (Some (mkContext 16000 suspended)) (Some (mkContext 24000 running))
         true true (Some (mkStream [0; 1]%nat)).

Definition no_microphone : Host :=
  mkHost (Some (mkContext 16000 running)) (Some (mkContext 24000 running))
         true true None.

Definition no_output_context : Host :=
  mkHost (Some (mkContext 16000 running)) None true true (Some (mkStream [0%nat])).

Definition sample_live : LiveSession := mkLive true true.

(** A session after [connect] with [sample_host], before the promise
    settles. *)
Definition connecting : World :=
  mkWorld (Some (Pending []))
    (Some (mkContext 16000 running)) (Some (mkContext 24000 running))
    0 [] (Some (mkStream [0; 1]%nat)) []
    [LiveConnect default_instruction] [] 0.

(** The same session once the Transport is open and capture started. *)
Definition streaming : World :=
  mkWorld (Some (Fulfilled (Some sample_live)))
    (Some (mkContext 16000 running)) (Some (mkContext 24000 running))
    0 [] (Some (mkStream [0; 1]%nat)) [[MediaStreamSource; ScriptProcessor]]
    [LiveConnect default_instruction; ConsoleLog "Gemini Live Session Opened"] [] 0.

(** Two sources cited in an answer: the second support has no start and
    comes first once sorted. *)
Definition sample_grounding : GroundingMetadata :=
  mkGrounding
    (Some [mkSupport (Some (mkSegment (Some 18%nat) (Some 26%nat))) (Some [0%nat]);
           mkSupport (Some (mkSegment None (Some 6%nat))) (Some [1%nat])])
    (Some [WebChunk "https://www.standards.govt.nz" "NZS 3604";
           WebChunk "https://www.building.govt.nz" "Timber treatment"]).

Definition sample_answer : GenerateContentResponse :=
  mkResponse (Some "Timber framing to NZS 3604.")
    (Some [mkCandidate (Some sample_grounding)]).

(** An endpoint that answers every request but the one whose prompt is
    "offline", on which the call throws. *)
Definition sample_generateContent (r : GenerateContentRequest)
  : option GenerateContentResponse :=
  match last (req_parts r) (TextPart "") with
  | TextPart t => if String.eqb t "offline" then None else Some sample_answer
  | InlineData _ _ => Some sample_answer
  end.

(** [trim] on spaces, tabs and line ends. *)
Definition is_space (c : ascii) : bool :=
  let n := nat_of_ascii c in
  Nat.eqb n 32 || (Nat.leb 9 n && Nat.leb n 13).

Fixpoint trim_start (s : string) : string :=
  match s with
  | EmptyString => EmptyString
  | String c rest => if is_space c then trim_start rest else s
  end.

Fixpoint trim_end (s : string) : string :=
  match s with
  | EmptyString => EmptyString
  | String c rest =>
      match trim_end rest with
      | EmptyString => if is_space c then EmptyString else String c EmptyString
      | kept => String c kept
      end
  end.

Definition sample_trim (s : string) : string := trim_end (trim_start s).

(** [Date.now()] going up by a millisecond at each reading. *)
Definition sample_clock (k : nat) : Z := (1700000000000 + Z.of_nat k)%Z.

Definition floor_plan : Attachment :=
  mkAttachment None pdf "blob:floor-plan" (Some "JVBERi0x") "application/pdf"
    "floor-plan.pdf" None None.

Definition earlier_floor_plan : Attachment :=
  mkAttachment (Some "1699999990000") pdf "blob:floor-plan-old" (Some "JVBERi0w")
    "application/pdf" "floor-plan.pdf" (Some 1699999990000%Z)
    (Some "Slab on grade, 90 mm framing.").

Definition site_photo : Attachment :=
  mkAttachment (Some "1699999980000") image "blob:site" (Some "iVBORw0K") "image/png"
    "site.png" (Some 1699999980000%Z) None.

(** The message [App] starts the history with. *)
Definition welcome : Message :=
  mkMsg "welcome" model
    "Kia ora! Upload a plan or ask me about NZ Building Codes. I can help with compliance checks, material estimation, or general construction queries."
    1699999970000 false None None.

Definition sample_plans : Plans :=
  mkPlans None [earlier_floor_plan; site_photo] [welcome] None false false.

Definition sample_chat : Chat := mkChat "  Is H3.2 required? " false [site_photo] [welcome].

Definition offline_chat : Chat := mkChat "offline" false [] [welcome].

Definition idle_voice : Voice := mkVoice false false "Tap orb to start" None 0 [].

(** The screen while the session [streaming] is running. *)
Definition active_voice : Voice := mkVoice true false "Listening..." (Some 0%nat) 0 [streaming].

Definition sample_file : File :=
  mkFile "application/pdf" "floor-plan.pdf" "blob:floor-plan"
    "data:application/pdf;base64,JVBERi0x".

Definition cited_message : Message :=
  mkMsg "1700000000003" model "Timber framing to NZS 3604." 1700000000004 false None
    (Some sample_grounding).

Section Session.

(** The codec of audioUtils: [decode] turns base64 text into bytes and
    [decodeAudioData] builds the buffer; [None] stands for a throw (a
    rejection, for the asynchronous one). *)
Variable decode : string -> option (list nat).
Variable decodeAudioData : list nat -> AudioContext -> Z -> Z -> option AudioBuffer.

(** ** handleServerMessage *)

(** The interruption block: stop each source, swallowing a throw of
    [stop], clear the set, zero the cursor. *)
Definition handle_interruption (flag : bool) (w : World) : World :=
  if flag then
    let w1 := fold_left (fun acc s => emit (SourceStop s) acc) (sources w) w in
    set_nextStartTime 0 (set_sources [] w1)
  else w.

(** The [catch] block of the decode. *)
Definition decode_failed (w : World) : World :=
  emit (ConsoleError "Error decoding audio") w.

(** The numbers of the host the session runs on. *)
Context {num : Numbers}.

(** [a + b] on numbers. *)
Definition added (a b : Q) : Q := number (a + b).

(** [audioBuffer.duration] *)
Definition seconds (b : AudioBuffer) : Q := number (duration b).

(** The [try] body after the [await]: build source and gain node, start
    at the cursor, advance the cursor by the buffer's duration, add the
    source to the set. *)
Definition play (audioBuffer : AudioBuffer) (w : World) : World :=
  let source := allocated w in
  let w1 := set_allocated (S source) w in
  let w2 := emit (SourceStart source audioBuffer gain_value (nextStartTime w1)) w1 in
  let w3 := set_nextStartTime (added (nextStartTime w2) (seconds audioBuffer)) w2 in
  set_sources (sources w3 ++ [source]) w3.

(** The handler from its entry up to the [await] (or to its end when it
    does not reach one).  [now] is [outputAudioContext.currentTime]. *)
Definition handle_begin (now : Q) (m : LiveServerMessage) (w : World) : World :=
  match outputAudioContext w with
  | None => w
  | Some ctx =>
    match base64Audio m with
    | Some b64 =>
      let w1 := set_nextStartTime (Qmax (nextStartTime w) now) w in
      match decode b64 with
      | None => handle_interruption (is_interrupted m) (decode_failed w1)
      | Some bytes =>
        set_awaiting
          (awaiting w1 ++
             [mkSuspended (decodeAudioData bytes ctx 24000%Z 1%Z) (is_interrupted m)])
          w1
      end
    | None => handle_interruption (is_interrupted m) w
    end
  end.

(** The handler from the [await] to its end. *)
Definition handle_resume (k : Suspended) (w : World) : World :=
  let w1 := match awaited k with
            | Some audioBuffer => play audioBuffer w
            | None => decode_failed w
            end in
  handle_interruption (then_interrupted k) w1.

(** The ['ended'] listener of a source. *)
Definition on_ended (source : nat) (w : World) : World :=
  set_sources (List.filter (fun s => negb (Nat.eqb s source)) (sources w)) w.

(** [remove_nth i l]: [l] without its [i]-th element. *)
Fixpoint remove_nth {A} (i : nat) (l : list A) : list A :=
  match l, i with
  | [], _ => []
  | _ :: t, O => t
  | h :: t, S j => h :: remove_nth j t
  end.

(** The [i]-th parked handler resumes. *)
Definition settle (i : nat) (w : World) : World :=
  match nth_error (awaiting w) i with
  | None => w
  | Some k => handle_resume k (set_awaiting (remove_nth i (awaiting w)) w)
  end.

(** [handleServerMessage] read as one piece: what [handle_begin] and
    then the resumption of the handler it parked come to when nothing
    else happens in between ([handle_begin_then_settle]).  Nothing in the
    class makes that so: [onmessage] does not await the handler. *)
Definition handleServerMessage (now : Q) (m : LiveServerMessage) (w : World) : World :=
  match outputAudioContext w with
  | None => w
  | Some ctx =>
    match base64Audio m with
    | Some b64 =>
      let w1 := set_nextStartTime (Qmax (nextStartTime w) now) w in
      let w2 := match decode b64 with
                | None => decode_failed w1
                | Some bytes =>
                  match decodeAudioData bytes ctx 24000%Z 1%Z with
                  | Some audioBuffer => play audioBuffer w1
                  | None => decode_failed w1
                  end
                end in
      handle_interruption (is_interrupted m) w2
    | None => handle_interruption (is_interrupted m) w
    end
  end.

(** ** The connection promise *)

(** The body of a [.then] callback, any throw inside it going to the
    [.catch] that follows. *)
Definition react (session : option LiveSession) (r : Reaction) (w : World) : World :=
  match session, r with
  | Some s, ThenSend media =>
      if has_sendRealtimeInput s then emit (SendRealtimeInput media) w else w
  | Some s, ThenClose =>
      if has_close s then emit SessionClose w else w
  | None, _ => w
  end.

(** [this.sessionPromise?.then(..).catch(..)]; on a promise already
    fulfilled the reaction runs in the next microtask, before any other
    event. *)
Definition chain (r : Reaction) (w : World) : World :=
  match sessionPromise w with
  | None => w
  | Some (Pending rs) => set_sessionPromise (Some (Pending (rs ++ [r]))) w
  | Some (Fulfilled session) => react session r w
  | Some Rejected => w
  end.

(** The promise of [ai.live.connect] fulfils, its reactions running in
    the order they were chained. *)
Definition fulfil (session : option LiveSession) (w : World) : World :=
  match sessionPromise w with
  | Some (Pending rs) =>
      fold_left (fun acc r => react session r acc) rs
        (set_sessionPromise (Some (Fulfilled session)) w)
  | _ => w
  end.

Definition reject (w : World) : World :=
  match sessionPromise w with
  | Some (Pending _) => set_sessionPromise (Some Rejected) w
  | _ => w
  end.

(** ** Capture *)

Variable createPcmBlob : list Q -> PcmBlob.

(** [scriptProcessor.onaudioprocess] *)
Definition onaudioprocess (inputData : list Q) (w : World) : World :=
  chain (ThenSend (createPcmBlob inputData)) w.

(** [startAudioStreaming]; [graph_ok] is false when building the capture
    graph throws. *)
Definition startAudioStreaming (graph_ok : bool) (w : World) : World :=
  match inputAudioContext w, stream w, sessionPromise w with
  | Some _, Some _, Some _ =>
      if graph_ok
      then set_cleanupCallbacks
             (cleanupCallbacks w ++ [[MediaStreamSource; ScriptProcessor]]) w
      else emit (ConsoleError "Audio Streaming Error") w
  | _, _, _ => w
  end.

(** ** connect *)

Inductive Completion :=
| Returned (w : World)
| Thrown (e : string) (w : World).

Definition world_of (c : Completion) : World :=
  match c with Returned w => w | Thrown _ w => w end.

Definition bind (c : Completion) (f : World -> Completion) : Completion :=
  match c with
  | Returned w => f w
  | Thrown e w => Thrown e w
  end.

Notation "c >>= f" := (bind c f) (at level 50, left associativity).

Definition audio_init_failed (w : World) : Completion :=
  Thrown "Could not initialize audio"
    (emit (ConsoleError "Audio Context Init Failed") w).

Definition resumed (c : AudioContext) : AudioContext :=
  mkContext (sampleRate c) running.

Definition instruction_or_default (systemInstruction : option string) : string :=
  match systemInstruction with
  | Some s => if String.eqb s "" then default_instruction else s
  | None => default_instruction
  end.

(** The first [try] of [connect]: both contexts, each resumed when
    suspended. *)
Definition setup_audio_contexts (host : Host) (w : World) : Completion :=
  match newInputContext host with
  | None => audio_init_failed w
  | Some ic =>
    let w1 := set_inputAudioContext (Some ic) w in
    match newOutputContext host with
    | None => audio_init_failed w1
    | Some oc =>
      let w2 := set_outputAudioContext (Some oc) w1 in
      let after_input :=
        match state ic with
        | suspended =>
            if resumeInput host
            then Returned (set_inputAudioContext (Some (resumed ic)) w2)
            else audio_init_failed w2
        | _ => Returned w2
        end in
      after_input >>= fun w3 =>
        match state oc with
        | suspended =>
            if resumeOutput host
            then Returned (set_outputAudioContext (Some (resumed oc)) w3)
            else audio_init_failed w3
        | _ => Returned w3
        end
    end
  end.

Definition connect (host : Host) (systemInstruction : option string) (w : World)
  : Completion :=
  setup_audio_contexts host w >>= fun w1 =>
    match getUserMedia host with
    | None =>
        Returned (emit (CallOnError "Microphone access denied")
                    (emit (ConsoleError "Mic access denied") w1))
    | Some media =>
        let w2 := set_stream (Some media) w1 in
        Returned (set_sessionPromise (Some (Pending []))
                    (emit (LiveConnect (instruction_or_default systemInstruction)) w2))
    end.

(** ** The callbacks handed to [ai.live.connect] *)

Definition onopen (graph_ok : bool) (w : World) : World :=
  startAudioStreaming graph_ok (emit (ConsoleLog "Gemini Live Session Opened") w).

Definition onmessage (now : Q) (m : LiveServerMessage) (w : World) : World :=
  emit (CallOnMessage m) (handle_begin now m w).

Definition onerror (w : World) : World :=
  emit (CallOnError "Connection error") (emit (ConsoleError "Gemini Live Error") w).

Definition onclose (w : World) : World :=
  emit CallOnClose (emit (ConsoleLog "Gemini Live Closed") w).

(** ** disconnect *)

(** Which host calls throw synchronously. *)
Variable throws : Effect -> bool.

Definition call (e : Effect) (w : World) : Completion :=
  let w1 := emit e w in
  if throws e then Thrown "host" w1 else Returned w1.

Fixpoint call_each (es : list Effect) (w : World) : Completion :=
  match es with
  | [] => Returned w
  | e :: rest => call e w >>= call_each rest
  end.

Definition close_context (which : Which) (w : World) : Completion :=
  let field := match which with
               | Input => inputAudioContext w
               | Output => outputAudioContext w
               end in
  match field with
  | None => Returned w
  | Some c =>
      call (ContextClose which (state c)) w >>= fun w1 =>
        let c' := Some (mkContext (sampleRate c) closed) in
        Returned (match which with
                  | Input => set_inputAudioContext c' w1
                  | Output => set_outputAudioContext c' w1
                  end)
  end.

Definition stop_tracks (w : World) : Completion :=
  match stream w with
  | None => Returned w
  | Some media => call_each (map TrackStop (getTracks media)) w
  end.

Definition run_cleanupCallbacks (w : World) : Completion :=
  call_each (map NodeDisconnect (List.concat (cleanupCallbacks w))) w.

Definition disconnect (w : World) : Completion :=
  stop_tracks w >>= run_cleanupCallbacks
    >>= close_context Input
    >>= close_context Output
    >>= fun w1 => Returned (chain ThenClose w1).

(** ** Everything that can happen to a session, one event at a time *)

Inductive Event :=
| OnOpen (graph_ok : bool)
| OnMessage (now : Q) (m : LiveServerMessage)
| OnError
| OnClose
| Settle (i : nat)
| Ended (source : nat)
| AudioProcess (inputData : list Q)
| Fulfil (session : option LiveSession)
| Reject
| Connect (host : Host) (systemInstruction : option string)
| Disconnect.

Definition step (w : World) (ev : Event) : World :=
  match ev with
  | OnOpen ok => onopen ok w
  | OnMessage now m => onmessage now m w
  | OnError => onerror w
  | OnClose => onclose w
  | Settle i => settle i w
  | Ended s => on_ended s w
  | AudioProcess d => onaudioprocess d w
  | Fulfil s => fulfil s w
  | Reject => reject w
  | Connect host i => world_of (connect host i w)
  | Disconnect => world_of (disconnect w)
  end.

Definition run (evs : list Event) (w : World) : World := fold_left step evs w.

(** ** Reading a trace *)

Definition start_time (e : Effect) : option Q :=
  match e with SourceStart _ _ _ t => Some t | _ => None end.

Definition start_buffer (e : Effect) : option AudioBuffer :=
  match e with SourceStart _ b _ _ => Some b | _ => None end.

Fixpoint choose {A B} (f : A -> option B) (l : list A) : list B :=
  match l with
  | [] => []
  | a :: t => match f a with
              | Some b => b :: choose f t
              | None => choose f t
              end
  end.

Definition start_times (w : World) : list Q := choose start_time (effects w).
Definition started (w : World) : list AudioBuffer := choose start_buffer (effects w).

Definition count_effects (p : Effect -> bool) (w : World) : nat :=
  List.length (List.filter p (effects w)).

Definition is_context_close (e : Effect) : bool :=
  match e with ContextClose _ _ => true | _ => false end.

Definition is_reclose (e : Effect) : bool :=
  match e with ContextClose _ closed => true | _ => false end.

Definition is_session_close (e : Effect) : bool :=
  match e with SessionClose => true | _ => false end.

Definition is_release (e : Effect) : bool :=
  match e with
  | TrackStop _ | NodeDisconnect _ | ContextClose _ _ | SessionClose => true
  | _ => false
  end.

Definition is_live_connect (e : Effect) : bool :=
  match e with LiveConnect _ => true | _ => false end.

Definition is_on_error (e : Effect) : bool :=
  match e with CallOnError _ => true | _ => false end.

(** Error notifications a [connect] call hands its caller: the [onError]
    calls it made, and its rejection if it threw. *)
Definition error_notifications (before : World) (c : Completion) : nat :=
  (count_effects is_on_error (world_of c) - count_effects is_on_error before)
  + match c with Thrown _ _ => 1 | Returned _ => 0 end.

(** What a gain node outputs for a source started through it. *)
Definition rendered (e : Effect) : list Q :=
  match e with
  | SourceStart _ b g _ => map (Qmult g) (channelData b)
  | _ => []
  end.

(** The buffer a message yields, when its decode succeeds. *)
Definition decoded (ctx : AudioContext) (m : LiveServerMessage) : option AudioBuffer :=
  match base64Audio m with
  | None => None
  | Some b64 =>
      match decode b64 with
      | None => None
      | Some bytes => decodeAudioData bytes ctx 24000%Z 1%Z
      end
  end.

(** ** The scheduling rule as the specification words it *)

(** [schedule (now, d)]: start at [max(cursor, now)], then move the
    cursor to [start + d]. *)
Fixpoint schedule_all (cursor : Q) (chunks : list (Q * Q)) : list Q * Q :=
  match chunks with
  | [] => ([], cursor)
  | (now, d) :: rest =>
      let start := Qmax cursor now in
      let '(starts, final) := schedule_all (added start d) rest in
      (start :: starts, final)
  end.

(** Start times of back-to-back chunks: the running sums of the
    durations before each, added one after the other from [from]. *)
Fixpoint cumulative (from : Q) (ds : list Q) : list Q :=
  match ds with
  | [] => []
  | d :: rest => from :: cumulative (added from d) rest
  end.

Definition total (from : Q) (ds : list Q) : Q := fold_left added ds from.

(** No chunk arrives after the clock has passed the cursor. *)
Fixpoint on_time (cursor : Q) (chunks : list (Q * Q)) : Prop :=
  match chunks with
  | [] => True
  | (now, d) :: rest => now <= cursor /\ on_time (added cursor d) rest
  end.

(** ** Vocabulary of the statements *)

(** An arrival annotated with the buffer it decodes to. *)
Record Chunk := mkChunk {
  clock : Q;
  message : LiveServerMessage;
  pcm : AudioBuffer
}.

Definition timing (c : Chunk) : Q * Q := (clock c, seconds (pcm c)).

(** A chunk whose decode completes before anything else happens to the
    session: its message arrives, and the handler it has just parked,
    behind those already waiting in [w], resumes. *)
Definition in_turn (w : World) (c : Chunk) : list Event :=
  [OnMessage (clock c) (message c); Settle (List.length (awaiting w))].

(** Chunks that arrive one by one, each decoded before the next comes. *)
Definition one_by_one (w : World) (chunks : list Chunk) : list Event :=
  flat_map (in_turn w) chunks.

(** The chunk decodes in [ctx] to its buffer and carries no interruption. *)
Definition clean (ctx : AudioContext) (c : Chunk) : Prop :=
  decoded ctx (message c) = Some (pcm c) /\ is_interrupted (message c) = false.

(** Buffers scheduled or still being decoded, oldest first. *)
Definition pipeline (w : World) : list AudioBuffer :=
  started w ++ choose awaited (awaiting w).

(** The buffer an event brings in: that of a message that decodes. *)
Definition arrived (ctx : AudioContext) (ev : Event) : option AudioBuffer :=
  match ev with
  | OnMessage _ m => decoded ctx m
  | _ => None
  end.

(** Events under which decodes complete in the order they were begun. *)
Definition in_order (ev : Event) : bool :=
  match ev with
  | OnMessage _ _ => true
  | Settle O => true
  | Ended _ => true
  | _ => false
  end.

Definition sent_media (e : Effect) : option PcmBlob :=
  match e with SendRealtimeInput media => Some media | _ => None end.

Definition sends (w : World) : list PcmBlob := choose sent_media (effects w).

Definition queued_media (r : Reaction) : option PcmBlob :=
  match r with ThenSend media => Some media | ThenClose => None end.

(** Device acquisition as [connect] needs it: both contexts built,
    each resumed if it came up suspended, and a microphone stream. *)
Definition resumes (c : AudioContext) (resume_ok : bool) : bool :=
  match state c with suspended => resume_ok | _ => true end.

Definition acquires (host : Host) : bool :=
  match newInputContext host, newOutputContext host, getUserMedia host with
  | Some ic, Some oc, Some _ =>
      resumes ic (resumeInput host) && resumes oc (resumeOutput host)
  | _, _, _ => false
  end.

(** The synchronous host calls of [disconnect], in program order. *)
Definition context_calls (which : Which) (c : option AudioContext) : list Effect :=
  match c with
  | Some ctx => [ContextClose which (state ctx)]
  | None => []
  end.

Definition device_calls (w : World) : list Effect :=
  match stream w with
  | Some media => map TrackStop (getTracks media)
  | None => []
  end
  ++ map NodeDisconnect (List.concat (cleanupCallbacks w))
  ++ context_calls Input (inputAudioContext w)
  ++ context_calls Output (outputAudioContext w).

(** The calls made of a list when the first to throw ends it, and
    whether one threw. *)
Fixpoint until_throw (es : list Effect) : list Effect * bool :=
  match es with
  | [] => ([], false)
  | e :: rest =>
      if throws e then ([e], true)
      else let '(made, threw) := until_throw rest in (e :: made, threw)
  end.

(** What the last step of [disconnect] makes of the connection promise
    at once. *)
Definition transport_calls (w : World) : list Effect :=
  match sessionPromise w with
  | Some (Fulfilled (Some s)) => if has_close s then [SessionClose] else []
  | _ => []
  end.

Definition gain_is_set (e : Effect) : Prop :=
  match e with
  | SourceStart _ b g _ =>
      g = 12 # 10 /\ rendered e = map (Qmult (12 # 10)) (channelData b)
  | _ => True
  end.

(** [w] with further calls on its trace. *)
Definition emits (es : list Effect) (w : World) : World :=
  mkWorld (sessionPromise w) (inputAudioContext w) (outputAudioContext w)
    (nextStartTime w) (sources w) (stream w) (cleanupCallbacks w)
    (effects w ++ es) (awaiting w) (allocated w).

(** The context field after its [close()]. *)
Definition mark_closed (which : Which) (w : World) : World :=
  match which with
  | Input =>
      match inputAudioContext w with
      | Some c => set_inputAudioContext (Some (mkContext (sampleRate c) closed)) w
      | None => w
      end
  | Output =>
      match outputAudioContext w with
      | Some c => set_outputAudioContext (Some (mkContext (sampleRate c) closed)) w
      | None => w
      end
  end.

Definition context_of (which : Which) (w : World) : option AudioContext :=
  match which with
  | Input => inputAudioContext w
  | Output => outputAudioContext w
  end.

(** A device call repeated on a context that is closed by now. *)
Definition reclosed (e : Effect) : Effect :=
  match e with
  | ContextClose which _ => ContextClose which closed
  | _ => e
  end.

Definition gain_kept (w : World) : Prop := Forall gain_is_set (effects w).

(** [wired]: a session that has a connection promise has an output
    context. *)
Definition has_promise (w : World) : bool :=
  match sessionPromise w with Some _ => true | None => false end.

Definition has_output (w : World) : bool :=
  match outputAudioContext w with Some _ => true | None => false end.

Definition wired (w : World) : Prop :=
  has_promise w = true -> has_output w = true.

Definition keeps_wiring (w w' : World) : Prop :=
  has_promise w' = has_promise w /\ (has_output w = true -> has_output w' = true).

(** The message with its model turn taken away. *)
Definition without_turn (m : LiveServerMessage) : LiveServerMessage :=
  match serverContent m with
  | Some sc => mkMessage (Some (mkServerContent None (interrupted sc) (turnComplete sc)))
  | None => m
  end.

Definition with_parts (ps : list Part) (flag tc : bool) : LiveServerMessage :=
  mkMessage (Some (mkServerContent (Some (mkContent (Some ps))) flag tc)).

(** ** generatePlanAnalysis and its two callers *)

(** [ai.models.generateContent]; [None] when it rejects. *)
Variable generateContent : GenerateContentRequest -> option GenerateContentResponse.

(** [generatePlanAnalysis]; [None] is the error logged and thrown again. *)
Definition generatePlanAnalysis
  (prompt : string) (attachments : list Attachment) (location : option UserLocation)
  : option GenerateContentResponse :=
  generateContent (plan_request prompt attachments location).

(** [handleUploadedPlan] of [LiveInterface], its [await] resumed before
    anything else runs.  [analysisPrompt] is the prompt literal and
    [clock k] the [k]-th reading of the time the handler takes. *)
Definition handleUploadedPlan
  (analysisPrompt : string) (location : option UserLocation) (clock : nat -> Z)
  (attachment : Attachment) (p : Plans) : Plans :=
  match generatePlanAnalysis analysisPrompt [attachment] location with
  | Some response =>
      let responseText :=
        text_or (resp_text response)
          "I analyzed the plan but couldn't generate a text description." in
      let newAtt := with_analysis (stamped attachment (clock 0%nat) (clock 1%nat))
                      responseText in
      let filtered := List.filter (fun q => negb (same_name q newAtt)) (savedAttachments p) in
      let userMsg := mkMsg (toString (clock 2%nat)) user "Uploaded a plan for analysis"
                       (clock 3%nat) false (Some [newAtt]) None in
      let answer := mkMsg (toString (clock 4%nat)) model responseText (clock 5%nat) false
                      None (first_grounding response) in
      mkPlans (Some newAtt) (newAtt :: filtered)
        ((messages p ++ [userMsg]) ++ [answer])
        (Some (mkOverlay responseText (Some "Plan Summary")
                 (Some "If this analysis seems incomplete, the document might be a low-quality scan. Clear digital PDFs work best.")))
        false (showSavedPlans p)
  | None =>
      let newAtt := stamped attachment (clock 0%nat) (clock 1%nat) in
      mkPlans (Some newAtt) (newAtt :: savedAttachments p) (messages p)
        (Some (mkOverlay "Error analyzing plan. Please check your connection."
                 (Some "Error") None))
        false (showSavedPlans p)
  end.

(** [String.prototype.trim] *)
Variable trim : string -> string.

(** [handleSend] of [ChatInterface], its [await] resumed before anything
    else runs. *)
Definition handleSend (location : option UserLocation) (clock : nat -> Z) (c : Chat)
  : Chat :=
  if (String.eqb (trim (input c)) "" && Nat.eqb (List.length (attachments c)) 0)
     || chat_isLoading c
  then c
  else
    let userMsg := mkMsg (toString (clock 0%nat)) user (input c) (clock 1%nat) false
                     (Some (attachments c)) None in
    let thinkingMsgId := ("thinking-" ++ toString (clock 2%nat))%string in
    let thinking := mkMsg thinkingMsgId model "Reviewing plans and regulations..."
                      (clock 3%nat) true None None in
    let shown := (chat_messages c ++ [userMsg]) ++ [thinking] in
    match generatePlanAnalysis (msg_text userMsg) (attachments c) location with
    | Some response =>
        let responseText :=
          text_or (resp_text response)
            "I processed that but couldn't generate a text response." in
        mkChat "" false []
          (List.filter (fun m => negb (String.eqb (msg_id m) thinkingMsgId)) shown
           ++ [mkMsg (toString (clock 4%nat)) model responseText (clock 5%nat) false
                 None (first_grounding response)])
    | None =>
        mkChat "" false []
          (List.filter (fun m => negb (msg_isThinking m)) shown
           ++ [mkMsg (toString (clock 4%nat)) model
                 "Sorry, I encountered an error processing your request. Please check your internet connection or try again."
                 (clock 5%nat) false None None])
    end.

(** ** The voice controls of LiveInterface *)

Definition newline : string := String (Ascii.ascii_of_nat 10) EmptyString.
Definition double_quote : string := String (Ascii.ascii_of_nat 34) EmptyString.

(** The template literal of [toggleSession], line by line, with the
    plan's name and its analysis put in. *)
Definition planInstruction (name analysis : string) : string :=
  String.concat newline
    [ "";
      "            You are an expert NZ Tradie Assistant. ";
      ("            CONTEXT: The user has uploaded a plan named "
         ++ double_quote ++ name ++ double_quote ++ ".")%string;
      "            ";
      "            HERE IS THE ANALYSIS OF THE PLAN:";
      ("            " ++ analysis)%string;
      "            ";
      "            INSTRUCTIONS:";
      "            - Answer the user's questions based on the details above.";
      "            - If they ask about R-values, timber grades, or drainage, refer to the specific sections in the analysis.";
      "            - Keep answers conversational and professional.";
      "            - If the information is not in the summary, tell them you can't see that specific detail on the plan summary.";
      "          " ].

Definition session_instruction (active : option Attachment) : string :=
  match active with
  | Some a =>
      match analysis_of a with
      | Some analysis => planInstruction (att_name a) analysis
      | None => default_instruction
      end
  | None => default_instruction
  end.

(** [toggleSession]; [host] is what the browser answers should the
    handler call [connect]. *)
Definition toggleSession (host : Host) (active : option Attachment) (v : Voice) : Voice :=
  if isActive v then
    match sessionRef v with
    | Some i =>
        match nth_error (heap v) i with
        | Some w =>
            match disconnect w with
            | Returned w' => switched_off (set_heap (update_nth i w' (heap v)) v)
            | Thrown _ w' => set_heap (update_nth i w' (heap v)) v
            end
        | None => switched_off v
        end
    | None => switched_off v
    end
  else
    let v1 := mkVoice (isActive v) (isSpeaking v) "Connecting..." (sessionRef v)
                (timers v) (heap v) in
    let c := connect host (Some (session_instruction active)) new_session in
    let session := List.length (heap v1) in
    let v2 := notify (effects (world_of c)) (set_heap (heap v1 ++ [world_of c]) v1) in
    match c with
    | Returned _ =>
        mkVoice true (isSpeaking v2) "Listening..." (Some session) (timers v2) (heap v2)
    | Thrown _ _ =>
        mkVoice false (isSpeaking v2) "Tap to retry" (sessionRef v2) (timers v2) (heap v2)
    end.

(** The cleanup of the unmount effect: [sessionRef.current?.disconnect()]. *)
Definition unmount (v : Voice) : Voice :=
  match sessionRef v with
  | Some i =>
      match nth_error (heap v) i with
      | Some w => set_heap (update_nth i (world_of (disconnect w)) (heap v)) v
      | None => v
      end
  | None => v
  end.

(** Something happens to the [i]-th session; the observers it calls
    update the screen. *)
Definition session_event (i : nat) (ev : Event) (v : Voice) : Voice :=
  match nth_error (heap v) i with
  | Some w =>
      let w' := step w ev in
      notify (skipn (List.length (effects w)) (effects w'))
        (set_heap (update_nth i w' (heap v)) v)
  | None => v
  end.

(** The contexts of [host] come up, running or resumed. *)
Definition contexts_ready (host : Host) : bool :=
  match newInputContext host, newOutputContext host with
  | Some ic, Some oc => resumes ic (resumeInput host) && resumes oc (resumeOutput host)
  | _, _ => false
  end.

(** ** Vocabulary of the further properties *)

Definition is_playback (e : Effect) : bool :=
  match e with
  | SourceStart _ _ _ _ | SourceStop _ => true
  | _ => false
  end.

(** [w'] differs from [w] in nothing the playback scheduler owns. *)
Definition playback_untouched (w w' : World) : Prop :=
  nextStartTime w' = nextStartTime w
  /\ sources w' = sources w
  /\ awaiting w' = awaiting w
  /\ allocated w' = allocated w
  /\ List.filter is_playback (effects w') = List.filter is_playback (effects w).

(** Events that run no part of [handleServerMessage] and no ['ended']
    listener. *)
Definition is_quiet (ev : Event) : bool :=
  match ev with
  | OnMessage _ _ | Settle _ | Ended _ => false
  | _ => true
  end.

(** What a [start] call books on the context's timeline: the [when] it
    is given and the buffer's duration.  The source sounds there when
    [when] is not yet past at the call; a [when] already past makes it
    sound at once, and the trace does not tell the two apart. *)
Definition span (e : Effect) : option (Q * Q) :=
  match e with
  | SourceStart _ b _ t => Some (t, seconds b)
  | _ => None
  end.

Definition spans (w : World) : list (Q * Q) := choose span (effects w).

(** No span begins before [low] or before the end booked by the one
    before it, [when + duration] as the code adds them. *)
Fixpoint spaced (low : Q) (l : list (Q * Q)) : Prop :=
  match l with
  | [] => True
  | (t, d) :: rest => low <= t /\ spaced (added t d) rest
  end.

(** Where the last span ends ([low] when there is none). *)
Definition last_end (low : Q) (l : list (Q * Q)) : Q :=
  fold_left (fun _ s => added (fst s) (snd s)) l low.

(** Events that carry no interruption. *)
Definition calm (ev : Event) : bool :=
  match ev with
  | OnMessage _ m => negb (is_interrupted m)
  | _ => true
  end.

Definition start_id (e : Effect) : option nat :=
  match e with SourceStart id _ _ _ => Some id | _ => None end.

Definition started_ids (w : World) : list nat := choose start_id (effects w).

Definition is_on_message (e : Effect) : bool :=
  match e with CallOnMessage _ => true | _ => false end.

Definition is_message_event (ev : Event) : bool :=
  match ev with OnMessage _ _ => true | _ => false end.

Definition is_source_stop (s : nat) (e : Effect) : bool :=
  match e with SourceStop x => Nat.eqb x s | _ => false end.

(** What a reaction calls on the session the promise fulfilled with. *)
Definition reaction_calls (s : LiveSession) (r : Reaction) : list Effect :=
  match r with
  | ThenSend media => if has_sendRealtimeInput s then [SendRealtimeInput media] else []
  | ThenClose => if has_close s then [SessionClose] else []
  end.

(** The context as [close()] leaves it. *)
Definition closed_context (c : AudioContext) : AudioContext :=
  mkContext (sampleRate c) closed.

(** [w'] has the trace of [w] followed by calls that [p] allows. *)
Definition adds (p : Effect -> bool) (w w' : World) : Prop :=
  exists new, effects w' = effects w ++ new /\ forallb p new = true.

(** The same, and the playback fields are as they were. *)
Definition quietly (p : Effect -> bool) (w w' : World) : Prop :=
  adds p w w'
  /\ nextStartTime w' = nextStartTime w
  /\ sources w' = sources w
  /\ awaiting w' = awaiting w
  /\ allocated w' = allocated w.

(** The calls each event can make. *)
Definition emitted_by (ev : Event) (e : Effect) : bool :=
  match ev, e with
  | OnOpen _, (ConsoleLog _ | ConsoleError _) => true
  | OnMessage _ _, (CallOnMessage _ | ConsoleError _ | SourceStop _) => true
  | OnError, (ConsoleError _ | CallOnError _) => true
  | OnClose, (ConsoleLog _ | CallOnClose) => true
  | Settle _, (SourceStart _ _ _ _ | SourceStop _ | ConsoleError _) => true
  | AudioProcess _, SendRealtimeInput _ => true
  | Fulfil _, (SendRealtimeInput _ | SessionClose) => true
  | Connect _ _, (ConsoleError _ | CallOnError _ | LiveConnect _) => true
  | Disconnect, (TrackStop _ | NodeDisconnect _ | ContextClose _ _ | SessionClose) => true
  | _, _ => false
  end.

Definition is_disconnect (ev : Event) : bool :=
  match ev with Disconnect => true | _ => false end.

(** What every reachable session satisfies: source ids are handed out
    in start order, the set holds each of its sources once and only
    sources that were started, and no time is negative. *)
Definition tidy (w : World) : Prop :=
  started_ids w = seq 0 (allocated w)
  /\ NoDup (sources w)
  /\ Forall (fun s => (s < allocated w)%nat) (sources w)
  /\ 0 <= nextStartTime w
  /\ Forall (fun t => 0 <= t) (start_times w).

(** The intervals booked follow one another without overlap, the
    cursor is past the last of them, and no parked handler will
    interrupt. *)
Definition in_sequence (w : World) : Prop :=
  spaced 0 (spans w)
  /\ last_end 0 (spans w) <= nextStartTime w
  /\ Forall (fun k => then_interrupted k = false) (awaiting w).

(** What the two halves of [handleServerMessage] can call. *)
Definition in_handler (e : Effect) : bool :=
  match e with
  | ConsoleError _ | SourceStop _ | SourceStart _ _ _ _ => true
  | _ => false
  end.

(** What the handler can call before its [await]. *)
Definition in_begin (e : Effect) : bool :=
  match e with
  | ConsoleError _ | SourceStop _ => true
  | _ => false
  end.

(** No reaction waiting on the promise asks for the session to close. *)
Definition is_then_send (r : Reaction) : bool :=
  match r with ThenSend _ => true | ThenClose => false end.

Definition no_close_waiting (w : World) : Prop :=
  match sessionPromise w with
  | Some (Pending rs) => forallb is_then_send rs = true
  | _ => True
  end.

(** ** Bookkeeping lemmas *)

Lemma run_app (a b : list Event) (w : World) : run (a ++ b) w = run b (run a w).
Proof. apply fold_left_app. Qed.

Lemma nth_error_snoc {A} (l : list A) (x : A) :
  nth_error (l ++ [x]) (List.length l) = Some x.
Proof. induction l; simpl; auto. Qed.

Lemma remove_nth_snoc {A} (l : list A) (x : A) :
  remove_nth (List.length l) (l ++ [x]) = l.
Proof. induction l; simpl; [reflexivity | now f_equal]. Qed.

(** [Math.max] returns its first argument unless the second is larger. *)
Lemma Qmax_kept (c now : Q) : now <= c -> Qmax c now = c.
Proof.
  intros H; unfold Qmax, GenericMinMax.gmax.
  destruct (Qcompare c now) eqn:E; try reflexivity.
  apply Qlt_alt in E; exfalso; exact (Qlt_not_le _ _ E H).
Qed.

Lemma choose_app {A B} (f : A -> option B) (l1 l2 : list A) :
  choose f (l1 ++ l2) = choose f l1 ++ choose f l2.
Proof.
  induction l1 as [|a l1 IH]; simpl; [reflexivity|].
  destruct (f a); simpl; now rewrite IH.
Qed.

Lemma fold_emit {A} (f : A -> Effect) (l : list A) (w : World) :
  fold_left (fun acc s => emit (f s) acc) l w =
  mkWorld (sessionPromise w) (inputAudioContext w) (outputAudioContext w)
    (nextStartTime w) (sources w) (stream w) (cleanupCallbacks w)
    (effects w ++ map f l) (awaiting w) (allocated w).
Proof.
  revert w; induction l as [|a l IH]; intros w; simpl.
  - rewrite app_nil_r; now destruct w.
  - rewrite IH; simpl; now rewrite <- app_assoc.
Qed.

Lemma handle_interruption_true (w : World) :
  handle_interruption true w =
  mkWorld (sessionPromise w) (inputAudioContext w) (outputAudioContext w)
    0 [] (stream w) (cleanupCallbacks w)
    (effects w ++ map SourceStop (sources w)) (awaiting w) (allocated w).
Proof. unfold handle_interruption; now rewrite fold_emit. Qed.

Lemma handle_interruption_starts (flag : bool) (w : World) :
  choose start_buffer (effects (handle_interruption flag w))
  = choose start_buffer (effects w)
  /\ choose start_time (effects (handle_interruption flag w))
    = choose start_time (effects w).
Proof.
  destruct flag; [|now split].
  rewrite handle_interruption_true; simpl; rewrite !choose_app.
  assert (H : forall l, choose start_buffer (map SourceStop l) = []
                        /\ choose start_time (map SourceStop l) = []).
  { induction l; simpl; auto. }
  destruct (H (sources w)) as [-> ->]; now rewrite !app_nil_r.
Qed.

Lemma handle_interruption_keeps (flag : bool) (w : World) :
  outputAudioContext (handle_interruption flag w) = outputAudioContext w
  /\ awaiting (handle_interruption flag w) = awaiting w
  /\ allocated (handle_interruption flag w) = allocated w
  /\ sessionPromise (handle_interruption flag w) = sessionPromise w.
Proof. destruct flag; [rewrite handle_interruption_true|]; simpl; auto. Qed.

(** A message that decodes and carries no interruption is played at the
    cursor raised to the clock. *)
Lemma handle_clean (w : World) (ctx : AudioContext) (c : Chunk) :
  outputAudioContext w = Some ctx ->
  clean ctx c ->
  handleServerMessage (clock c) (message c) w
  = play (pcm c) (set_nextStartTime (Qmax (nextStartTime w) (clock c)) w).
Proof.
  intros Hctx [Hdec Hint]; unfold handleServerMessage, decoded in *.
  rewrite Hctx, Hint.
  destruct (base64Audio (message c)); [|discriminate].
  destruct (decode s); [|discriminate].
  now rewrite Hdec.
Qed.

(** A message that decodes and carries no interruption, its decode
    completing before anything else happens: the observer is called, the
    cursor is raised to the clock read on arrival, and the buffer is
    played. *)
Lemma turn_clean (w : World) (ctx : AudioContext) (c : Chunk) :
  outputAudioContext w = Some ctx ->
  clean ctx c ->
  run (in_turn w c) w
  = play (pcm c)
      (emit (CallOnMessage (message c))
         (set_nextStartTime (Qmax (nextStartTime w) (clock c)) w)).
Proof.
  intros Hctx [Hdec Hint]; unfold in_turn, run; simpl.
  unfold onmessage, handle_begin, decoded in *; rewrite Hctx.
  destruct (base64Audio (message c)) as [b64|]; [|discriminate].
  destruct (decode b64) as [bytes|]; [|discriminate].
  rewrite Hdec, Hint; unfold settle; simpl.
  rewrite nth_error_snoc, remove_nth_snoc; unfold handle_resume; simpl.
  destruct w; reflexivity.
Qed.

Lemma one_by_one_clean (chunks : list Chunk) :
  forall (w : World) (ctx : AudioContext),
  outputAudioContext w = Some ctx ->
  Forall (clean ctx) chunks ->
  let w' := run (one_by_one w chunks) w in
  let plan := schedule_all (nextStartTime w) (map timing chunks) in
  outputAudioContext w' = Some ctx
  /\ start_times w' = start_times w ++ fst plan
  /\ nextStartTime w' = snd plan
  /\ started w' = started w ++ map pcm chunks
  /\ sources w' = sources w ++ seq (allocated w) (List.length chunks)
  /\ awaiting w' = awaiting w.
Proof.
  induction chunks as [|c chunks IH]; intros w ctx Hctx Hall.
  - simpl; unfold start_times, started; rewrite !app_nil_r; repeat split; auto.
  - inversion Hall as [|? ? Hc Hrest]; subst.
    change (one_by_one w (c :: chunks)) with (in_turn w c ++ one_by_one w chunks).
    rewrite run_app, (turn_clean w ctx c Hctx Hc).
    set (w1 := play (pcm c)
                 (emit (CallOnMessage (message c))
                    (set_nextStartTime (Qmax (nextStartTime w) (clock c)) w))).
    assert (Hctx1 : outputAudioContext w1 = Some ctx) by exact Hctx.
    change (one_by_one w chunks) with (one_by_one w1 chunks).
    destruct (IH w1 ctx Hctx1 Hrest) as (H1 & H2 & H3 & H4 & H5 & H6).
    simpl.
    change (nextStartTime w1)
      with (added (Qmax (nextStartTime w) (clock c)) (seconds (pcm c))) in H2, H3.
    destruct (schedule_all (added (Qmax (nextStartTime w) (clock c)) (seconds (pcm c)))
                (map timing chunks)) as [starts final] eqn:E.
    simpl in *.
    repeat split; try assumption.
    + rewrite H2; unfold start_times, w1; simpl.
      rewrite !choose_app; simpl; now rewrite <- !app_assoc.
    + rewrite H4; unfold started, w1; simpl.
      rewrite !choose_app; simpl; now rewrite <- !app_assoc.
    + rewrite H5; unfold w1; simpl; now rewrite <- app_assoc.
Qed.

(** ** The scheduling rule *)

Lemma duration_nonneg (b : AudioBuffer) : 0 <= duration b.
Proof. unfold duration, Qle; simpl; lia. Qed.

Lemma seconds_nonneg (b : AudioBuffer) : 0 <= seconds b.
Proof. apply number_nonneg, duration_nonneg. Qed.

Lemma added_nonneg (a b : Q) : 0 <= a -> 0 <= b -> 0 <= added a b.
Proof. intros Ha Hb; apply number_nonneg; lra. Qed.

(** While no chunk arrives after the clock has passed the cursor, the
    starts are the running sums of the durations. *)
Lemma schedule_all_on_time (l : list (Q * Q)) :
  forall c,
  on_time c l ->
  fst (schedule_all c l) = cumulative c (map snd l)
  /\ snd (schedule_all c l) = total c (map snd l).
Proof.
  induction l as [|[now d] l IH]; intros c Hall; simpl; [split; reflexivity|].
  destruct Hall as [Hn Hrest].
  rewrite (Qmax_kept c now Hn).
  destruct (IH _ Hrest) as [H1 H2].
  destruct (schedule_all (added c d) l) as [starts final]; simpl in *.
  split; [now rewrite H1 | exact H2].
Qed.

(** What the resumption of a parked handler does with a buffer. *)
Lemma settle_plays (v : World) (i : nat) (b : AudioBuffer) (flag : bool) :
  nth_error (awaiting v) i = Some (mkSuspended (Some b) flag) ->
  settle i v
  = handle_interruption flag
      (play b (set_awaiting (remove_nth i (awaiting v)) v)).
Proof. intros H; unfold settle; now rewrite H. Qed.

(** ** Playback scheduling *)

(** C1, as the code has it.  When each chunk's decode completes before
    the next message arrives, and no interruption comes, each chunk
    starts at the larger of the cursor and the clock read at its arrival,
    and the cursor moves to that start plus the chunk's duration, added
    as the host adds numbers.  If moreover no chunk arrives after the
    clock has passed the cursor (as on an idle device with every arrival
    at time 0), the starts are the running sums of the earlier durations
    and the cursor ends at their total.  In general a chunk is started at
    the cursor as it is when its decode completes, whatever has raised it
    since the chunk arrived. *)
Theorem chunks_play_back_to_back
  (chunks : list Chunk) (w : World) (ctx : AudioContext) :
  outputAudioContext w = Some ctx ->
  Forall (clean ctx) chunks ->
  let w' := run (one_by_one w chunks) w in
  let plan := schedule_all (nextStartTime w) (map timing chunks) in
  let ds := map (fun c => seconds (pcm c)) chunks in
  (start_times w' = start_times w ++ fst plan /\ nextStartTime w' = snd plan)
  /\ (on_time (nextStartTime w) (map timing chunks) ->
      fst plan = cumulative (nextStartTime w) ds
      /\ nextStartTime w' = total (nextStartTime w) ds)
  /\ (forall v i b,
        nth_error (awaiting v) i = Some (mkSuspended (Some b) false) ->
        effects (settle i v)
        = effects v ++ [SourceStart (allocated v) b gain_value (nextStartTime v)]
        /\ nextStartTime (settle i v) = added (nextStartTime v) (seconds b)).
Proof.
  intros Hctx Hall w' plan ds.
  destruct (one_by_one_clean chunks w ctx Hctx Hall) as (_ & H2 & H3 & _).
  fold w' plan in H2, H3.
  split; [split; assumption|]; split.
  - intros Htime.
    destruct (schedule_all_on_time _ _ Htime) as [P1 P2].
    fold plan in P1, P2.
    replace ds with (map snd (map timing chunks)) by (now rewrite map_map).
    split; [exact P1 | now rewrite H3].
  - intros v i b Hk; rewrite (settle_plays v i b false Hk); simpl.
    split; reflexivity.
Qed.


(** ** The gain node *)

Lemma gain_kept_emit (e : Effect) (w : World) :
  gain_is_set e -> gain_kept w -> gain_kept (emit e w).
Proof.
  unfold gain_kept; simpl; intros He Hw.
  apply Forall_app; split; [assumption | now constructor].
Qed.

Lemma gain_kept_interruption (flag : bool) (w : World) :
  gain_kept w -> gain_kept (handle_interruption flag w).
Proof.
  destruct flag; [|auto]; rewrite handle_interruption_true.
  unfold gain_kept; simpl; intros Hw; apply Forall_app; split; [assumption|].
  apply Forall_forall; intros e He; apply in_map_iff in He.
  now destruct He as (x & <- & _).
Qed.

Lemma gain_kept_play (b : AudioBuffer) (w : World) :
  gain_kept w -> gain_kept (play b w).
Proof.
  unfold gain_kept, play; simpl; intros Hw.
  apply Forall_app; split; [assumption|]; constructor; [|constructor].
  simpl; auto.
Qed.

Lemma gain_kept_react (session : option LiveSession) (r : Reaction) (w : World) :
  gain_kept w -> gain_kept (react session r w).
Proof.
  intros Hw; destruct session as [s|], r; simpl; auto;
    match goal with |- context [if ?b then _ else _] => destruct b end;
    auto; now apply gain_kept_emit.
Qed.

Lemma gain_kept_call_each (es : list Effect) :
  Forall gain_is_set es ->
  forall w, gain_kept w -> gain_kept (world_of (call_each es w)).
Proof.
  induction 1 as [|e es He _ IH]; intros w Hw; simpl; [assumption|].
  unfold call; destruct (throws e); simpl.
  - now apply gain_kept_emit.
  - apply IH; now apply gain_kept_emit.
Qed.

Lemma gain_kept_bind (c : Completion) (f : World -> Completion) :
  gain_kept (world_of c) ->
  (forall w, gain_kept w -> gain_kept (world_of (f w))) ->
  gain_kept (world_of (c >>= f)).
Proof. destruct c; simpl; auto. Qed.

Lemma gain_kept_close_context (which : Which) (w : World) :
  gain_kept w -> gain_kept (world_of (close_context which w)).
Proof.
  intros Hw; unfold close_context.
  destruct which;
    match goal with |- context [match ?f with _ => _ end] => destruct f end;
    simpl; auto; unfold call;
    match goal with |- context [throws ?e] => destruct (throws e) end;
    simpl; now apply (gain_kept_emit _ w).
Qed.

Lemma gain_kept_disconnect (w : World) :
  gain_kept w -> gain_kept (world_of (disconnect w)).
Proof.
  intros Hw; unfold disconnect.
  repeat apply gain_kept_bind.
  - unfold stop_tracks; destruct (stream w); [|exact Hw].
    apply gain_kept_call_each; [|exact Hw].
    apply Forall_forall; intros e He; apply in_map_iff in He.
    now destruct He as (x & <- & _).
  - intros w1 H1; unfold run_cleanupCallbacks.
    apply gain_kept_call_each; [|exact H1].
    apply Forall_forall; intros e He; apply in_map_iff in He.
    now destruct He as (x & <- & _).
  - intros; now apply gain_kept_close_context.
  - intros; now apply gain_kept_close_context.
  - intros w1 H1; simpl; unfold chain.
    destruct (sessionPromise w1) as [[rs|session|]|]; auto.
    now apply gain_kept_react.
Qed.

Lemma gain_kept_connect (host : Host) (i : option string) (w : World) :
  gain_kept w -> gain_kept (world_of (connect host i w)).
Proof.
  intros Hw; unfold connect, setup_audio_contexts, audio_init_failed.
  destruct (newInputContext host) as [ic|]; [|simpl; now apply gain_kept_emit].
  destruct (newOutputContext host) as [oc|]; [|simpl; now apply (gain_kept_emit _ w)].
  destruct (state ic), (resumeInput host), (state oc), (resumeOutput host),
    (getUserMedia host); simpl;
    repeat (apply gain_kept_emit; [exact I|]); exact Hw.
Qed.

Lemma gain_kept_step (w : World) (ev : Event) :
  gain_kept w -> gain_kept (step w ev).
Proof.
  intros Hw; destruct ev; simpl.
  - unfold onopen, startAudioStreaming; simpl.
    destruct (inputAudioContext w), (stream w), (sessionPromise w), graph_ok;
      simpl; repeat (apply gain_kept_emit; [exact I|]);
      try exact Hw; now apply (gain_kept_emit _ w).
  - unfold onmessage; apply gain_kept_emit; [exact I|].
    unfold handle_begin.
    destruct (outputAudioContext w); [|exact Hw].
    destruct (base64Audio m); [|now apply gain_kept_interruption].
    destruct (decode s); [exact Hw|].
    apply gain_kept_interruption; now apply (gain_kept_emit _ (set_nextStartTime _ w)).
  - unfold onerror; repeat (apply gain_kept_emit; [exact I|]); exact Hw.
  - unfold onclose; repeat (apply gain_kept_emit; [exact I|]); exact Hw.
  - unfold settle; destruct (nth_error (awaiting w) i) as [k|]; [|exact Hw].
    unfold handle_resume; apply gain_kept_interruption.
    destruct (awaited k); [now apply gain_kept_play|].
    now apply (gain_kept_emit _ (set_awaiting _ w)).
  - exact Hw.
  - unfold onaudioprocess, chain.
    destruct (sessionPromise w) as [[rs|session|]|]; auto.
    now apply gain_kept_react.
  - unfold fulfil; destruct (sessionPromise w) as [[rs|s0|]|]; auto.
    assert (H : forall l v, gain_kept v ->
              gain_kept (fold_left (fun acc r => react session r acc) l v)).
    { induction l; simpl; intros; auto. apply IHl; now apply gain_kept_react. }
    now apply H.
  - unfold reject; destruct (sessionPromise w) as [[rs|s0|]|]; auto.
  - now apply gain_kept_connect.
  - now apply gain_kept_disconnect.
Qed.

(** C9. Every source the session ever starts is routed through a gain
    node set to 1.2, so what reaches the destination is its samples times
    1.2; a resumed handler whose decode succeeded starts such a source;
    1.2 is not unity. *)
Theorem chunks_play_through_gain :
  (forall evs, Forall gain_is_set (effects (run evs new_session)))
  /\ (forall w k b, awaited k = Some b ->
      exists rest,
        effects (handle_resume k w)
        = effects w ++ SourceStart (allocated w) b (12 # 10) (nextStartTime w) :: rest)
  /\ ~ gain_value == 1.
Proof.
  split; [|split].
  - intros evs; change (gain_kept (run evs new_session)).
    assert (H : forall l w, gain_kept w -> gain_kept (run l w)).
    { induction l; simpl; intros; auto. apply IHl; now apply gain_kept_step. }
    apply H; constructor.
  - intros w k b Hk; unfold handle_resume; rewrite Hk.
    destruct (then_interrupted k).
    + rewrite handle_interruption_true; simpl.
      eexists; rewrite <- app_assoc; reflexivity.
    + simpl; eexists; reflexivity.
  - unfold gain_value, Qeq; simpl; lia.
Qed.

(** ** Messages find an output context *)

Lemma keeps_wiring_refl (w : World) : keeps_wiring w w.
Proof. split; auto. Qed.

Lemma keeps_wiring_trans (a b c : World) :
  keeps_wiring a b -> keeps_wiring b c -> keeps_wiring a c.
Proof. intros [H1 H2] [H3 H4]; split; [congruence | auto]. Qed.

Lemma keeps_wiring_interruption (flag : bool) (w : World) :
  keeps_wiring w (handle_interruption flag w).
Proof.
  destruct (handle_interruption_keeps flag w) as (H1 & _ & _ & H2).
  unfold keeps_wiring, has_promise, has_output; now rewrite H1, H2.
Qed.

Lemma keeps_wiring_emit (e : Effect) (w v : World) :
  keeps_wiring w v -> keeps_wiring w (emit e v).
Proof. intros [H1 H2]; split; [exact H1 | exact H2]. Qed.

Lemma keeps_wiring_then_interruption (flag : bool) (w v : World) :
  keeps_wiring w v -> keeps_wiring w (handle_interruption flag v).
Proof.
  intros H; eapply keeps_wiring_trans; [exact H | apply keeps_wiring_interruption].
Qed.

Lemma keeps_wiring_react (session : option LiveSession) (r : Reaction) (w : World) :
  keeps_wiring w (react session r w).
Proof.
  destruct session as [s|], r; simpl; try apply keeps_wiring_refl;
    match goal with |- context [if ?b then _ else _] => destruct b end;
    split; auto.
Qed.

Lemma keeps_wiring_chain (r : Reaction) (w : World) : keeps_wiring w (chain r w).
Proof.
  unfold chain; destruct (sessionPromise w) as [[rs|session|]|] eqn:E;
    try apply keeps_wiring_refl; [|apply keeps_wiring_react].
  unfold keeps_wiring, has_promise, has_output; simpl; now rewrite E.
Qed.

Lemma keeps_wiring_call_each (es : list Effect) :
  forall w, keeps_wiring w (world_of (call_each es w)).
Proof.
  induction es as [|e es IH]; intros w; simpl; [apply keeps_wiring_refl|].
  unfold call; destruct (throws e); simpl; [split; auto|].
  eapply keeps_wiring_trans; [|apply IH]; split; auto.
Qed.

Lemma keeps_wiring_bind (w : World) (c : Completion) (f : World -> Completion) :
  keeps_wiring w (world_of c) ->
  (forall v, keeps_wiring v (world_of (f v))) ->
  keeps_wiring w (world_of (c >>= f)).
Proof.
  destruct c; simpl; auto.
  intros H Hf; eapply keeps_wiring_trans; [exact H | apply Hf].
Qed.

Lemma keeps_wiring_close_context (which : Which) (w : World) :
  keeps_wiring w (world_of (close_context which w)).
Proof.
  unfold close_context; destruct which.
  - destruct (inputAudioContext w); [|apply keeps_wiring_refl].
    unfold call; destruct (throws _); simpl; split; auto.
  - destruct (outputAudioContext w) eqn:E; [|apply keeps_wiring_refl].
    unfold call; destruct (throws _); simpl; split; auto.
Qed.

Lemma keeps_wiring_disconnect (w : World) :
  keeps_wiring w (world_of (disconnect w)).
Proof.
  unfold disconnect; repeat apply keeps_wiring_bind.
  - unfold stop_tracks; destruct (stream w);
      [apply keeps_wiring_call_each | apply keeps_wiring_refl].
  - intros v; apply keeps_wiring_call_each.
  - intros v; apply keeps_wiring_close_context.
  - intros v; apply keeps_wiring_close_context.
  - intros v; apply keeps_wiring_chain.
Qed.

Lemma wired_connect (host : Host) (i : option string) (w : World) :
  wired w -> wired (world_of (connect host i w)).
Proof.
  unfold wired, connect, setup_audio_contexts, audio_init_failed, has_promise, has_output.
  destruct (newInputContext host) as [ic|]; [|simpl; auto].
  destruct (newOutputContext host) as [oc|]; [|simpl; auto].
  destruct (state ic), (resumeInput host), (state oc), (resumeOutput host),
    (getUserMedia host); simpl; auto.
Qed.

Lemma wired_step (w : World) (ev : Event) : wired w -> wired (step w ev).
Proof.
  assert (K : forall v, keeps_wiring w v -> wired w -> wired v).
  { unfold wired; intros v [H1 H2] Hw Hv; rewrite H1 in Hv; auto. }
  destruct ev; simpl; try (apply wired_connect); apply K.
  - unfold onopen, startAudioStreaming; simpl.
    destruct (inputAudioContext w), (stream w), (sessionPromise w) eqn:E, graph_ok;
      unfold keeps_wiring, has_promise, has_output; simpl; rewrite ?E; auto.
  - unfold onmessage, handle_begin.
    destruct (outputAudioContext w) eqn:E; [|split; auto].
    destruct (base64Audio m).
    + destruct (decode s); [split; auto|].
      apply keeps_wiring_emit, keeps_wiring_then_interruption; split; auto.
    + apply keeps_wiring_emit, keeps_wiring_then_interruption, keeps_wiring_refl.
  - split; auto.
  - split; auto.
  - unfold settle; destruct (nth_error (awaiting w) i) as [k|];
      [|apply keeps_wiring_refl].
    unfold handle_resume; apply keeps_wiring_then_interruption.
    destruct (awaited k); split; auto.
  - split; auto.
  - apply keeps_wiring_chain.
  - unfold fulfil; destruct (sessionPromise w) as [[rs|s0|]|] eqn:E;
      try apply keeps_wiring_refl.
    assert (H : forall l v, keeps_wiring v
                  (fold_left (fun acc r => react session r acc) l v)).
    { induction l; simpl; intros; [apply keeps_wiring_refl|].
      eapply keeps_wiring_trans; [apply keeps_wiring_react | apply IHl]. }
    eapply keeps_wiring_trans; [|apply H].
    unfold keeps_wiring, has_promise, has_output; simpl; now rewrite E.
  - unfold reject; destruct (sessionPromise w) as [[rs|s0|]|] eqn:E;
      try apply keeps_wiring_refl.
    unfold keeps_wiring, has_promise, has_output; simpl; now rewrite E.
  - apply keeps_wiring_disconnect.
Qed.

(** Whatever has happened to a session since its construction, if it
    has a connection promise (so that a message can reach it) it has an
    output context for [handleServerMessage] to work with. *)
Lemma messages_find_the_output_context (evs : list Event) :
  wired (run evs new_session).
Proof.
  assert (H : forall l w, wired w -> wired (run l w)).
  { induction l; simpl; intros; auto. apply IHl; now apply wired_step. }
  apply H; unfold wired; simpl; discriminate.
Qed.

(** ** Reading the message *)

(** C10. Only [parts[0]] is looked at: when it holds no audio the
    message is handled exactly as one with no model turn at all, whatever
    the later parts hold; nothing is parked for decoding and no source is
    started. *)
Theorem only_first_part_is_read
  (p : Part) (rest : list Part) (flag tc : bool) (now : Q) (w : World) :
  audio_of_part p = None ->
  let m := with_parts (p :: rest) flag tc in
  base64Audio m = None
  /\ handleServerMessage now m w = handleServerMessage now (without_turn m) w
  /\ handle_begin now m w = handleServerMessage now m w
  /\ awaiting (handle_begin now m w) = awaiting w
  /\ started (handleServerMessage now m w) = started w.
Proof.
  intros Hp m.
  assert (Hb : base64Audio m = None) by (unfold m, base64Audio; simpl; exact Hp).
  split; [exact Hb|].
  unfold handleServerMessage, handle_begin; rewrite Hb; simpl.
  destruct (outputAudioContext w); repeat split; try reflexivity.
  - apply handle_interruption_keeps.
  - apply handle_interruption_starts.
Qed.

(** What comes after [parts[0]] never matters. *)
Lemma later_parts_are_ignored
  (p : Part) (rest rest' : list Part) (flag tc : bool) (now : Q) (w : World) :
  handleServerMessage now (with_parts (p :: rest) flag tc) w
  = handleServerMessage now (with_parts (p :: rest') flag tc) w.
Proof. reflexivity. Qed.

(** ** Order of scheduling *)

Lemma handle_begin_then_settle (now : Q) (m : LiveServerMessage) (w : World) :
  let w1 := handle_begin now m w in
  (awaiting w1 = awaiting w /\ w1 = handleServerMessage now m w)
  \/ settle (List.length (awaiting w)) w1 = handleServerMessage now m w.
Proof.
  unfold handle_begin, handleServerMessage; simpl.
  destruct (outputAudioContext w) as [ctx|]; [|left; auto].
  destruct (base64Audio m) as [b64|];
    [|left; split; [apply handle_interruption_keeps | reflexivity]].
  destruct (decode b64) as [bytes|].
  2:{ left; split; [|reflexivity].
      destruct (handle_interruption_keeps (is_interrupted m)
                  (decode_failed (set_nextStartTime (Qmax (nextStartTime w) now) w)))
        as (_ & K & _).
      exact K. }
  right; unfold settle; simpl.
  assert (Hn : forall (l : list Suspended) k, nth_error (l ++ [k]) (List.length l) = Some k).
  { induction l; simpl; auto. }
  assert (Hr : forall (l : list Suspended) k, remove_nth (List.length l) (l ++ [k]) = l).
  { induction l; simpl; intros; [reflexivity | now rewrite IHl]. }
  rewrite Hn, Hr; unfold handle_resume; simpl.
  destruct (decodeAudioData bytes ctx 24000%Z 1%Z); destruct w; reflexivity.
Qed.

Lemma pipeline_step (w : World) (ctx : AudioContext) (ev : Event) :
  outputAudioContext w = Some ctx ->
  in_order ev = true ->
  outputAudioContext (step w ev) = Some ctx
  /\ pipeline (step w ev)
     = pipeline w ++ match arrived ctx ev with Some b => [b] | None => [] end.
Proof.
  intros Hctx Hev; destruct ev; try discriminate; simpl.
  - unfold onmessage, handle_begin, decoded, pipeline, started; rewrite Hctx.
    destruct (base64Audio m) as [b64|].
    + destruct (decode b64) as [bytes|].
      * simpl; split; [exact Hctx|].
        rewrite !choose_app; simpl.
        destruct (decodeAudioData bytes ctx 24000%Z 1%Z); simpl;
          now rewrite !app_nil_r, <- ?app_assoc.
      * simpl.
        destruct (handle_interruption_keeps (is_interrupted m)
                    (decode_failed (set_nextStartTime (Qmax (nextStartTime w) now) w)))
          as (K1 & K2 & _).
        destruct (handle_interruption_starts (is_interrupted m)
                    (decode_failed (set_nextStartTime (Qmax (nextStartTime w) now) w)))
          as (S1 & _).
        rewrite K1, K2; split; [exact Hctx|].
        rewrite choose_app, S1; simpl.
        rewrite choose_app; simpl; now rewrite !app_nil_r.
    + simpl.
      destruct (handle_interruption_keeps (is_interrupted m) w) as (K1 & K2 & _).
      destruct (handle_interruption_starts (is_interrupted m) w) as (S1 & _).
      rewrite K1, K2, choose_app, S1; simpl; split; [exact Hctx|].
      now rewrite !app_nil_r.
  - destruct i; [|discriminate].
    unfold settle, pipeline, started; rewrite app_nil_r.
    destruct (awaiting w) as [|k rest] eqn:Ew; simpl; [rewrite Ew; auto|].
    unfold handle_resume.
    set (w0 := set_awaiting rest w).
    set (w1 := match awaited k with
               | Some audioBuffer => play audioBuffer w0
               | None => decode_failed w0
               end).
    destruct (handle_interruption_keeps (then_interrupted k) w1) as (K1 & K2 & _).
    destruct (handle_interruption_starts (then_interrupted k) w1) as (S1 & _).
    rewrite K1, K2, S1; unfold w1, w0.
    destruct (awaited k); simpl; (split; [exact Hctx|]);
      rewrite choose_app; simpl; now rewrite <- ?app_assoc, ?app_nil_r.
  - unfold on_ended, pipeline, started; simpl; split; [exact Hctx|].
    now rewrite app_nil_r.
Qed.

Lemma pipeline_run (ctx : AudioContext) (evs : list Event) :
  forall w,
  outputAudioContext w = Some ctx ->
  forallb in_order evs = true ->
  pipeline (run evs w) = pipeline w ++ choose (arrived ctx) evs.
Proof.
  induction evs as [|ev evs IH]; intros w Hctx Hev; simpl.
  - now rewrite app_nil_r.
  - simpl in Hev; apply andb_prop in Hev; destruct Hev as [H1 H2].
    destruct (pipeline_step w ctx ev Hctx H1) as [Hc Hp].
    change (fold_left step evs (step w ev)) with (run evs (step w ev)).
    rewrite (IH _ Hc H2), Hp.
    destruct (arrived ctx ev); simpl; now rewrite <- app_assoc.
Qed.

(** C5, as the code has it.  A chunk whose decode fails is logged and
    dropped, whether the base64 text or the audio data is at fault: the
    observer is called and the error logged, no source is created, the
    set and the other parked handlers are untouched, and the cursor is
    only raised to the clock, as every arrival raises it.  The session
    goes on: chunks that follow one by one are started by the scheduling
    rule from there, the first at the time it would have had without the
    failed chunk when the clock has not run backwards; and in any run in
    which decodes complete in the order they were begun, what is started
    followed by what is still decoding are the decodable arrivals in wire
    order. *)
Theorem failed_decode_is_dropped
  (w : World) (ctx : AudioContext) (now : Q) (m : LiveServerMessage)
  (chunks : list Chunk) :
  outputAudioContext w = Some ctx ->
  base64Audio m <> None ->
  decoded ctx m = None ->
  is_interrupted m = false ->
  Forall (clean ctx) chunks ->
  let w1 := run [OnMessage now m; Settle (List.length (awaiting w))] w in
  let after_failure := run (one_by_one w1 chunks) w1 in
  let raised := Qmax (nextStartTime w) now in
  ((effects w1 = effects w ++ [ConsoleError "Error decoding audio"; CallOnMessage m]
    \/ effects w1 = effects w ++ [CallOnMessage m; ConsoleError "Error decoding audio"])
   /\ sources w1 = sources w
   /\ awaiting w1 = awaiting w
   /\ allocated w1 = allocated w
   /\ nextStartTime w1 = raised)
  /\ started after_failure = started w ++ map pcm chunks
  /\ start_times after_failure
     = start_times w ++ fst (schedule_all raised (map timing chunks))
  /\ nextStartTime after_failure = snd (schedule_all raised (map timing chunks))
  /\ (forall c rest, chunks = c :: rest -> now <= clock c ->
      exists t,
        nth_error (start_times after_failure) (List.length (start_times w)) = Some t
        /\ t == Qmax (nextStartTime w) (clock c))
  /\ (forall evs, forallb in_order evs = true ->
      pipeline (run evs w1) = pipeline w ++ choose (arrived ctx) evs).
Proof.
  intros Hctx Haudio Hdec Hint Hall w1 after_failure raised.
  assert (Hw1 : exists l,
            w1 = mkWorld (sessionPromise w) (inputAudioContext w) (outputAudioContext w)
                   raised (sources w) (stream w) (cleanupCallbacks w)
                   (effects w ++ l) (awaiting w) (allocated w)
            /\ (l = [ConsoleError "Error decoding audio"; CallOnMessage m]
                \/ l = [CallOnMessage m; ConsoleError "Error decoding audio"])).
  { unfold w1, run; simpl; unfold onmessage, handle_begin, decoded in *.
    rewrite Hctx, Hint.
    destruct (base64Audio m) as [b64|]; [|congruence].
    destruct (decode b64) as [bytes|].
    - rewrite Hdec; unfold settle; simpl.
      rewrite nth_error_snoc, remove_nth_snoc; unfold handle_resume; simpl.
      eexists; split; [|right; reflexivity].
      unfold decode_failed, emit; simpl; now rewrite <- app_assoc, Hctx.
    - unfold settle; simpl.
      replace (nth_error (awaiting w) (List.length (awaiting w))) with (@None Suspended)
        by (symmetry; apply nth_error_None; lia).
      eexists; split; [|left; reflexivity].
      unfold decode_failed, emit; simpl; now rewrite <- app_assoc, Hctx. }
  destruct Hw1 as (l & Hw1 & Hl).
  assert (Hctx1 : outputAudioContext w1 = Some ctx) by (rewrite Hw1; exact Hctx).
  assert (Hst : start_times w1 = start_times w /\ started w1 = started w).
  { rewrite Hw1; unfold start_times, started; simpl; rewrite !choose_app.
    destruct Hl as [-> | ->]; simpl; now rewrite !app_nil_r. }
  destruct Hst as [Hst1 Hst2].
  assert (Hcur : nextStartTime w1 = raised) by now rewrite Hw1.
  assert (Hpipe : pipeline w1 = pipeline w).
  { unfold pipeline; rewrite Hst2, Hw1; reflexivity. }
  destruct (one_by_one_clean chunks w1 ctx Hctx1 Hall) as (_ & A2 & A3 & A4 & _).
  fold after_failure in A2, A3, A4; rewrite Hcur in A2, A3.
  split.
  { rewrite Hw1; simpl.
    split; [destruct Hl as [-> | ->]; [left | right]; reflexivity | repeat split]. }
  split; [now rewrite A4, Hst2|].
  split; [now rewrite A2, Hst1|].
  split; [exact A3|]; split.
  - intros c rest -> Hclock; rewrite A2, Hst1; simpl.
    destruct (schedule_all (added (Qmax raised (clock c)) (seconds (pcm c)))
                (map timing rest)) as [starts final]; simpl.
    exists (Qmax raised (clock c)); split.
    + rewrite nth_error_app2 by lia; now rewrite Nat.sub_diag.
    + unfold raised; rewrite <- Q.max_assoc; now rewrite (Q.max_r now (clock c) Hclock).
  - intros evs Hev; now rewrite (pipeline_run ctx evs w1 Hctx1 Hev), Hpipe.
Qed.

(** C3, as the code has it.  Nothing serialises decode-then-schedule:
    sources are started in the order the decodes complete.  When they
    complete in the order they were begun, the buffers started followed
    by those still decoding are the decodable arrivals in wire order.  An
    interruption in a message that carries no audio acts on arrival:
    every source of the set is stopped, the set emptied and the cursor
    zeroed before any later event is looked at.  One that rides on an
    audio message acts when that message's handler resumes from its
    decode. *)
Theorem arrival_order_needs_ordered_decodes
  (evs : list Event) (w : World) (ctx : AudioContext) :
  outputAudioContext w = Some ctx ->
  forallb in_order evs = true ->
  pipeline (run evs w) = pipeline w ++ choose (arrived ctx) evs
  /\ (forall now m,
        base64Audio m = None ->
        is_interrupted m = true ->
        let w1 := step (run evs w) (OnMessage now m) in
        sources w1 = [] /\ nextStartTime w1 = 0
        /\ forall s, In s (sources (run evs w)) -> In (SourceStop s) (effects w1))
  /\ (forall k v,
        then_interrupted k = true ->
        sources (handle_resume k v) = [] /\ nextStartTime (handle_resume k v) = 0).
Proof.
  intros Hctx Hev.
  assert (H : outputAudioContext (run evs w) = Some ctx
              /\ pipeline (run evs w) = pipeline w ++ choose (arrived ctx) evs).
  { revert w Hctx; induction evs as [|ev evs IH]; intros w Hctx; simpl.
    - now rewrite app_nil_r.
    - simpl in Hev; apply andb_prop in Hev; destruct Hev as [H1 H2].
      destruct (pipeline_step w ctx ev Hctx H1) as [Hc Hp].
      destruct (IH H2 (step w ev) Hc) as [Hc' Hp'].
      split; [exact Hc'|].
      change (run (ev :: evs) w) with (run evs (step w ev)).
      rewrite Hp', Hp, <- app_assoc.
      now destruct (arrived ctx ev). }
  destruct H as [Hc Hp]; split; [exact Hp|]; split.
  - intros now m Hb Hi; simpl.
    unfold onmessage, handle_begin; rewrite Hc, Hb, Hi, handle_interruption_true; simpl.
    repeat split.
    intros s Hs; apply in_or_app; left; apply in_or_app; right; now apply in_map.
  - intros k v Hk; unfold handle_resume.
    rewrite Hk, handle_interruption_true; simpl; auto.
Qed.

(** ** Capture *)

Lemma capture_while_pending (frames : list (list Q)) :
  forall (w : World) (rs : list Reaction),
  sessionPromise w = Some (Pending rs) ->
  run (map AudioProcess frames) w
  = set_sessionPromise
      (Some (Pending (rs ++ map ThenSend (map createPcmBlob frames)))) w.
Proof.
  induction frames as [|d frames IH]; intros w rs Hw; simpl.
  - rewrite app_nil_r, <- Hw; now destruct w.
  - unfold onaudioprocess, chain; rewrite Hw.
    erewrite IH by reflexivity.
    unfold set_sessionPromise; simpl; now rewrite <- app_assoc.
Qed.

Lemma capture_when_fulfilled (s : LiveSession) (frames : list (list Q)) :
  has_sendRealtimeInput s = true ->
  forall w : World,
  sessionPromise w = Some (Fulfilled (Some s)) ->
  sessionPromise (run (map AudioProcess frames) w) = sessionPromise w
  /\ effects (run (map AudioProcess frames) w)
     = effects w ++ map SendRealtimeInput (map createPcmBlob frames).
Proof.
  intros Hs; induction frames as [|d frames IH]; intros w Hw; simpl.
  - now rewrite app_nil_r.
  - unfold onaudioprocess, chain; rewrite Hw; simpl; rewrite Hs.
    destruct (IH (emit (SendRealtimeInput (createPcmBlob d)) w) Hw) as [H1 H2].
    fold (run (map AudioProcess frames) (emit (SendRealtimeInput (createPcmBlob d)) w)).
    rewrite H1, H2; simpl.
    now rewrite <- app_assoc.
Qed.

Lemma capture_dropped (frames : list (list Q)) (w : World) :
  sessionPromise w = None
  \/ sessionPromise w = Some Rejected
  \/ sessionPromise w = Some (Fulfilled None)
  \/ (exists s, sessionPromise w = Some (Fulfilled (Some s))
                /\ has_sendRealtimeInput s = false) ->
  run (map AudioProcess frames) w = w.
Proof.
  intros Hw; induction frames as [|d frames IH]; simpl; [reflexivity|].
  assert (Hd : onaudioprocess d w = w).
  { unfold onaudioprocess, chain.
    destruct Hw as [-> | [-> | [-> | (s & -> & Hs)]]]; simpl; auto.
    now rewrite Hs. }
  rewrite Hd; exact IH.
Qed.

Lemma sends_of_reactions (s : LiveSession) (rs : list Reaction) :
  has_sendRealtimeInput s = true ->
  forall w, sends (fold_left (fun acc r => react (Some s) r acc) rs w)
            = sends w ++ choose queued_media rs.
Proof.
  intros Hs; induction rs as [|r rs IH]; intros w; simpl.
  - now rewrite app_nil_r.
  - rewrite IH; destruct r; simpl.
    + rewrite Hs; unfold sends; simpl; rewrite choose_app; simpl.
      now rewrite <- app_assoc.
    + destruct (has_close s); [|reflexivity].
      unfold sends; simpl; rewrite choose_app; simpl; now rewrite app_nil_r.
Qed.

Lemma choose_queued_sends (media : list PcmBlob) :
  choose queued_media (map ThenSend media) = media.
Proof. induction media; simpl; congruence. Qed.

Lemma choose_sent_sends (media : list PcmBlob) :
  choose sent_media (map SendRealtimeInput media) = media.
Proof. induction media; simpl; congruence. Qed.

(** C6, as the code has it.  Each captured frame chains one reaction on
    the connection promise.  With the promise fulfilled by a session that
    has [sendRealtimeInput] the frame is sent once, at once.  With the
    promise still pending nothing is sent yet: the frame waits on the
    promise, and is sent once, in capture order, when the promise
    fulfils, or never when it rejects.  With the promise absent,
    rejected, or fulfilled by a session without the method, the frame is
    dropped and the session is left as it was. *)
Theorem frames_wait_on_the_connection_promise
  (frames : list (list Q)) (w : World) :
  let captured := run (map AudioProcess frames) w in
  let media := map createPcmBlob frames in
  (forall s, sessionPromise w = Some (Fulfilled (Some s)) ->
             has_sendRealtimeInput s = true ->
             sends captured = sends w ++ media)
  /\ (forall rs, sessionPromise w = Some (Pending rs) ->
        effects captured = effects w
        /\ sessionPromise captured = Some (Pending (rs ++ map ThenSend media))
        /\ (forall s, has_sendRealtimeInput s = true ->
                      sends (fulfil (Some s) captured)
                      = sends w ++ choose queued_media rs ++ media)
        /\ effects (reject captured) = effects w)
  /\ (sessionPromise w = None
      \/ sessionPromise w = Some Rejected
      \/ sessionPromise w = Some (Fulfilled None)
      \/ (exists s, sessionPromise w = Some (Fulfilled (Some s))
                    /\ has_sendRealtimeInput s = false) ->
      captured = w).
Proof.
  intros captured media; split; [|split].
  - intros s Hw Hs.
    destruct (capture_when_fulfilled s frames Hs w Hw) as [_ He].
    unfold sends, captured; rewrite He, choose_app.
    now rewrite choose_sent_sends.
  - intros rs Hw; unfold captured.
    rewrite (capture_while_pending frames w rs Hw); simpl.
    repeat split.
    + intros s Hs; unfold fulfil; simpl.
      rewrite (sends_of_reactions s _ Hs); unfold sends; simpl.
      now rewrite choose_app, choose_queued_sends.
  - apply capture_dropped.
Qed.

(** ** connect *)

Lemma count_emit (p : Effect -> bool) (e : Effect) (w : World) :
  count_effects p (emit e w) = (count_effects p w + if p e then 1 else 0)%nat.
Proof.
  unfold count_effects; simpl; rewrite filter_app, length_app; simpl.
  now destruct (p e).
Qed.

(** What [connect] returns when every device is acquired. *)
Lemma connect_acquired (host : Host) (i : option string) (w : World) :
  acquires host = true ->
  exists ic oc media,
    connect host i w
    = Returned (mkWorld (Some (Pending [])) (Some ic) (Some oc)
                  (nextStartTime w) (sources w) (Some media) (cleanupCallbacks w)
                  (effects w ++ [LiveConnect (instruction_or_default i)])
                  (awaiting w) (allocated w)).
Proof.
  unfold acquires, resumes, connect, setup_audio_contexts.
  destruct (newInputContext host) as [ic|]; [|discriminate].
  destruct (newOutputContext host) as [oc|]; [|discriminate].
  destruct (getUserMedia host) as [media|]; [|discriminate].
  destruct (state ic), (resumeInput host), (state oc), (resumeOutput host);
    try discriminate; intros _; simpl; do 3 eexists; reflexivity.
Qed.

(** C7, as the code has it.  When a context cannot be built or resumed,
    or the microphone is refused, [connect] never calls
    [ai.live.connect], leaves [sessionPromise] as it was, and tells its
    caller once: by rejecting for the contexts, by [onError] for the
    microphone.  A session that had no promise stays unable to start
    capture.  The session enters no state of its own for the failure: the
    class has no lifecycle field, and a later [connect] on the same
    instance that acquires its devices opens the Transport. *)
Theorem failed_acquisition_opens_no_transport
  (host : Host) (systemInstruction : option string) (w : World) :
  acquires host = false ->
  let c := connect host systemInstruction w in
  count_effects is_live_connect (world_of c) = count_effects is_live_connect w
  /\ sessionPromise (world_of c) = sessionPromise w
  /\ error_notifications w c = 1%nat
  /\ (sessionPromise w = None ->
      forall graph_ok, startAudioStreaming graph_ok (world_of c) = world_of c)
  /\ (forall again instruction,
        acquires again = true ->
        exists w2,
          connect again instruction (world_of c) = Returned w2
          /\ sessionPromise w2 = Some (Pending [])
          /\ count_effects is_live_connect w2 = S (count_effects is_live_connect w)).
Proof.
  intros Hfail c.
  assert (Hagain : count_effects is_live_connect (world_of c)
                   = count_effects is_live_connect w ->
            forall again instruction,
            acquires again = true ->
            exists w2,
              connect again instruction (world_of c) = Returned w2
              /\ sessionPromise w2 = Some (Pending [])
              /\ count_effects is_live_connect w2
                 = S (count_effects is_live_connect w)).
  { intros Hcount again instruction Hok.
    destruct (connect_acquired again instruction (world_of c) Hok)
      as (ic & oc & media & ->).
    eexists; split; [reflexivity|]; split; [reflexivity|].
    rewrite <- Hcount; unfold count_effects; simpl.
    rewrite filter_app, length_app; simpl; lia. }
  cut (count_effects is_live_connect (world_of c) = count_effects is_live_connect w
       /\ sessionPromise (world_of c) = sessionPromise w
       /\ error_notifications w c = 1%nat
       /\ (sessionPromise w = None ->
           forall graph_ok, startAudioStreaming graph_ok (world_of c) = world_of c)).
  { intros (H1 & H2 & H3 & H4); repeat split; try assumption.
    exact (Hagain H1). }
  clear Hagain; unfold c, connect, setup_audio_contexts, audio_init_failed.
  unfold acquires, resumes in Hfail.
  assert (Hstart : forall v, sessionPromise v = None ->
            forall graph_ok, startAudioStreaming graph_ok v = v).
  { intros v Hv ok; unfold startAudioStreaming; rewrite Hv.
    now destruct (inputAudioContext v), (stream v). }
  destruct host as [ic oc ri ro gum]; simpl in *.
  destruct ic as [ic|];
    [destruct oc as [oc|];
       [destruct (state ic), ri, (state oc), ro, gum|]|];
    simpl in *; try discriminate;
    unfold error_notifications; simpl; rewrite ?count_emit;
    unfold count_effects; simpl; repeat split; auto; try lia.
Qed.

(** ** disconnect *)

Lemma emits_nil (w : World) : emits [] w = w.
Proof. unfold emits; rewrite app_nil_r; now destruct w. Qed.

Lemma emits_emits (a b : list Effect) (w : World) :
  emits b (emits a w) = emits (a ++ b) w.
Proof. unfold emits; simpl; now rewrite app_assoc. Qed.

Lemma call_each_until (es : list Effect) :
  forall w,
  call_each es w
  = (if snd (until_throw es) then Thrown "host" else Returned)
      (emits (fst (until_throw es)) w).
Proof.
  induction es as [|e es IH]; intros w; simpl.
  - now rewrite emits_nil.
  - unfold call; destruct (throws e); simpl; [reflexivity|].
    rewrite IH; destruct (until_throw es) as [made threw]; simpl.
    change (emit e w) with (emits [e] w); now rewrite emits_emits.
Qed.

Lemma until_throw_app (a b : list Effect) :
  until_throw (a ++ b)
  = if snd (until_throw a) then until_throw a
    else (a ++ fst (until_throw b), snd (until_throw b)).
Proof.
  induction a as [|e a IH]; simpl.
  - now destruct (until_throw b).
  - destruct (throws e); [reflexivity|].
    rewrite IH; destruct (until_throw a) as [made threw]; simpl.
    destruct threw; [reflexivity|].
    now destruct (until_throw b).
Qed.

Lemma until_throw_quiet (es : list Effect) :
  snd (until_throw es) = false -> fst (until_throw es) = es.
Proof.
  induction es as [|e es IH]; simpl; [reflexivity|].
  destruct (throws e); simpl; [discriminate|].
  destruct (until_throw es) as [made threw]; simpl in *.
  intros H; now rewrite IH.
Qed.

Lemma stage (es : list Effect) (w : World) (k : World -> Completion) :
  call_each es w >>= k
  = if snd (until_throw es)
    then Thrown "host" (emits (fst (until_throw es)) w)
    else k (emits es w).
Proof.
  rewrite call_each_until.
  destruct (snd (until_throw es)) eqn:E; simpl; [reflexivity|].
  now rewrite (until_throw_quiet es E).
Qed.

Lemma bind_assoc (c : Completion) (f g : World -> Completion) :
  c >>= f >>= g = c >>= fun w => f w >>= g.
Proof. now destruct c. Qed.

Lemma bind_returned (c : Completion) : c >>= Returned = c.
Proof. now destruct c. Qed.

Lemma close_context_calls (which : Which) (w : World) :
  close_context which w
  = call_each (context_calls which (context_of which w)) w
      >>= fun w1 => Returned (mark_closed which w1).
Proof.
  unfold close_context, context_of, mark_closed.
  destruct which.
  - destruct (inputAudioContext w) as [c|] eqn:E; simpl; [|now rewrite E].
    unfold call; destruct (throws _); simpl; [reflexivity | now rewrite E].
  - destruct (outputAudioContext w) as [c|] eqn:E; simpl; [|now rewrite E].
    unfold call; destruct (throws _); simpl; [reflexivity | now rewrite E].
Qed.

(** [disconnect] makes its device calls in order up to the first that
    throws; if none does it marks both contexts closed and chains the
    Transport close on the promise. *)
Lemma disconnect_until (w : World) :
  (snd (until_throw (device_calls w)) = true ->
   exists w', disconnect w = Thrown "host" w'
              /\ effects w' = effects w ++ fst (until_throw (device_calls w)))
  /\ (snd (until_throw (device_calls w)) = false ->
      disconnect w
      = Returned (chain ThenClose
                    (mark_closed Output (mark_closed Input (emits (device_calls w) w))))).
Proof.
  unfold disconnect, device_calls.
  set (T := match stream w with
            | Some media => map TrackStop (getTracks media)
            | None => []
            end).
  set (N := map NodeDisconnect (List.concat (cleanupCallbacks w))).
  set (CI := context_calls Input (inputAudioContext w)).
  set (CO := context_calls Output (outputAudioContext w)).
  assert (HT : stop_tracks w = call_each T w).
  { unfold stop_tracks, T; now destruct (stream w). }
  rewrite HT, !bind_assoc, stage.
  rewrite (until_throw_app T).
  destruct (snd (until_throw T)) eqn:E1.
  { rewrite E1; split; [intros _; eexists; split; reflexivity | discriminate]. }
  unfold run_cleanupCallbacks at 1 2; simpl cleanupCallbacks; fold N.
  rewrite stage, emits_emits, (until_throw_app N).
  destruct (snd (until_throw N)) eqn:E2; simpl fst; simpl snd.
  { rewrite E2; split; [intros _; eexists; split; [reflexivity|] | discriminate].
    simpl; now rewrite app_assoc. }
  rewrite !close_context_calls; simpl context_of; fold CI.
  rewrite !bind_assoc, stage, emits_emits, (until_throw_app CI).
  destruct (snd (until_throw CI)) eqn:E3; simpl fst; simpl snd.
  { rewrite E3; split; [intros _; eexists; split; [reflexivity|] | discriminate].
    simpl; now rewrite !app_assoc. }
  simpl bind.
  match goal with |- context [close_context Output ?v] => set (v3 := v) end.
  rewrite (close_context_calls Output v3).
  assert (HO : context_calls Output (context_of Output v3) = CO).
  { unfold v3, CO; simpl; now destruct (inputAudioContext w). }
  assert (H3 : effects v3 = effects w ++ T ++ N ++ CI).
  { unfold v3; destruct (inputAudioContext w); simpl; now rewrite <- !app_assoc. }
  rewrite HO, !bind_assoc, stage.
  destruct (snd (until_throw CO)) eqn:E4; simpl fst; simpl snd.
  { split; [intros _; eexists; split; [reflexivity|] | discriminate].
    simpl; rewrite H3; now rewrite <- !app_assoc. }
  simpl bind; split; [discriminate | intros _].
  do 2 f_equal.
  unfold v3, mark_closed, emits; simpl.
  destruct (inputAudioContext w), (outputAudioContext w); simpl;
    unfold set_inputAudioContext, set_outputAudioContext; simpl;
    now rewrite <- !app_assoc.
Qed.

Lemma chain_close_effects (w : World) :
  effects (chain ThenClose w) = effects w ++ transport_calls w.
Proof.
  unfold chain, transport_calls.
  destruct (sessionPromise w) as [[rs|[s|]|]|]; simpl; try now rewrite app_nil_r.
  destruct (has_close s); simpl; [reflexivity | now rewrite app_nil_r].
Qed.

Lemma chain_close_transport (w : World) :
  transport_calls (chain ThenClose w) = transport_calls w.
Proof.
  unfold chain, transport_calls.
  destruct (sessionPromise w) as [[rs|[s|]|]|] eqn:E; simpl; rewrite ?E; try reflexivity.
  destruct (has_close s) eqn:Hc; simpl; now rewrite E, Hc.
Qed.

Lemma until_throw_silent (es : list Effect) :
  (forall e, throws e = false) -> until_throw es = (es, false).
Proof.
  intros H; induction es as [|e es IH]; simpl; [reflexivity|].
  now rewrite H, IH.
Qed.

Lemma device_calls_after (w : World) :
  device_calls (chain ThenClose
                  (mark_closed Output (mark_closed Input (emits (device_calls w) w))))
  = map reclosed (device_calls w).
Proof.
  assert (Hmap : forall l, map reclosed (map TrackStop l) = map TrackStop l)
    by (intros l; rewrite map_map; reflexivity).
  assert (Hnodes : forall l, map reclosed (map NodeDisconnect l) = map NodeDisconnect l)
    by (intros l; rewrite map_map; reflexivity).
  destruct w as [sp ic oc nst src st cbs eff aw al].
  unfold device_calls, chain, mark_closed, emits; simpl.
  destruct ic, oc, sp as [[rs|[s|]|]|]; simpl;
    try destruct (has_close s); simpl;
    rewrite !map_app, Hnodes; destruct st; simpl; rewrite ?Hmap; reflexivity.
Qed.

(** C4, as the code has it.  [disconnect] keeps no latch and clears no
    field.  With host calls that do not throw, a second call returns as
    the first did and makes every release call again: the same tracks
    stopped, the same nodes disconnected, [close()] on both contexts
    although they are closed by then, and the same request to close the
    Transport. *)
Theorem disconnect_is_not_latched (w : World) :
  (forall e, throws e = false) ->
  exists w1 w2,
    disconnect w = Returned w1
    /\ disconnect w1 = Returned w2
    /\ effects w1 = effects w ++ device_calls w ++ transport_calls w
    /\ effects w2 = effects w1 ++ map reclosed (device_calls w) ++ transport_calls w
    /\ stream w1 = stream w
    /\ cleanupCallbacks w1 = cleanupCallbacks w.
Proof.
  intros Hquiet.
  assert (Hq : forall v, snd (until_throw (device_calls v)) = false).
  { intros v; now rewrite until_throw_silent. }
  destruct (disconnect_until w) as [_ H1]; specialize (H1 (Hq w)).
  set (w1 := chain ThenClose
               (mark_closed Output (mark_closed Input (emits (device_calls w) w)))) in *.
  destruct (disconnect_until w1) as [_ H2]; specialize (H2 (Hq w1)).
  assert (Ht : transport_calls w1 = transport_calls w).
  { unfold w1; rewrite chain_close_transport; unfold transport_calls, mark_closed; simpl.
    destruct (inputAudioContext w); simpl; now destruct (outputAudioContext w). }
  assert (He : forall v, effects (chain ThenClose
                 (mark_closed Output (mark_closed Input (emits (device_calls v) v))))
               = effects v ++ device_calls v ++ transport_calls v).
  { intros v; rewrite chain_close_effects.
    unfold transport_calls, mark_closed; simpl.
    destruct (inputAudioContext v); simpl; destruct (outputAudioContext v); simpl;
      now rewrite <- app_assoc. }
  eexists; eexists; split; [exact H1|]; split; [exact H2|].
  split; [apply He|]; split.
  - rewrite He, Ht; unfold w1; now rewrite device_calls_after.
  - unfold w1, chain, mark_closed; simpl.
    destruct (inputAudioContext w); simpl; destruct (outputAudioContext w); simpl;
      destruct (sessionPromise w) as [[rs|[s|]|]|]; simpl; auto;
      destruct (has_close s); simpl; auto.
Qed.

(** C8, as the code has it.  Cleanup runs only inside [disconnect]: the
    Transport's close and error callbacks release nothing.  [disconnect]
    stops the tracks, disconnects the capture nodes and closes the two
    contexts in that order, up to the first of these calls that throws;
    only when none throws does it go on to ask the Transport to close,
    and only that last request is guarded. *)
Theorem disconnect_stops_at_the_first_throw (w : World) :
  let made := fst (until_throw (device_calls w)) in
  let threw := snd (until_throw (device_calls w)) in
  effects (world_of (disconnect w))
  = effects w ++ made ++ (if threw then [] else transport_calls w)
  /\ (threw = false -> made = device_calls w /\ exists w1, disconnect w = Returned w1)
  /\ (threw = true -> exists w1, disconnect w = Thrown "host" w1)
  /\ List.filter is_release (effects (onclose w)) = List.filter is_release (effects w)
  /\ List.filter is_release (effects (onerror w)) = List.filter is_release (effects w).
Proof.
  intros made threw; destruct (disconnect_until w) as [Hthrown Hquiet].
  fold threw in Hthrown, Hquiet; fold made in Hthrown.
  split; [|split; [|split; [|split]]].
  - destruct threw eqn:E.
    + destruct (Hthrown eq_refl) as (w' & -> & He); simpl.
      now rewrite He, app_nil_r.
    + rewrite (Hquiet eq_refl); simpl; rewrite chain_close_effects.
      unfold made; rewrite (until_throw_quiet _ E).
      unfold transport_calls, mark_closed; simpl.
      destruct (inputAudioContext w); simpl; destruct (outputAudioContext w); simpl;
        now rewrite <- app_assoc.
  - intros E; split; [apply until_throw_quiet; exact E|].
    eexists; exact (Hquiet E).
  - intros E; destruct (Hthrown E) as (w' & Hw' & _); eauto.
  - unfold onclose; simpl; rewrite !filter_app; simpl; now rewrite !app_nil_r.
  - unfold onerror; simpl; rewrite !filter_app; simpl; now rewrite !app_nil_r.
Qed.

(** ** What each event can do *)

Lemma adds_refl (p : Effect -> bool) (w : World) : adds p w w.
Proof. exists []; now rewrite app_nil_r. Qed.

Lemma adds_trans (p : Effect -> bool) (a b c : World) :
  adds p a b -> adds p b c -> adds p a c.
Proof.
  intros (n1 & H1 & F1) (n2 & H2 & F2); exists (n1 ++ n2); split.
  - now rewrite H2, H1, app_assoc.
  - now rewrite forallb_app, F1, F2.
Qed.

Lemma adds_emit (p : Effect -> bool) (e : Effect) (w v : World) :
  p e = true -> adds p w v -> adds p w (emit e v).
Proof.
  intros He (n & H & F); exists (n ++ [e]); split.
  - simpl; now rewrite H, app_assoc.
  - rewrite forallb_app, F; simpl; now rewrite He.
Qed.

Lemma adds_same (p : Effect -> bool) (w v v' : World) :
  effects v' = effects v -> adds p w v -> adds p w v'.
Proof. intros E (n & H & F); exists n; now rewrite E. Qed.

Lemma adds_interruption (p : Effect -> bool) (flag : bool) (w v : World) :
  (forall s, p (SourceStop s) = true) ->
  adds p w v -> adds p w (handle_interruption flag v).
Proof.
  intros Hp (n & H & F); destruct flag; [|now exists n].
  rewrite handle_interruption_true.
  exists (n ++ map SourceStop (sources v)); split.
  - simpl; now rewrite H, app_assoc.
  - rewrite forallb_app, F; simpl.
    apply forallb_forall; intros e He; apply in_map_iff in He.
    destruct He as (x & <- & _); apply Hp.
Qed.

Lemma quietly_refl (p : Effect -> bool) (w : World) : quietly p w w.
Proof. split; [apply adds_refl | auto]. Qed.

Lemma quietly_trans (p : Effect -> bool) (a b c : World) :
  quietly p a b -> quietly p b c -> quietly p a c.
Proof.
  intros (A & A1 & A2 & A3 & A4) (B & B1 & B2 & B3 & B4).
  split; [eapply adds_trans; eassumption|].
  repeat split; congruence.
Qed.

Lemma quietly_emit (p : Effect -> bool) (e : Effect) (w v : World) :
  p e = true -> quietly p w v -> quietly p w (emit e v).
Proof.
  intros He (A & A1 & A2 & A3 & A4); split; [now apply adds_emit|].
  repeat split; assumption.
Qed.

(** A change of fields the playback scheduler does not own. *)
Lemma quietly_same (p : Effect -> bool) (w v v' : World) :
  effects v' = effects v ->
  nextStartTime v' = nextStartTime v ->
  sources v' = sources v ->
  awaiting v' = awaiting v ->
  allocated v' = allocated v ->
  quietly p w v -> quietly p w v'.
Proof.
  intros E1 E2 E3 E4 E5 (A & A1 & A2 & A3 & A4).
  split; [eapply adds_same; eassumption|].
  repeat split; congruence.
Qed.

Lemma quietly_react
  (p : Effect -> bool) (session : option LiveSession) (r : Reaction) (w v : World) :
  (forall s, forallb p (reaction_calls s r) = true) ->
  quietly p w v -> quietly p w (react session r v).
Proof.
  intros Hp H; destruct session as [s|]; [|now destruct r].
  specialize (Hp s); destruct r; simpl in *.
  - destruct (has_sendRealtimeInput s); [|assumption].
    simpl in Hp; apply andb_prop in Hp; now apply quietly_emit.
  - destruct (has_close s); [|assumption].
    simpl in Hp; apply andb_prop in Hp; now apply quietly_emit.
Qed.

Lemma quietly_reactions
  (p : Effect -> bool) (session : option LiveSession) (rs : list Reaction) :
  (forall m, p (SendRealtimeInput m) = true) ->
  p SessionClose = true ->
  forall w v, quietly p w v ->
  quietly p w (fold_left (fun acc r => react session r acc) rs v).
Proof.
  intros Hs Hc; induction rs as [|r rs IH]; intros w v H; simpl; [assumption|].
  apply IH, quietly_react; [|assumption].
  intros s; destruct r; simpl.
  - destruct (has_sendRealtimeInput s); simpl; now rewrite ?Hs.
  - destruct (has_close s); simpl; now rewrite ?Hc.
Qed.

Lemma quietly_chain (p : Effect -> bool) (r : Reaction) (w v : World) :
  (forall s, forallb p (reaction_calls s r) = true) ->
  quietly p w v -> quietly p w (chain r v).
Proof.
  intros Hp H; unfold chain.
  destruct (sessionPromise v) as [[rs|session|]|]; try assumption.
  now apply quietly_react.
Qed.

Lemma quietly_call_each (p : Effect -> bool) (es : list Effect) :
  forallb p es = true ->
  forall w v, quietly p w v -> quietly p w (world_of (call_each es v)).
Proof.
  induction es as [|e es IH]; simpl; intros Hp w v H; [assumption|].
  apply andb_prop in Hp; destruct Hp as [He Hes].
  unfold call; destruct (throws e); simpl.
  - now apply quietly_emit.
  - apply IH; [assumption | now apply quietly_emit].
Qed.

Lemma quietly_bind
  (p : Effect -> bool) (w : World) (c : Completion) (f : World -> Completion) :
  quietly p w (world_of c) ->
  (forall v, quietly p w v -> quietly p w (world_of (f v))) ->
  quietly p w (world_of (c >>= f)).
Proof. destruct c; simpl; auto. Qed.

Lemma quietly_close_context (p : Effect -> bool) (which : Which) (w v : World) :
  (forall st, p (ContextClose which st) = true) ->
  quietly p w v -> quietly p w (world_of (close_context which v)).
Proof.
  intros Hp H; unfold close_context.
  destruct which.
  - destruct (inputAudioContext v); [|assumption].
    unfold call; destruct (throws _); simpl.
    + now apply quietly_emit.
    + eapply quietly_same; [| | | | |apply quietly_emit; [apply Hp | exact H]];
        reflexivity.
  - destruct (outputAudioContext v); [|assumption].
    unfold call; destruct (throws _); simpl.
    + now apply quietly_emit.
    + eapply quietly_same; [| | | | |apply quietly_emit; [apply Hp | exact H]];
        reflexivity.
Qed.

Lemma quietly_disconnect (w : World) :
  quietly (emitted_by Disconnect) w (world_of (disconnect w)).
Proof.
  unfold disconnect; repeat apply quietly_bind.
  - unfold stop_tracks; destruct (stream w); [|apply quietly_refl].
    apply quietly_call_each; [|apply quietly_refl].
    apply forallb_forall; intros e He; apply in_map_iff in He.
    now destruct He as (x & <- & _).
  - intros v Hv; unfold run_cleanupCallbacks.
    apply quietly_call_each; [|exact Hv].
    apply forallb_forall; intros e He; apply in_map_iff in He.
    now destruct He as (x & <- & _).
  - intros v Hv; now apply quietly_close_context.
  - intros v Hv; now apply quietly_close_context.
  - intros v Hv; simpl; apply quietly_chain; [|exact Hv].
    intros s; simpl; now destruct (has_close s).
Qed.

Lemma quietly_connect (host : Host) (i : option string) (w : World) :
  quietly (emitted_by (Connect host i)) w (world_of (connect host i w)).
Proof.
  assert (Done : forall v new,
             effects v = effects w ++ new ->
             forallb (emitted_by (Connect host i)) new = true ->
             nextStartTime v = nextStartTime w -> sources v = sources w ->
             awaiting v = awaiting w -> allocated v = allocated w ->
             quietly (emitted_by (Connect host i)) w v).
  { intros v new E F; split; [now exists new | auto]. }
  unfold connect, setup_audio_contexts, audio_init_failed.
  destruct (newInputContext host) as [ic|];
    [|simpl; apply quietly_emit; [reflexivity | apply quietly_refl]].
  destruct (newOutputContext host) as [oc|];
    [|simpl; eapply Done; simpl; reflexivity].
  destruct (state ic), (resumeInput host), (state oc), (resumeOutput host),
    (getUserMedia host); simpl;
    first [ apply (Done _ []); simpl; [now rewrite app_nil_r|reflexivity..]
          | eapply Done; simpl; [rewrite <- ?app_assoc; reflexivity|reflexivity..] ].
Qed.

Lemma quiet_step (w : World) (ev : Event) :
  is_quiet ev = true -> quietly (emitted_by ev) w (step w ev).
Proof.
  destruct ev; try discriminate; intros _; simpl.
  - unfold onopen, startAudioStreaming; simpl.
    destruct (inputAudioContext w), (stream w), (sessionPromise w), graph_ok;
      repeat first
        [ apply quietly_emit; [reflexivity|]
        | eapply quietly_same;
          [reflexivity|reflexivity|reflexivity|reflexivity|reflexivity|] ];
      apply quietly_refl.
  - unfold onerror; repeat (apply quietly_emit; [reflexivity|]); apply quietly_refl.
  - unfold onclose; repeat (apply quietly_emit; [reflexivity|]); apply quietly_refl.
  - unfold onaudioprocess; apply quietly_chain; [|apply quietly_refl].
    intros s; simpl; now destruct (has_sendRealtimeInput s).
  - unfold fulfil; destruct (sessionPromise w) as [[rs|s0|]|];
      try apply quietly_refl.
    apply quietly_reactions; try reflexivity.
    eapply quietly_same; [| | | | |apply quietly_refl]; reflexivity.
  - unfold reject; destruct (sessionPromise w) as [[rs|s0|]|];
      try apply quietly_refl.
    eapply quietly_same; [| | | | |apply quietly_refl]; reflexivity.
  - apply quietly_connect.
  - apply quietly_disconnect.
Qed.

Lemma adds_weaken (p q : Effect -> bool) (w v : World) :
  (forall e, p e = true -> q e = true) -> adds p w v -> adds q w v.
Proof.
  intros Hpq (n & H & F); exists n; split; [assumption|].
  apply forallb_forall; intros e He.
  apply Hpq; now apply (proj1 (forallb_forall p n) F).
Qed.

Lemma adds_filter (p q : Effect -> bool) (w v : World) :
  (forall e, p e = true -> q e = false) ->
  adds p w v ->
  List.filter q (effects v) = List.filter q (effects w).
Proof.
  intros Hpq (n & H & F); rewrite H, filter_app.
  assert (E : List.filter q n = []).
  { clear H; induction n as [|e n IH]; simpl in *; [reflexivity|].
    apply andb_prop in F; destruct F as [He Hn].
    now rewrite (Hpq e He), IH. }
  now rewrite E, app_nil_r.
Qed.

Lemma adds_play (p : Effect -> bool) (b : AudioBuffer) (w v : World) :
  (forall id g t, p (SourceStart id b g t) = true) ->
  adds p w v -> adds p w (play b v).
Proof.
  intros Hp H; unfold play.
  eapply adds_same; [|apply adds_emit; [apply Hp | exact H]]; reflexivity.
Qed.

Lemma adds_handle_begin (now : Q) (m : LiveServerMessage) (w : World) :
  adds in_begin w (handle_begin now m w).
Proof.
  unfold handle_begin.
  destruct (outputAudioContext w); [|apply adds_refl].
  destruct (base64Audio m).
  - destruct (decode s);
      [eapply adds_same; [|apply adds_refl]; reflexivity|].
    apply adds_interruption; [reflexivity|].
    apply adds_emit; [reflexivity|].
    eapply adds_same; [|apply adds_refl]; reflexivity.
  - apply adds_interruption; [reflexivity | apply adds_refl].
Qed.

Lemma adds_settle (i : nat) (w : World) : adds in_handler w (settle i w).
Proof.
  unfold settle; destruct (nth_error (awaiting w) i) as [k|]; [|apply adds_refl].
  unfold handle_resume; apply adds_interruption; [reflexivity|].
  destruct (awaited k).
  - apply adds_play; [reflexivity|].
    eapply adds_same; [|apply adds_refl]; reflexivity.
  - apply adds_emit; [reflexivity|].
    eapply adds_same; [|apply adds_refl]; reflexivity.
Qed.

(** Every call an event makes is one of its kind's. *)
Lemma step_adds (w : World) (ev : Event) : adds (emitted_by ev) w (step w ev).
Proof.
  destruct (is_quiet ev) eqn:Q; [now apply quiet_step|].
  destruct ev; try discriminate; simpl.
  - unfold onmessage; apply adds_emit; [reflexivity|].
    eapply adds_weaken; [|apply adds_handle_begin].
    now intros [].
  - eapply adds_weaken; [|apply adds_settle]; now intros [].
  - eapply adds_same; [|apply adds_refl]; reflexivity.
Qed.

Lemma run_cons (ev : Event) (evs : list Event) (w : World) :
  run (ev :: evs) w = run evs (step w ev).
Proof. reflexivity. Qed.

Lemma on_message_count_step (w : World) (ev : Event) :
  count_effects is_on_message (step w ev)
  = (count_effects is_on_message w + if is_message_event ev then 1 else 0)%nat.
Proof.
  unfold count_effects.
  destruct (is_message_event ev) eqn:M.
  - destruct ev; try discriminate; simpl.
    rewrite filter_app, length_app; simpl; f_equal.
    rewrite (adds_filter in_begin is_on_message w (handle_begin now m w));
      [reflexivity | now intros [] | apply adds_handle_begin].
  - rewrite (adds_filter (emitted_by ev) is_on_message w (step w ev));
      [lia | | apply step_adds].
    destruct ev; try discriminate; now intros [].
Qed.

(** ** Invariants of the playback scheduler *)

Lemma choose_playback {B} (f : Effect -> option B) (l : list Effect) :
  (forall e, is_playback e = false -> f e = None) ->
  choose f (List.filter is_playback l) = choose f l.
Proof.
  intros Hf; induction l as [|e l IH]; simpl; [reflexivity|].
  destruct (is_playback e) eqn:E; simpl; [now rewrite IH|].
  now rewrite (Hf e E), IH.
Qed.

Lemma choose_interruption {B} (f : Effect -> option B) (flag : bool) (w : World) :
  (forall s, f (SourceStop s) = None) ->
  choose f (effects (handle_interruption flag w)) = choose f (effects w).
Proof.
  intros Hf; destruct flag; [|reflexivity].
  rewrite handle_interruption_true; simpl; rewrite choose_app.
  assert (E : forall l, choose f (map SourceStop l) = []).
  { induction l; simpl; [reflexivity | now rewrite Hf]. }
  now rewrite E, app_nil_r.
Qed.

Lemma quiet_untouched (w : World) (ev : Event) :
  is_quiet ev = true -> playback_untouched w (step w ev).
Proof.
  intros Q; destruct (quiet_step w ev Q) as (A & H1 & H2 & H3 & H4).
  repeat split; try assumption.
  apply (adds_filter (emitted_by ev)); [|exact A].
  destruct ev; try discriminate; now intros [].
Qed.

Lemma untouched_choose {B} (f : Effect -> option B) (w w' : World) :
  (forall e, is_playback e = false -> f e = None) ->
  playback_untouched w w' ->
  choose f (effects w') = choose f (effects w).
Proof.
  intros Hf (_ & _ & _ & _ & E).
  now rewrite <- (choose_playback f (effects w')), E, choose_playback.
Qed.

Lemma untouched_tidy (w w' : World) :
  playback_untouched w w' -> tidy w -> tidy w'.
Proof.
  intros U (T1 & T2 & T3 & T4 & T5).
  assert (Ei : started_ids w' = started_ids w)
    by (apply untouched_choose; [now intros [] | exact U]).
  assert (Et : start_times w' = start_times w)
    by (apply untouched_choose; [now intros [] | exact U]).
  destruct U as (U1 & U2 & _ & U4 & _).
  unfold tidy; now rewrite Ei, Et, U1, U2, U4.
Qed.

Lemma tidy_emit (e : Effect) (w : World) :
  is_playback e = false -> tidy w -> tidy (emit e w).
Proof.
  intros He; apply untouched_tidy; repeat split.
  simpl; rewrite filter_app; simpl; now rewrite He, app_nil_r.
Qed.

Lemma tidy_raise (now : Q) (w : World) :
  tidy w -> tidy (set_nextStartTime (Qmax (nextStartTime w) now) w).
Proof.
  intros (T1 & T2 & T3 & T4 & T5); repeat split; try assumption; simpl.
  eapply Qle_trans; [exact T4 | apply Q.le_max_l].
Qed.

Lemma tidy_interruption (flag : bool) (w : World) :
  tidy w -> tidy (handle_interruption flag w).
Proof.
  intros (T1 & T2 & T3 & T4 & T5).
  assert (Ei : started_ids (handle_interruption flag w) = started_ids w)
    by (apply choose_interruption; reflexivity).
  assert (Et : start_times (handle_interruption flag w) = start_times w)
    by (apply choose_interruption; reflexivity).
  destruct flag; [|repeat split; assumption].
  unfold tidy; rewrite Ei, Et, handle_interruption_true; simpl.
  repeat split; try assumption; [constructor | constructor | apply Qle_refl].
Qed.

Lemma tidy_play (b : AudioBuffer) (w : World) :
  tidy w -> tidy (play b w).
Proof.
  intros (T1 & T2 & T3 & T4 & T5); unfold tidy, started_ids, start_times, play; simpl.
  rewrite !choose_app; simpl.
  fold (started_ids w); fold (start_times w).
  repeat split.
  - change (0%nat :: seq 1 (allocated w)) with (seq 0 (S (allocated w))).
    now rewrite T1, seq_S.
  - apply NoDup_app; [assumption | repeat constructor; intros [] |].
    intros x Hx [<-|[]].
    apply (proj1 (Forall_forall _ _) T3) in Hx; lia.
  - apply Forall_app; split.
    + eapply Forall_impl; [|exact T3]; simpl; intros; lia.
    + repeat constructor.
  - apply added_nonneg; [exact T4 | apply seconds_nonneg].
  - apply Forall_app; split; [assumption | repeat constructor; assumption].
Qed.

Lemma tidy_ended (s : nat) (w : World) : tidy w -> tidy (on_ended s w).
Proof.
  intros (T1 & T2 & T3 & T4 & T5); repeat split; try assumption; simpl.
  - now apply NoDup_filter.
  - apply Forall_forall; intros x Hx; apply filter_In in Hx.
    apply (proj1 (Forall_forall _ _) T3); tauto.
Qed.

Lemma tidy_step (w : World) (ev : Event) : tidy w -> tidy (step w ev).
Proof.
  intros T; destruct (is_quiet ev) eqn:Q.
  { eapply untouched_tidy; [now apply quiet_untouched | exact T]. }
  destruct ev; try discriminate; simpl.
  - unfold onmessage, handle_begin; apply tidy_emit; [reflexivity|].
    destruct (outputAudioContext w); [|exact T].
    destruct (base64Audio m).
    + destruct (decode s).
      * apply (tidy_raise now w T).
      * apply tidy_interruption, tidy_emit; [reflexivity|].
        now apply tidy_raise.
    + now apply tidy_interruption.
  - unfold settle; destruct (nth_error (awaiting w) i) as [k|]; [|exact T].
    unfold handle_resume; apply tidy_interruption.
    destruct (awaited k).
    + apply tidy_play; exact T.
    + apply tidy_emit; [reflexivity | exact T].
  - now apply tidy_ended.
Qed.

Lemma tidy_run (evs : list Event) : forall w, tidy w -> tidy (run evs w).
Proof.
  induction evs as [|ev evs IH]; intros w T; [exact T|].
  rewrite run_cons; apply IH; now apply tidy_step.
Qed.

Lemma tidy_new_session : tidy new_session.
Proof. repeat split; try constructor; simpl; lra. Qed.

Lemma spaced_snoc (l : list (Q * Q)) (t d : Q) :
  forall low,
  spaced low l -> last_end low l <= t -> spaced low (l ++ [(t, d)]).
Proof.
  induction l as [|[t0 d0] l IH]; intros low Hs Hl; simpl in *.
  - split; [exact Hl | exact I].
  - destruct Hs as [H0 Hs]; split; [exact H0|].
    apply IH; [exact Hs|].
    unfold last_end in *; simpl in Hl; exact Hl.
Qed.

Lemma last_end_snoc (l : list (Q * Q)) (t d low : Q) :
  last_end low (l ++ [(t, d)]) = added t d.
Proof. unfold last_end; now rewrite fold_left_app. Qed.

Lemma untouched_in_sequence (w w' : World) :
  playback_untouched w w' -> in_sequence w -> in_sequence w'.
Proof.
  intros U (S1 & S2 & S3).
  assert (Es : spans w' = spans w)
    by (apply untouched_choose; [now intros [] | exact U]).
  destruct U as (U1 & _ & U3 & _).
  unfold in_sequence; now rewrite Es, U1, U3.
Qed.

Lemma in_sequence_emit (e : Effect) (w : World) :
  is_playback e = false -> in_sequence w -> in_sequence (emit e w).
Proof.
  intros He; apply untouched_in_sequence; repeat split.
  simpl; rewrite filter_app; simpl; now rewrite He, app_nil_r.
Qed.

Lemma in_sequence_raise (now : Q) (w : World) :
  in_sequence w -> in_sequence (set_nextStartTime (Qmax (nextStartTime w) now) w).
Proof.
  intros (S1 & S2 & S3); repeat split; try assumption; simpl.
  eapply Qle_trans; [exact S2 | apply Q.le_max_l].
Qed.

Lemma in_sequence_play (b : AudioBuffer) (w : World) :
  in_sequence w -> in_sequence (play b w).
Proof.
  intros (S1 & S2 & S3); unfold in_sequence, spans, play; simpl.
  rewrite choose_app; simpl; fold (spans w).
  repeat split; [|rewrite last_end_snoc; apply Qle_refl | exact S3].
  now apply spaced_snoc.
Qed.

Lemma remove_nth_Forall {A} (P : A -> Prop) (l : list A) :
  forall i, Forall P l -> Forall P (remove_nth i l).
Proof.
  induction l as [|a l IH]; intros i H; destruct i; simpl; try constructor;
    inversion H; subst; auto.
Qed.

Lemma in_sequence_step (w : World) (ev : Event) :
  calm ev = true -> in_sequence w -> in_sequence (step w ev).
Proof.
  intros C S0; destruct (is_quiet ev) eqn:Q.
  { eapply untouched_in_sequence; [now apply quiet_untouched | exact S0]. }
  destruct ev; try discriminate; simpl in *.
  - apply negb_true_iff in C.
    unfold onmessage, handle_begin; rewrite C; simpl.
    apply in_sequence_emit; [reflexivity|].
    destruct (outputAudioContext w); [|exact S0].
    destruct (base64Audio m); [|exact S0].
    destruct (decode s).
    + destruct (in_sequence_raise now w S0) as (S1 & S2 & S3).
      repeat split; try assumption; simpl.
      apply Forall_app; split; [exact S3 | repeat constructor].
    + apply in_sequence_emit; [reflexivity | now apply in_sequence_raise].
  - unfold settle; destruct (nth_error (awaiting w) i) as [k|] eqn:E; [|exact S0].
    assert (Hk : then_interrupted k = false).
    { destruct S0 as (_ & _ & S3).
      apply (proj1 (Forall_forall _ _) S3), (nth_error_In _ _ E). }
    unfold handle_resume; rewrite Hk; simpl.
    assert (S' : in_sequence (set_awaiting (remove_nth i (awaiting w)) w)).
    { destruct S0 as (S1 & S2 & S3); repeat split; try assumption; simpl.
      now apply remove_nth_Forall. }
    destruct (awaited k);
      [now apply in_sequence_play | now apply in_sequence_emit].
  - destruct S0 as (S1 & S2 & S3); repeat split; assumption.
Qed.

(** ** What each reaction run at fulfilment calls *)

Lemma reactions_effects (s : LiveSession) (rs : list Reaction) :
  forall w,
  fold_left (fun acc r => react (Some s) r acc) rs w
  = emits (flat_map (reaction_calls s) rs) w.
Proof.
  induction rs as [|r rs IH]; intros w; simpl; [now rewrite emits_nil|].
  rewrite IH; destruct r; simpl.
  - destruct (has_sendRealtimeInput s); simpl; [|reflexivity].
    change (emit (SendRealtimeInput media) w) with (emits [SendRealtimeInput media] w).
    now rewrite emits_emits.
  - destruct (has_close s); simpl; [|reflexivity].
    change (emit SessionClose w) with (emits [SessionClose] w).
    now rewrite emits_emits.
Qed.

Lemma sends_release_nothing (s : LiveSession) (rs : list Reaction) :
  forallb is_then_send rs = true ->
  List.filter is_release (flat_map (reaction_calls s) rs) = [].
Proof.
  induction rs as [|r rs IH]; simpl; [reflexivity|].
  intros H; apply andb_prop in H; destruct H as [Hr Hrs].
  rewrite filter_app, (IH Hrs), app_nil_r.
  destruct r; [|discriminate]; simpl.
  now destruct (has_sendRealtimeInput s).
Qed.

Lemma promise_of_message_steps (w : World) (ev : Event) :
  is_quiet ev = false -> sessionPromise (step w ev) = sessionPromise w.
Proof.
  destruct ev; try discriminate; intros _; simpl.
  - unfold onmessage, handle_begin; simpl.
    destruct (outputAudioContext w); [|reflexivity].
    destruct (base64Audio m).
    + destruct (decode s); [reflexivity|].
      now destruct (handle_interruption_keeps (is_interrupted m)
                      (decode_failed (set_nextStartTime (Qmax (nextStartTime w) now) w)))
        as (_ & _ & _ & ->).
    + now destruct (handle_interruption_keeps (is_interrupted m) w) as (_ & _ & _ & ->).
  - unfold settle; destruct (nth_error (awaiting w) i) as [k|]; [|reflexivity].
    unfold handle_resume.
    match goal with |- sessionPromise (handle_interruption ?f ?v) = _ =>
      destruct (handle_interruption_keeps f v) as (_ & _ & _ & ->) end.
    now destruct (awaited k).
  - reflexivity.
Qed.

Lemma no_release_step (w : World) (ev : Event) :
  is_disconnect ev = false ->
  no_close_waiting w ->
  no_close_waiting (step w ev)
  /\ List.filter is_release (effects (step w ev)) = List.filter is_release (effects w).
Proof.
  intros D N; destruct (is_quiet ev) eqn:Q.
  2:{ split.
      - unfold no_close_waiting; now rewrite promise_of_message_steps.
      - apply (adds_filter (emitted_by ev)); [|apply step_adds].
        destruct ev; try discriminate; now intros []. }
  destruct ev; try discriminate; simpl.
  - split.
    + assert (E : sessionPromise (onopen graph_ok w) = sessionPromise w).
      { unfold onopen, startAudioStreaming; simpl.
        destruct (inputAudioContext w), (stream w), (sessionPromise w) eqn:E,
          graph_ok; simpl; now rewrite ?E. }
      unfold no_close_waiting; now rewrite E.
    + apply (adds_filter (emitted_by (OnOpen graph_ok))); [now intros []|].
      apply (step_adds w (OnOpen graph_ok)).
  - split; [exact N|].
    unfold onerror; simpl; rewrite !filter_app; simpl; now rewrite !app_nil_r.
  - split; [exact N|].
    unfold onclose; simpl; rewrite !filter_app; simpl; now rewrite !app_nil_r.
  - split.
    + unfold no_close_waiting, onaudioprocess, chain in *.
      destruct (sessionPromise w) as [[rs|[s|]|]|] eqn:E; simpl; rewrite ?E; auto.
      * rewrite forallb_app, N; reflexivity.
      * destruct (has_sendRealtimeInput s); simpl; now rewrite E.
    + apply (adds_filter (emitted_by (AudioProcess inputData))); [now intros []|].
      apply (step_adds w (AudioProcess inputData)).
  - unfold no_close_waiting, fulfil in *.
    destruct (sessionPromise w) as [[rs|s0|]|] eqn:E; rewrite ?E; auto.
    destruct session as [s|].
    + rewrite reactions_effects; simpl; split; [reflexivity|].
      now rewrite filter_app, sends_release_nothing, app_nil_r.
    + assert (H : forall l v, fold_left (fun acc r => react None r acc) l v = v).
      { induction l as [|r l IHl]; simpl; intros; [reflexivity|].
        rewrite IHl; now destruct r. }
      rewrite H; simpl; auto.
  - split.
    + unfold no_close_waiting, reject in *.
      destruct (sessionPromise w) as [[rs|s0|]|] eqn:E; simpl; rewrite ?E; auto.
    + apply (adds_filter (emitted_by Reject)); [now intros []|].
      apply (step_adds w Reject).
  - split.
    + unfold no_close_waiting, connect, setup_audio_contexts, audio_init_failed in *.
      destruct (newInputContext host) as [ic|]; [|exact N].
      destruct (newOutputContext host) as [oc|]; [|exact N].
      destruct (state ic), (resumeInput host), (state oc), (resumeOutput host),
        (getUserMedia host); simpl; auto.
    + apply (adds_filter (emitted_by (Connect host systemInstruction)));
        [now intros []|].
      apply (step_adds w (Connect host systemInstruction)).
Qed.

(** ** Further properties of the session *)

(** X1. Whatever has happened to a session, the ids of the sources it
    started are 0, 1, 2, ... in start order, the set of scheduled sources
    holds no source twice, and every member of the set is a source that
    was started. *)
Theorem live_sources_are_started_sources (evs : list Event) :
  let w := run evs new_session in
  started_ids w = seq 0 (allocated w)
  /\ NoDup (sources w)
  /\ Forall (fun s => In s (started_ids w)) (sources w).
Proof.
  intros w; destruct (tidy_run evs new_session tidy_new_session)
    as (T1 & T2 & T3 & _).
  fold w in T1, T2, T3; repeat split; try assumption.
  rewrite T1; eapply Forall_impl; [|exact T3]; simpl.
  intros a Ha; apply in_seq; lia.
Qed.

(** X2. The cursor is never negative and no source is ever started at
    a negative time, whatever clock readings the messages come with. *)
Theorem no_time_is_negative (evs : list Event) :
  let w := run evs new_session in
  0 <= nextStartTime w /\ Forall (fun t => 0 <= t) (start_times w).
Proof.
  intros w; destruct (tidy_run evs new_session tidy_new_session)
    as (_ & _ & _ & T4 & T5).
  now split.
Qed.

(** X3. As long as no message is flagged [interrupted], the intervals
    booked by the [start] calls never overlap, in whatever order the
    decodes complete: the [when] of each call is no earlier than the
    [when] of the call before it plus that buffer's duration, as the code
    adds them.  (Whether the sources sound one after the other is not
    said: a [when] already past at the call makes a source sound at
    once.) *)
Theorem bookings_never_overlap (evs : list Event) :
  forallb calm evs = true ->
  spaced 0 (spans (run evs new_session)).
Proof.
  intros C.
  assert (H : forall l w, forallb calm l = true -> in_sequence w -> in_sequence (run l w)).
  { induction l as [|ev l IH]; intros w Hl Hw; [exact Hw|].
    simpl in Hl; apply andb_prop in Hl; destruct Hl as [H1 H2].
    rewrite run_cons; apply IH; [exact H2 | now apply in_sequence_step]. }
  apply (H evs new_session C).
  repeat split; simpl; [apply Qle_refl | constructor].
Qed.

(** X4. The caller's [onMessage] observer is called once for every
    message the Transport delivers, and by nothing else: whether the
    message carries audio, whether it decodes, whether the session has an
    output context. *)
Theorem every_message_reaches_the_observer (evs : list Event) (w : World) :
  count_effects is_on_message (run evs w)
  = (count_effects is_on_message w
     + List.length (List.filter is_message_event evs))%nat.
Proof.
  revert w; induction evs as [|ev evs IH]; intros w; [simpl; lia|].
  rewrite run_cons, IH, on_message_count_step; simpl.
  destruct (is_message_event ev); simpl; lia.
Qed.

(** X5. [disconnect] does nothing to playback, whichever of its host
    calls throw: it stops no source, starts none, and leaves the set of
    scheduled sources, the cursor and the handlers parked on a decode as
    they were. *)
Theorem disconnect_leaves_playback_alone (w : World) :
  playback_untouched w (world_of (disconnect w)).
Proof. exact (quiet_untouched w Disconnect eq_refl). Qed.

(** X6. Without a call to [disconnect] nothing is ever released: no
    track stopped, no node disconnected, no context closed, no Transport
    closed, whatever the Transport reports and whatever arrives. *)
Theorem nothing_is_released_without_disconnect (evs : list Event) :
  forallb (fun ev => negb (is_disconnect ev)) evs = true ->
  List.filter is_release (effects (run evs new_session)) = [].
Proof.
  intros D.
  assert (H : forall l w,
             forallb (fun ev => negb (is_disconnect ev)) l = true ->
             no_close_waiting w ->
             List.filter is_release (effects (run l w))
             = List.filter is_release (effects w)).
  { induction l as [|ev l IH]; intros w Hl Hw; [reflexivity|].
    simpl in Hl; apply andb_prop in Hl; destruct Hl as [H1 H2].
    apply negb_true_iff in H1.
    destruct (no_release_step w ev H1 Hw) as [N E].
    now rewrite run_cons, (IH _ H2 N). }
  now rewrite (H evs new_session D I).
Qed.

Lemma count_source_stops (s : nat) (l : list nat) :
  List.length (List.filter (is_source_stop s) (map SourceStop l))
  = count_occ Nat.eq_dec l s.
Proof.
  induction l as [|x l IH]; simpl; [reflexivity|].
  destruct (Nat.eq_dec x s) as [->|Hx].
  - rewrite Nat.eqb_refl; simpl; now rewrite IH.
  - apply Nat.eqb_neq in Hx; now rewrite Hx.
Qed.

(** X7. A source whose ['ended'] event has fired is not stopped by a
    later interruption, while a source still in the set is stopped by it
    exactly once. *)
Theorem ended_source_is_not_stopped_again
  (w : World) (ctx : AudioContext) (s : nat) (now : Q) (m : LiveServerMessage) :
  outputAudioContext w = Some ctx ->
  base64Audio m = None ->
  is_interrupted m = true ->
  NoDup (sources w) ->
  count_effects (is_source_stop s) (run [Ended s; OnMessage now m] w)
  = count_effects (is_source_stop s) w
  /\ (In s (sources w) ->
      count_effects (is_source_stop s) (run [OnMessage now m] w)
      = S (count_effects (is_source_stop s) w)).
Proof.
  intros Hctx Hb Hi Hnd; unfold run, count_effects; simpl.
  unfold onmessage, handle_begin; simpl; rewrite Hctx, Hb, Hi.
  rewrite !handle_interruption_true; simpl.
  rewrite !filter_app, !length_app, !count_source_stops; simpl.
  split.
  - assert (E : count_occ Nat.eq_dec
                  (List.filter (fun x => negb (Nat.eqb x s)) (sources w)) s = 0%nat).
    { apply count_occ_not_In; intros Hin; apply filter_In in Hin.
      destruct Hin as [_ Hin]; now rewrite Nat.eqb_refl in Hin. }
    rewrite E; lia.
  - intros Hin.
    pose proof (proj1 (NoDup_count_occ' Nat.eq_dec (sources w)) Hnd s Hin) as E.
    rewrite E; lia.
Qed.

(** X8. When every device is acquired, [connect] returns normally,
    having called [ai.live.connect] exactly once, with the caller's
    instruction or, when that is absent or empty, the built-in one, so
    never with an empty instruction.  The session then holds the pending
    promise, the microphone stream and two contexts that are not
    suspended, and the caller has been told of no error. *)
Theorem successful_connect_opens_the_transport
  (host : Host) (systemInstruction : option string) (w : World) :
  acquires host = true ->
  exists w',
    connect host systemInstruction w = Returned w'
    /\ effects w' = effects w ++ [LiveConnect (instruction_or_default systemInstruction)]
    /\ instruction_or_default systemInstruction <> ""
    /\ sessionPromise w' = Some (Pending [])
    /\ stream w' = getUserMedia host
    /\ stream w' <> None
    /\ (exists ic oc,
          inputAudioContext w' = Some ic /\ outputAudioContext w' = Some oc
          /\ state ic <> suspended /\ state oc <> suspended)
    /\ error_notifications w (connect host systemInstruction w) = 0%nat.
Proof.
  intros Hok.
  assert (Hi : instruction_or_default systemInstruction <> "").
  { unfold instruction_or_default; destruct systemInstruction as [i|]; [|discriminate].
    destruct (String.eqb i "") eqn:E; [discriminate|].
    now apply String.eqb_neq. }
  unfold acquires, resumes in Hok.
  unfold connect, setup_audio_contexts, error_notifications.
  destruct (newInputContext host) as [ic|]; [|discriminate].
  destruct (newOutputContext host) as [oc|]; [|discriminate].
  destruct (getUserMedia host) as [media|]; [|discriminate].
  destruct (state ic) eqn:Ei, (resumeInput host), (state oc) eqn:Eo, (resumeOutput host);
    try discriminate; simpl;
    (eexists; split; [reflexivity|]);
    (split; [reflexivity|]); (split; [exact Hi|]);
    (split; [reflexivity|]); (split; [reflexivity|]); (split; [discriminate|]);
    (split; [|unfold count_effects; simpl; rewrite filter_app, length_app; simpl; lia]);
    do 2 eexists; (split; [reflexivity|]); (split; [reflexivity|]);
    simpl; rewrite ?Ei, ?Eo; split; discriminate.
Qed.

(** X9. [connect] never releases anything.  In particular a context it
    has built stays in the session, unclosed, when a later step of the
    acquisition fails. *)
Theorem connect_releases_nothing
  (host : Host) (systemInstruction : option string) (w : World) :
  let w' := world_of (connect host systemInstruction w) in
  List.filter is_release (effects w') = List.filter is_release (effects w)
  /\ (newInputContext host <> None -> inputAudioContext w' <> None)
  /\ (newInputContext host <> None -> newOutputContext host <> None ->
      outputAudioContext w' <> None).
Proof.
  intros w'; split.
  - apply (adds_filter (emitted_by (Connect host systemInstruction)));
      [now intros []|].
    apply (step_adds w (Connect host systemInstruction)).
  - unfold w', connect, setup_audio_contexts, audio_init_failed.
    destruct (newInputContext host) as [ic|]; [|split; congruence].
    destruct (newOutputContext host) as [oc|];
      [|split; [intros _; discriminate | congruence]].
    destruct (state ic), (resumeInput host), (state oc), (resumeOutput host),
      (getUserMedia host); simpl; split; intros; discriminate.
Qed.

(** X10. [disconnect] on a session whose connection promise is still
    pending, with host calls that do not throw, releases the devices at
    once and leaves the request to close the Transport waiting on the
    promise: when the promise fulfils, the frames captured earlier are
    sent and then the session is closed; when it rejects, nothing more
    happens. *)
Theorem close_waits_for_the_connection
  (w : World) (rs : list Reaction) (s : LiveSession) :
  (forall e, throws e = false) ->
  sessionPromise w = Some (Pending rs) ->
  let w1 := world_of (disconnect w) in
  sessionPromise w1 = Some (Pending (rs ++ [ThenClose]))
  /\ effects w1 = effects w ++ device_calls w
  /\ effects (fulfil (Some s) w1)
     = effects w1 ++ flat_map (reaction_calls s) rs
       ++ (if has_close s then [SessionClose] else [])
  /\ effects (reject w1) = effects w1.
Proof.
  intros Hquiet Hw w1.
  assert (Hq : snd (until_throw (device_calls w)) = false)
    by now rewrite until_throw_silent.
  destruct (disconnect_until w) as [_ H]; specialize (H Hq).
  set (v := mark_closed Output (mark_closed Input (emits (device_calls w) w))) in H.
  assert (Hv : sessionPromise v = Some (Pending rs) /\ effects v = effects w ++ device_calls w).
  { unfold v, mark_closed; simpl.
    destruct (inputAudioContext w); simpl; destruct (outputAudioContext w); simpl;
      now rewrite Hw. }
  destruct Hv as [Hp He].
  assert (E1 : w1 = set_sessionPromise (Some (Pending (rs ++ [ThenClose]))) v).
  { unfold w1; rewrite H; simpl; unfold chain; now rewrite Hp. }
  rewrite E1; split; [reflexivity|]; split; [exact He|]; split; [|reflexivity].
  unfold fulfil; simpl sessionPromise; cbv iota beta.
  rewrite reactions_effects; simpl.
  rewrite flat_map_app; simpl; now rewrite app_nil_r.
Qed.

(** X11. [handleServerMessage] only asks whether the output context
    exists, not whether it is open: after a [disconnect] whose host calls
    do not throw the context is closed, and a message that decodes is
    still given a source, started and added to the set. *)
Theorem messages_after_disconnect_still_play
  (w : World) (ctx : AudioContext) (c : Chunk) :
  (forall e, throws e = false) ->
  outputAudioContext w = Some ctx ->
  clean (closed_context ctx) c ->
  let w1 := world_of (disconnect w) in
  outputAudioContext w1 = Some (closed_context ctx)
  /\ started (handleServerMessage (clock c) (message c) w1) = started w ++ [pcm c]
  /\ sources (handleServerMessage (clock c) (message c) w1)
     = sources w ++ [allocated w].
Proof.
  intros Hquiet Hctx Hc w1.
  assert (Hq : snd (until_throw (device_calls w)) = false)
    by now rewrite until_throw_silent.
  destruct (disconnect_until w) as [_ H]; specialize (H Hq).
  assert (Ho : outputAudioContext w1 = Some (closed_context ctx)).
  { unfold w1; rewrite H; simpl; unfold chain, mark_closed; simpl.
    destruct (inputAudioContext w); simpl; rewrite Hctx; simpl;
      destruct (sessionPromise w) as [[rs|[s|]|]|]; simpl; try reflexivity;
      destruct (has_close s); reflexivity. }
  pose proof (quiet_untouched w Disconnect eq_refl) as U; simpl in U; fold w1 in U.
  assert (Es : started w1 = started w)
    by (apply untouched_choose; [now intros [] | exact U]).
  destruct U as (_ & U2 & _ & U4 & _).
  split; [exact Ho|].
  rewrite (handle_clean w1 (closed_context ctx) c Ho Hc).
  unfold started, play; simpl; rewrite choose_app; simpl.
  fold (started w1); now rewrite Es, U2, U4.
Qed.

(** ** The text endpoint and its callers *)

Lemma pushed_parts {A B} (f : A -> B) (l : list A) :
  forall init, fold_left (fun acc a => acc ++ [f a]) l init = init ++ map f l.
Proof.
  induction l as [|a l IH]; intros init; simpl; [now rewrite app_nil_r|].
  now rewrite IH, <- app_assoc.
Qed.

(** X12. The request [generatePlanAnalysis] sends holds one inline part
    per attachment, in the order given and with the attachment's own
    type and data, followed by the prompt as the last part; it asks for
    exactly one grounding tool, Maps when a location is known and Search
    otherwise, and carries the location, unchanged, only with Maps. *)
Theorem request_carries_attachments_then_prompt
  (prompt : string) (atts : list Attachment) (location : option UserLocation) :
  let r := plan_request prompt atts location in
  req_parts r
  = map (fun a => InlineData (att_mimeType a) (att_base64 a)) atts ++ [TextPart prompt]
  /\ List.length (req_parts r) = S (List.length atts)
  /\ req_tools r = [match location with Some _ => googleMaps | None => googleSearch end]
  /\ req_toolConfig r = location.
Proof.
  simpl; rewrite pushed_parts; simpl; repeat split.
  - now rewrite length_app, length_map, Nat.add_comm.
  - now destruct location.
Qed.

Lemma text_or_nonempty (t : option string) (fallback : string) :
  fallback <> "" -> text_or t fallback <> "".
Proof.
  intros Hf; unfold text_or; destruct t as [s|]; [|exact Hf].
  destruct (String.eqb s "") eqn:E; [exact Hf | now apply String.eqb_neq].
Qed.

Lemma analysis_of_with_analysis (a : Attachment) (text : string) :
  text <> "" -> analysis_of (with_analysis a text) = Some text.
Proof.
  intros Ht; unfold analysis_of; simpl.
  apply String.eqb_neq in Ht; now rewrite Ht.
Qed.

Lemma filter_out_then_in {A} (f : A -> bool) (l : list A) :
  List.filter f (List.filter (fun x => negb (f x)) l) = [].
Proof.
  induction l as [|a l IH]; simpl; [reflexivity|].
  destruct (f a) eqn:E; simpl; [exact IH | now rewrite E].
Qed.

(** X13. When the analysis of an uploaded plan succeeds, the plan
    becomes the active one, stamped and carrying the analysis text, which
    is never empty; it goes to the head of the saved plans in place of
    every earlier plan of the same name, so exactly one saved plan has
    that name; and the history grows by the user's upload message with
    the plan attached and the model's answer, in that order. *)
Theorem analysed_plan_is_saved_once
  (analysisPrompt : string) (location : option UserLocation) (clock : nat -> Z)
  (att : Attachment) (p : Plans) (response : GenerateContentResponse) :
  generatePlanAnalysis analysisPrompt [att] location = Some response ->
  let p' := handleUploadedPlan analysisPrompt location clock att p in
  let text := text_or (resp_text response)
                "I analyzed the plan but couldn't generate a text description." in
  let newAtt := with_analysis (stamped att (clock 0%nat) (clock 1%nat)) text in
  text <> ""
  /\ activeAttachment p' = Some newAtt
  /\ att_name newAtt = att_name att
  /\ savedAttachments p'
     = newAtt :: List.filter (fun q => negb (same_name q att)) (savedAttachments p)
  /\ List.length (List.filter (fun q => same_name q att) (savedAttachments p')) = 1%nat
  /\ (exists question answer,
        messages p' = messages p ++ [question; answer]
        /\ msg_role question = user /\ msg_attachments question = Some [newAtt]
        /\ msg_role answer = model /\ msg_text answer = text
        /\ msg_groundingMetadata answer = first_grounding response)
  /\ isLoading p' = false.
Proof.
  intros Hok p' text newAtt; unfold p', handleUploadedPlan; rewrite Hok; simpl.
  fold text; fold newAtt.
  split; [apply text_or_nonempty; discriminate|].
  split; [reflexivity|]; split; [reflexivity|]; split; [reflexivity|]; split.
  - unfold same_name at 1; simpl; rewrite String.eqb_refl; simpl.
    change (fun q => negb (same_name q newAtt)) with (fun q => negb (same_name q att)).
    now rewrite filter_out_then_in.
  - split; [|reflexivity].
    do 2 eexists; split; [now rewrite <- app_assoc|]; repeat split.
Qed.

(** X14. When the analysis fails the plan is still made active and
    saved, stamped but with whatever analysis it came with; it is put in
    front of the saved plans without removing any, so an earlier plan of
    the same name stays beside it; the history is left as it was and the
    overlay reports the error. *)
Theorem failed_analysis_saves_without_replacing
  (analysisPrompt : string) (location : option UserLocation) (clock : nat -> Z)
  (att : Attachment) (p : Plans) :
  generatePlanAnalysis analysisPrompt [att] location = None ->
  let p' := handleUploadedPlan analysisPrompt location clock att p in
  let newAtt := stamped att (clock 0%nat) (clock 1%nat) in
  activeAttachment p' = Some newAtt
  /\ att_analysis newAtt = att_analysis att
  /\ savedAttachments p' = newAtt :: savedAttachments p
  /\ List.length (List.filter (fun q => same_name q att) (savedAttachments p'))
     = S (List.length (List.filter (fun q => same_name q att) (savedAttachments p)))
  /\ messages p' = messages p
  /\ option_map ov_title (latestResponse p') = Some (Some "Error")
  /\ isLoading p' = false.
Proof.
  intros Hfail p' newAtt; unfold p', handleUploadedPlan; rewrite Hfail; simpl.
  repeat split.
  unfold same_name at 1; simpl; now rewrite String.eqb_refl.
Qed.

(** X15. Selecting a saved plan shows what was saved with it: after a
    successful upload, selecting the plan at the head of the saved plans
    shows the analysis text the endpoint returned; a plan saved by a
    failed upload that came without analysis shows the notice naming the
    plan. *)
Theorem saved_analysis_is_shown_again
  (analysisPrompt : string) (location : option UserLocation) (clock : nat -> Z)
  (att : Attachment) (p q : Plans) :
  let p' := handleUploadedPlan analysisPrompt location clock att p in
  (forall response,
     generatePlanAnalysis analysisPrompt [att] location = Some response ->
     exists saved,
       hd_error (savedAttachments p') = Some saved
       /\ activeAttachment (handleSelectSavedPlan saved q) = Some saved
       /\ option_map ov_text (latestResponse (handleSelectSavedPlan saved q))
          = Some (text_or (resp_text response)
                    "I analyzed the plan but couldn't generate a text description."))
  /\ (generatePlanAnalysis analysisPrompt [att] location = None ->
      att_analysis att = None ->
      exists saved,
        hd_error (savedAttachments p') = Some saved
        /\ option_map ov_text (latestResponse (handleSelectSavedPlan saved q))
           = Some ("Switched context to " ++ att_name att
                   ++ ". No previous analysis saved.")%string).
Proof.
  intros p'; split.
  - intros response Hok; unfold p', handleUploadedPlan; rewrite Hok; simpl.
    eexists; split; [reflexivity|]; split; [reflexivity|].
    unfold handleSelectSavedPlan; simpl.
    rewrite analysis_of_with_analysis; [reflexivity|].
    apply text_or_nonempty; discriminate.
  - intros Hfail Hnone; unfold p', handleUploadedPlan; rewrite Hfail; simpl.
    eexists; split; [reflexivity|].
    unfold handleSelectSavedPlan, analysis_of; simpl; now rewrite Hnone.
Qed.

Lemma toString_is_not_a_placeholder_id (z : Z) (rest : string) :
  String.eqb (toString z) ("thinking-" ++ rest) = false.
Proof.
  apply String.eqb_neq; unfold toString.
  destruct (Z.to_int z) as [d|d]; simpl; [|discriminate].
  destruct d; simpl; discriminate.
Qed.

(** X16. A send that passes the guard clears the input and the pending
    attachments, calls the endpoint with the typed text and those
    attachments, and adds to the history the user's message and then one
    reply.  On success the history is the old one without any message
    carrying the placeholder's id, then the user's message, then the
    answer, whose text is never empty; on failure it is the old one
    without any thinking message, then the user's message, then the
    apology.  Either way the placeholder itself is gone and the user's
    message is kept. *)
Theorem send_adds_the_message_and_one_reply
  (location : option UserLocation) (clock : nat -> Z) (c : Chat) :
  chat_isLoading c = false ->
  trim (input c) <> "" \/ attachments c <> [] ->
  let c' := handleSend location clock c in
  let question := mkMsg (toString (clock 0%nat)) user (input c) (clock 1%nat) false
                    (Some (attachments c)) None in
  let placeholder := ("thinking-" ++ toString (clock 2%nat))%string in
  input c' = "" /\ attachments c' = [] /\ chat_isLoading c' = false
  /\ (forall response,
        generatePlanAnalysis (input c) (attachments c) location = Some response ->
        exists answer,
          chat_messages c'
          = List.filter (fun m => negb (String.eqb (msg_id m) placeholder))
              (chat_messages c) ++ [question; answer]
          /\ msg_role answer = model
          /\ msg_text answer <> ""
          /\ msg_text answer
             = text_or (resp_text response)
                 "I processed that but couldn't generate a text response.")
  /\ (generatePlanAnalysis (input c) (attachments c) location = None ->
      exists apology,
        chat_messages c'
        = List.filter (fun m => negb (msg_isThinking m)) (chat_messages c)
          ++ [question; apology]
        /\ msg_role apology = model /\ msg_isThinking apology = false).
Proof.
  intros Hl Hguard c' question placeholder.
  assert (G : (String.eqb (trim (input c)) "" && Nat.eqb (List.length (attachments c)) 0)
              || chat_isLoading c = false).
  { rewrite Hl, orb_false_r; apply andb_false_iff.
    destruct Hguard as [H|H]; [left; now apply String.eqb_neq | right].
    destruct (attachments c); [congruence | reflexivity]. }
  unfold c', handleSend; rewrite G; simpl.
  destruct (generatePlanAnalysis (input c) (attachments c) location) as [response|];
    simpl; repeat split; try discriminate.
  - intros r Hr; inversion Hr; subst r.
    eexists; split.
    { rewrite !filter_app; simpl.
      pose proof (toString_is_not_a_placeholder_id (clock 0%nat)
                    (toString (clock 2%nat))) as E; simpl in E.
      rewrite E, String.eqb_refl; simpl.
      now rewrite app_nil_r, <- app_assoc. }
    split; [reflexivity|].
    split; [simpl; apply text_or_nonempty; discriminate | reflexivity].
  - intros _; eexists; split.
    { rewrite !filter_app; simpl.
      now rewrite app_nil_r, <- app_assoc. }
    split; reflexivity.
Qed.

(** ** The voice controls *)

Lemma update_nth_length {A} (x : A) (l : list A) :
  forall i, List.length (update_nth i x l) = List.length l.
Proof.
  induction l as [|a l IH]; intros i; destruct i; simpl; auto.
Qed.

Lemma update_nth_same {A} (x : A) (l : list A) :
  forall i, (i < List.length l)%nat -> nth_error (update_nth i x l) i = Some x.
Proof.
  induction l as [|a l IH]; intros i Hi; destruct i; simpl in *; try lia; auto.
  apply IH; lia.
Qed.

Lemma update_nth_other {A} (x : A) (l : list A) :
  forall i j, i <> j -> nth_error (update_nth j x l) i = nth_error l i.
Proof.
  induction l as [|a l IH]; intros i j Hij; destruct i, j; simpl; auto;
    try congruence.
Qed.

Lemma skipn_exact {A} (l r : list A) : skipn (List.length l) (l ++ r) = r.
Proof. induction l; simpl; auto. Qed.

(** What it returns when the contexts come up and the microphone is
    refused, and when a context fails. *)
Lemma connect_without_microphone (host : Host) (i : option string) (w : World) :
  contexts_ready host = true -> getUserMedia host = None ->
  exists w',
    connect host i w = Returned w'
    /\ sessionPromise w' = sessionPromise w
    /\ effects w'
       = effects w ++ [ConsoleError "Mic access denied";
                       CallOnError "Microphone access denied"].
Proof.
  unfold contexts_ready, resumes, connect, setup_audio_contexts, audio_init_failed.
  destruct (newInputContext host) as [ic|]; [|discriminate].
  destruct (newOutputContext host) as [oc|]; [|discriminate].
  intros Hready ->.
  destruct (state ic), (resumeInput host), (state oc), (resumeOutput host);
    try discriminate; simpl; eexists; (split; [reflexivity|]); simpl;
    rewrite <- app_assoc; split; reflexivity.
Qed.

Lemma connect_without_contexts (host : Host) (i : option string) (w : World) :
  contexts_ready host = false ->
  exists w',
    connect host i w = Thrown "Could not initialize audio" w'
    /\ sessionPromise w' = sessionPromise w
    /\ effects w' = effects w ++ [ConsoleError "Audio Context Init Failed"].
Proof.
  unfold contexts_ready, resumes, connect, setup_audio_contexts, audio_init_failed.
  destruct (newInputContext host) as [ic|].
  2:{ intros _; simpl; eexists; repeat split. }
  destruct (newOutputContext host) as [oc|].
  2:{ intros _; simpl; eexists; repeat split. }
  destruct (state ic), (resumeInput host), (state oc), (resumeOutput host);
    try discriminate; intros _; simpl; eexists; repeat split.
Qed.

(** X17. What a tap on the idle orb leaves on screen when every device
    is acquired: the session is constructed, connected once with the
    plan's instruction when the active plan has an analysis and the
    default one otherwise, and kept in [sessionRef]; the orb is active
    and the status reads "Listening...". *)
Theorem successful_start_on_screen
  (host : Host) (active : option Attachment) (v : Voice) :
  isActive v = false ->
  acquires host = true ->
  let v' := toggleSession host active v in
  isActive v' = true
  /\ status v' = "Listening..."
  /\ sessionRef v' = Some (List.length (heap v))
  /\ exists w,
       heap v' = heap v ++ [w]
       /\ sessionPromise w = Some (Pending [])
       /\ effects w
          = [LiveConnect (instruction_or_default (Some (session_instruction active)))].
Proof.
  intros Hidle Hok v'; unfold v', toggleSession; rewrite Hidle.
  destruct (connect_acquired host (Some (session_instruction active)) new_session Hok)
    as (ic & oc & media & ->); simpl.
  repeat split; eexists; repeat split.
Qed.

(** X18. What a tap on the idle orb leaves on screen when acquisition
    fails.  If the contexts come up and the microphone is refused, the
    [onError] callback first shows the error, but [connect] then returns
    normally and the handler goes on as after a success: the orb is
    active, the status reads "Listening..." and [sessionRef] holds a
    session that has no Transport.  If a context cannot be built or
    resumed, [connect] rejects: the orb is idle, the status reads "Tap
    to retry" and [sessionRef] is as it was. *)
Theorem failed_start_on_screen
  (host : Host) (active : option Attachment) (v : Voice) :
  isActive v = false ->
  let v' := toggleSession host active v in
  (contexts_ready host = true -> getUserMedia host = None ->
   isActive v' = true
   /\ status v' = "Listening..."
   /\ sessionRef v' = Some (List.length (heap v))
   /\ exists w,
        heap v' = heap v ++ [w]
        /\ sessionPromise w = None
        /\ count_effects is_live_connect w = 0%nat)
  /\ (contexts_ready host = false ->
      isActive v' = false
      /\ status v' = "Tap to retry"
      /\ sessionRef v' = sessionRef v
      /\ exists w,
           heap v' = heap v ++ [w]
           /\ sessionPromise w = None
           /\ count_effects is_live_connect w = 0%nat).
Proof.
  intros Hidle v'; unfold v', toggleSession; rewrite Hidle.
  generalize (session_instruction active); intros instruction.
  split.
  - intros Hready Hmic.
    destruct (connect_without_microphone host (Some instruction) new_session
                Hready Hmic) as (w & -> & Hp & He).
    cbn [world_of]; rewrite He; cbn.
    repeat split; exists w; repeat split; auto.
    unfold count_effects; rewrite He; reflexivity.
  - intros Hready.
    destruct (connect_without_contexts host (Some instruction) new_session Hready)
      as (w & -> & Hp & He).
    cbn [world_of]; rewrite He; cbn.
    repeat split; exists w; repeat split; auto.
    unfold count_effects; rewrite He; reflexivity.
Qed.

(** X19. After the Transport reports an error the orb is idle and the
    status reads "Connection error. Retrying...", but nothing retries
    and [sessionRef] still holds the session.  The next tap constructs
    and connects a new session and puts it in [sessionRef]; the old one
    is never disconnected: it keeps exactly the release calls it had,
    also through the unmount cleanup. *)
Theorem tap_after_error_abandons_the_session
  (host : Host) (active : option Attachment) (v : Voice) (i : nat) (w : World) :
  sessionRef v = Some i ->
  nth_error (heap v) i = Some w ->
  acquires host = true ->
  let v1 := session_event i OnError v in
  let v2 := toggleSession host active v1 in
  isActive v1 = false
  /\ status v1 = "Connection error. Retrying..."
  /\ sessionRef v1 = Some i
  /\ sessionRef v2 = Some (List.length (heap v))
  /\ i <> List.length (heap v)
  /\ nth_error (heap v2) i = Some (onerror w)
  /\ nth_error (heap (unmount v2)) i = Some (onerror w)
  /\ List.filter is_release (effects (onerror w)) = List.filter is_release (effects w).
Proof.
  intros Href Hw Hok v1 v2.
  assert (Hi : (i < List.length (heap v))%nat)
    by (apply nth_error_Some; congruence).
  assert (E1 : v1 = ui_onError (set_heap (update_nth i (onerror w) (heap v)) v)).
  { unfold v1, session_event; rewrite Hw; simpl.
    unfold onerror; simpl; rewrite <- app_assoc, skipn_exact; reflexivity. }
  assert (E2 : exists fresh,
             v2 = mkVoice true (isSpeaking v) "Listening..."
                    (Some (List.length (heap v))) (timers v)
                    (update_nth i (onerror w) (heap v) ++ [fresh])).
  { unfold v2, toggleSession; rewrite E1; simpl.
    destruct (connect_acquired host (Some (session_instruction active)) new_session Hok)
      as (ic & oc & media & ->); simpl.
    rewrite update_nth_length; eexists; reflexivity. }
  destruct E2 as (fresh & E2).
  assert (Hold : nth_error (update_nth i (onerror w) (heap v) ++ [fresh]) i
                 = Some (onerror w)).
  { rewrite nth_error_app1 by (now rewrite update_nth_length).
    now apply update_nth_same. }
  rewrite E1, E2; simpl; rewrite Href.
  split; [reflexivity|]; split; [reflexivity|]; split; [reflexivity|].
  split; [reflexivity|]; split; [lia|]; split; [exact Hold|]; split.
  - unfold unmount; simpl.
    destruct (nth_error (update_nth i (onerror w) (heap v) ++ [fresh])
                (List.length (heap v))); simpl; [|exact Hold].
    rewrite update_nth_other by lia; exact Hold.
  - unfold onerror; simpl; rewrite !filter_app; simpl; now rewrite !app_nil_r.
Qed.

(** X20. A tap on the active orb, with host calls that do not throw,
    disconnects the session once, clears [sessionRef] and shows the idle
    status; the unmount cleanup that follows finds no session and
    releases nothing a second time. *)
Theorem tap_while_active_disconnects_once
  (host : Host) (active : option Attachment) (v : Voice) (i : nat) (w : World) :
  isActive v = true ->
  sessionRef v = Some i ->
  nth_error (heap v) i = Some w ->
  (forall e, throws e = false) ->
  let v1 := toggleSession host active v in
  isActive v1 = false
  /\ status v1 = "Tap orb to start"
  /\ sessionRef v1 = None
  /\ (exists w1,
        disconnect w = Returned w1
        /\ nth_error (heap v1) i = Some w1
        /\ effects w1 = effects w ++ device_calls w ++ transport_calls w)
  /\ unmount v1 = v1.
Proof.
  intros Hact Href Hw Hquiet v1.
  assert (Hi : (i < List.length (heap v))%nat)
    by (apply nth_error_Some; congruence).
  assert (Hq : snd (until_throw (device_calls w)) = false)
    by now rewrite until_throw_silent.
  destruct (disconnect_until w) as [_ H]; specialize (H Hq).
  unfold v1, toggleSession; rewrite Hact, Href, Hw, H; simpl.
  repeat split.
  eexists; split; [reflexivity|]; split; [now apply update_nth_same|].
  rewrite chain_close_effects.
  unfold transport_calls, mark_closed; simpl.
  destruct (inputAudioContext w); simpl; destruct (outputAudioContext w); simpl;
    now rewrite <- app_assoc.
Qed.

(** X21. The speaking indicator and the session read a message the same
    way: the indicator is raised exactly by the messages whose first part
    carries audio, which are the ones the session hands to the decoder;
    a message that completes the turn lowers it, even when it carries
    audio; any other message leaves the screen as it was. *)
Theorem speaking_follows_the_first_part (msg : LiveServerMessage) (v : Voice) :
  (hasAudio msg = true <-> base64Audio msg <> None)
  /\ (is_turnComplete msg = false -> base64Audio msg <> None ->
      isSpeaking (ui_onMessage msg v) = true)
  /\ (is_turnComplete msg = false -> base64Audio msg = None ->
      ui_onMessage msg v = v)
  /\ (is_turnComplete msg = true -> isSpeaking (ui_onMessage msg v) = false).
Proof.
  assert (E : hasAudio msg = true <-> base64Audio msg <> None).
  { unfold hasAudio, base64Audio, audio_of_part.
    destruct (serverContent msg) as [sc|]; [|split; congruence].
    destruct (modelTurn sc) as [turn|]; [|split; congruence].
    destruct (parts turn) as [[|p ps]|]; simpl; try (split; congruence).
    destruct (inlineData p) as [b|]; [|split; congruence].
    destruct (data b) as [s|]; [|split; congruence].
    destruct (String.eqb s ""); simpl; split; congruence. }
  split; [exact E|]; unfold ui_onMessage; repeat split.
  - intros Ht Hb; rewrite Ht; apply E in Hb; now rewrite Hb.
  - intros Ht Hb; rewrite Ht.
    destruct (hasAudio msg) eqn:Ha; [|reflexivity].
    exfalso; exact (proj1 E eq_refl Hb).
  - intros Ht; now rewrite Ht.
Qed.

(** ** The uploader *)

Lemma split_without (sep : ascii) (s : string) :
  has_char sep s = false -> split sep s = [s].
Proof.
  induction s as [|c s IH]; simpl; [reflexivity|].
  intros H; apply orb_false_iff in H; destruct H as [Hc Hs].
  now rewrite Hc, (IH Hs).
Qed.

Lemma split_at_first (sep : ascii) (header rest : string) :
  has_char sep header = false ->
  split sep (header ++ String sep rest) = header :: split sep rest.
Proof.
  induction header as [|c header IH]; simpl.
  - intros _; now rewrite Ascii.eqb_refl.
  - intros H; apply orb_false_iff in H; destruct H as [Hc Hs].
    now rewrite Hc, (IH Hs).
Qed.

(** X22. A file whose data URL is a header, a comma and a payload, with
    no comma in either, becomes an attachment carrying exactly the
    payload, the file's type and name, no id and no analysis; sent for
    analysis alone, the request holds the payload under the file's type
    and then the prompt.  A data URL with no comma gives an attachment
    with no data. *)
Theorem uploaded_file_becomes_the_attachment
  (f : File) (header payload : string) :
  has_char "," header = false ->
  has_char "," payload = false ->
  (file_dataURL f = (header ++ String "," payload)%string ->
   exists a,
     handleFileChange (Some f) = Some a
     /\ att_base64 a = Some payload
     /\ att_mimeType a = file_type f /\ att_name a = file_name f
     /\ att_id a = None /\ att_analysis a = None
     /\ forall prompt location,
          req_parts (plan_request prompt [a] location)
          = [InlineData (file_type f) (Some payload); TextPart prompt])
  /\ (file_dataURL f = header ->
      exists a, handleFileChange (Some f) = Some a /\ att_base64 a = None).
Proof.
  intros Hh Hp; split; intros Hurl; unfold handleFileChange; rewrite Hurl.
  - rewrite (split_at_first _ _ _ Hh), (split_without _ _ Hp); simpl.
    eexists; repeat split.
  - rewrite (split_without _ _ Hh); simpl.
    eexists; repeat split.
Qed.

(** ** Citations *)

Lemma append_empty_r (s : string) : (s ++ "")%string = s.
Proof. induction s; simpl; congruence. Qed.

Lemma append_assoc (a b c : string) :
  ((a ++ b) ++ c)%string = (a ++ (b ++ c))%string.
Proof. induction a; simpl; congruence. Qed.

Lemma shown_text_snoc (ps : list Piece) (p : Piece) :
  shown_text (ps ++ [p]) = (shown_text ps ++ piece_text p)%string.
Proof.
  induction ps as [|q ps IH]; simpl.
  - now rewrite append_empty_r.
  - now rewrite IH, append_assoc.
Qed.

Lemma take_drop (n : nat) (s : string) : (take n s ++ drop n s)%string = s.
Proof.
  revert s; induction n as [|n IH]; intros s; [reflexivity|].
  destruct s; simpl; [reflexivity | now rewrite IH].
Qed.

Lemma take_more (a b : nat) (s : string) :
  (take a s ++ take b (drop a s))%string = take (a + b) s.
Proof.
  revert s; induction a as [|a IH]; intros s; [reflexivity|].
  destruct s; simpl; [now destruct b | now rewrite IH].
Qed.

Lemma take_all (s : string) : take (String.length s) s = s.
Proof. induction s; simpl; congruence. Qed.

Lemma substring_in_order (a b : nat) (text : string) :
  (a <= b)%nat -> (b <= String.length text)%nat ->
  substring a b text = take (b - a) (drop a text).
Proof.
  intros Hab Hb; unfold substring.
  rewrite (Nat.min_l a), (Nat.min_l b) by lia.
  now rewrite Nat.max_r, Nat.min_l by lia.
Qed.

Lemma render_in_order (text : string) (l : list GroundingSupport) :
  forall elements lastIndex,
  in_reading_order lastIndex (String.length text) l ->
  (lastIndex <= String.length text)%nat ->
  shown_text elements = take lastIndex text ->
  let '(elements', lastIndex') := fold_left (render_support text) l (elements, lastIndex) in
  shown_text elements' = take lastIndex' text
  /\ (lastIndex' <= String.length text)%nat.
Proof.
  induction l as [|x l IH]; intros elements lastIndex Hord Hlen Hshown; simpl.
  - now split.
  - destruct Hord as (H1 & H2 & H3 & Hrest).
    apply IH; [exact Hrest | exact H3 |].
    rewrite shown_text_snoc; simpl.
    rewrite (substring_in_order _ _ _ H2 H3).
    destruct (Nat.ltb lastIndex (start_of x)) eqn:E.
    + apply Nat.ltb_lt in E.
      rewrite shown_text_snoc, Hshown; simpl.
      rewrite (substring_in_order lastIndex (start_of x)) by lia.
      rewrite take_more.
      replace (lastIndex + (start_of x - lastIndex))%nat with (start_of x) by lia.
      rewrite take_more; f_equal; lia.
    + apply Nat.ltb_ge in E.
      assert (lastIndex = start_of x) by lia; subst lastIndex.
      rewrite Hshown, take_more; f_equal; lia.
Qed.

(** X23. [renderMessageContent] shows the whole text of a message,
    once: for a user message, for a model message without grounding
    supports, and for one whose supports, sorted by start, are segments
    in reading order within the text, the pieces laid out, read one
    after the other, are the text of the message. *)
Theorem citations_keep_the_text (msg : Message) :
  (forall g supports,
     msg_role msg = model ->
     msg_groundingMetadata msg = Some g ->
     groundingSupports g = Some supports ->
     in_reading_order 0 (String.length (msg_text msg)) (sort_supports supports)) ->
  shown_text (renderMessageContent msg) = msg_text msg.
Proof.
  intros Hord; unfold renderMessageContent.
  destruct (msg_role msg); [simpl; apply append_empty_r|].
  destruct (msg_groundingMetadata msg) as [g|]; [|simpl; apply append_empty_r].
  destruct (groundingSupports g) as [supports|] eqn:Eg; [|simpl; apply append_empty_r].
  specialize (Hord g supports eq_refl eq_refl Eg).
  unfold render_supports.
  pose proof (render_in_order (msg_text msg) (sort_supports supports) [] 0
                Hord (Nat.le_0_l _) eq_refl) as H.
  destruct (fold_left (render_support (msg_text msg)) (sort_supports supports) ([], 0%nat))
    as [elements lastIndex].
  destruct H as [Hs Hl].
  destruct (Nat.ltb lastIndex (String.length (msg_text msg))) eqn:E.
  - rewrite shown_text_snoc, Hs; simpl; apply take_drop.
  - apply Nat.ltb_ge in E.
    assert (lastIndex = String.length (msg_text msg)) by lia; subst lastIndex.
    rewrite Hs; apply take_all.
Qed.

Lemma insert_support_last (x : GroundingSupport) (l : list GroundingSupport) :
  Forall (fun y => (start_of y <= start_of x)%nat) l ->
  insert_support x l = l ++ [x].
Proof.
  induction 1 as [|y l Hy _ IH]; simpl; [reflexivity|].
  apply Nat.ltb_ge in Hy; now rewrite Hy, IH.
Qed.

Lemma reading_order_starts (len : nat) (l : list GroundingSupport) :
  forall from, in_reading_order from len l ->
  Forall (fun y => (from <= start_of y)%nat) l.
Proof.
  induction l as [|x l IH]; intros from H; constructor.
  - apply H.
  - destruct H as (H1 & H2 & _ & H4).
    eapply Forall_impl; [|apply (IH _ H4)]; simpl; intros; lia.
Qed.

(** Supports already in reading order are left in place by the sort. *)
Lemma sort_keeps_reading_order (len : nat) (l : list GroundingSupport) :
  in_reading_order 0 len l -> sort_supports l = l.
Proof.
  unfold sort_supports.
  assert (H : forall acc from,
             Forall (fun y => (start_of y <= from)%nat) acc ->
             in_reading_order from len l ->
             fold_left (fun a x => insert_support x a) l acc = acc ++ l).
  { induction l as [|x l IH]; intros acc from Hacc Hord; simpl.
    - now rewrite app_nil_r.
    - destruct Hord as (H1 & H2 & H3 & H4).
      rewrite insert_support_last
        by (eapply Forall_impl; [|exact Hacc]; simpl; intros; lia).
      rewrite (IH (acc ++ [x]) (end_of x)); [now rewrite <- app_assoc | | exact H4].
      apply Forall_app; split.
      + eapply Forall_impl; [|exact Hacc]; simpl; intros; lia.
      + repeat constructor; exact H2. }
  intros Hord; apply (H [] 0%nat); [constructor | exact Hord].
Qed.

End Session.

(** ** Doubles *)

Lemma nearest_even_nonneg (n d : Z) :
  (0 <= n)%Z -> (0 < d)%Z -> (0 <= nearest_even n d)%Z.
Proof.
  intros Hn Hd; unfold nearest_even.
  pose proof (Z.div_pos n d Hn Hd) as Hk.
  destruct (2 * (n mod d) ?= d)%Z; [destruct (Z.even (n / d))| |]; lia.
Qed.

Lemma binary64_nonneg (x : Q) : 0 <= x -> 0 <= binary64 x.
Proof.
  intros Hx; unfold binary64.
  assert (Hr : (0 <= Qnum (Qred x))%Z).
  { rewrite <- (Qred_correct x) in Hx; unfold Qle in Hx; simpl in Hx; lia. }
  destruct (Z.abs (Qnum (Qred x)) =? 0)%Z; [apply Qle_refl|].
  rewrite Qred_correct.
  set (a := Z.abs (Qnum (Qred x))).
  set (d := Zpos (Qden (Qred x))).
  set (q := Z.max _ _).
  assert (Ha : (0 <= a)%Z) by apply Z.abs_nonneg.
  assert (Hs : (0 <= Z.sgn (Qnum (Qred x)))%Z) by now apply Z.sgn_nonneg.
  destruct (0 <=? q)%Z eqn:Hq; unfold Qle; cbn [Qnum Qden].
  - apply Z.leb_le in Hq.
    assert (Hp : (0 < 2 ^ q)%Z) by (apply Z.pow_pos_nonneg; lia).
    assert (Hk : (0 <= nearest_even a (d * 2 ^ q))%Z)
      by (apply nearest_even_nonneg; [exact Ha | unfold d; nia]).
    assert (H : (0 <= Z.sgn (Qnum (Qred x)) * nearest_even a (d * 2 ^ q) * 2 ^ q)%Z)
      by (repeat apply Z.mul_nonneg_nonneg; lia).
    lia.
  - assert (Hp : (0 <= 2 ^ (- q))%Z) by (apply Z.pow_nonneg; lia).
    assert (Hk : (0 <= nearest_even (a * 2 ^ (- q)) d)%Z)
      by (apply nearest_even_nonneg; [nia | unfold d; lia]).
    assert (H : (0 <= Z.sgn (Qnum (Qred x)) * nearest_even (a * 2 ^ (- q)) d)%Z)
      by (apply Z.mul_nonneg_nonneg; lia).
    lia.
Qed.

(** The numbers of a JavaScript host. *)
Definition doubles : Numbers := Build_Numbers binary64 binary64_nonneg.

(** ** Worked scenarios on the sample codec *)

#[warnings="-notation-for-abbreviation"]
Notation sample_run :=
  (run sample_decode sample_decodeAudioData sample_createPcmBlob no_throw).
#[warnings="-notation-for-abbreviation"]
Notation sample_handle := (handleServerMessage sample_decode sample_decodeAudioData).
#[warnings="-notation-for-abbreviation"]
Notation double_run :=
  (run (num := doubles) sample_decode sample_decodeAudioData sample_createPcmBlob no_throw).
#[warnings="-notation-for-abbreviation"]
Notation sample_clean := (clean sample_decode sample_decodeAudioData).
#[warnings="-notation-for-abbreviation"]
Notation output_context := (mkContext 24000 running).

Example connecting_is_reached :
  sample_run [Connect sample_host None] new_session = connecting.
Proof. vm_compute; reflexivity. Qed.

Example streaming_is_reached :
  sample_run [Connect sample_host None; OnOpen true; Fulfil (Some sample_live)]
    new_session
  = streaming.
Proof. vm_compute; reflexivity. Qed.

(** Chunks of 1.0 s, 0.5 s and 2.0 s on an idle device at time 0, each
    decoded before the next arrives, start at 0, 1 and 1.5; the cursor
    ends at 3.5.  Every sum is a double, so a host computes the same. *)
Example three_chunks_from_idle :
  let evs := [OnMessage 0 (audio_message "pcm-1.0s" false); Settle 0;
              OnMessage 0 (audio_message "pcm-0.5s" false); Settle 0;
              OnMessage 0 (audio_message "pcm-2.0s" false); Settle 0] in
  (map Qred (start_times (sample_run evs streaming)) = [0; 1; 3 # 2]
   /\ Qred (nextStartTime (sample_run evs streaming)) = 7 # 2)
  /\ (start_times (double_run evs streaming) = [0; 1; 3 # 2]
      /\ nextStartTime (double_run evs streaming) = 7 # 2).
Proof. vm_compute; repeat split; reflexivity. Qed.

(** Against C1 as stated.  The clock is read when a message arrives and
    the source is started when its decode completes: a message that
    arrives in between raises the cursor, and the first chunk, for which
    cursor and clock were both 0, starts at 1/2; the starts are 1/2 and
    3/2 where the rule of the claim gives 0 and 1.  And the cursor is
    advanced in double arithmetic: after chunks of 0.1 s and 0.2 s the
    third starts at 0.30000000000000004, which is not the sum of the two
    durations. *)
Lemma start_is_taken_at_decode_time :
  let evs := [OnMessage 0 (audio_message "pcm-1.0s" false);
              OnMessage (1 # 2) (audio_message "pcm-0.5s" false);
              Settle 0; Settle 0] in
  let tenths := [OnMessage 0 (audio_message "pcm-0.1s" false); Settle 0;
                 OnMessage 0 (audio_message "pcm-0.2s" false); Settle 0;
                 OnMessage 0 (audio_message "pcm-0.5s" false); Settle 0] in
  (nextStartTime streaming = 0
   /\ map Qred (start_times (sample_run evs streaming)) = [1 # 2; 3 # 2]
   /\ map Qred (fst (schedule_all 0 [(0, 1); (1 # 2, 1 # 2)])) = [0; 1])
  /\ (start_times (double_run tenths streaming)
      = [0; binary64 (1 # 10); 1351079888211149 # 4503599627370496]
      /\ ~ 1351079888211149 # 4503599627370496 == binary64 (1 # 10) + binary64 (2 # 10)
      /\ ~ 1351079888211149 # 4503599627370496 == 3 # 10).
Proof.
  vm_compute; repeat split; try reflexivity; intros H; discriminate H.
Qed.

(** The rule at work with exact sums, the second chunk arriving while
    the first is still to play, and on doubles with chunks of 0.1 s and
    0.2 s before a third. *)
Lemma chunks_play_back_to_back_witness :
  let cs := [mkChunk 0 (audio_message "pcm-a" false) buffer_a;
             mkChunk (1 # 10000) (audio_message "pcm-b" false) buffer_b] in
  let silence n :=
    mkBuffer (map (fun k => Z.of_nat k # 32768) (repeat 0%nat (Z.to_nat n))) 24000 in
  let tenths := [mkChunk 0 (audio_message "pcm-0.1s" false) (silence 2400%Z);
                 mkChunk 0 (audio_message "pcm-0.2s" false) (silence 4800%Z);
                 mkChunk 0 (audio_message "pcm-0.5s" false) (silence 12000%Z)] in
  (start_times (sample_run (one_by_one streaming cs) streaming)
   = cumulative 0 (map (fun c => seconds (pcm c)) cs)
   /\ nextStartTime (sample_run (one_by_one streaming cs) streaming)
      = total 0 (map (fun c => seconds (pcm c)) cs))
  /\ effects (settle 0 (sample_run [OnMessage 0 (audio_message "pcm-a" false)] streaming))
     = effects (sample_run [OnMessage 0 (audio_message "pcm-a" false)] streaming)
       ++ [SourceStart 0 buffer_a gain_value 0]
  /\ start_times (double_run (one_by_one streaming tenths) streaming)
     = [0; binary64 (1 # 10); 1351079888211149 # 4503599627370496].
Proof.
  intros cs silence tenths.
  assert (Hctx : outputAudioContext streaming = Some output_context) by reflexivity.
  assert (Hall : Forall (sample_clean output_context) cs).
  { repeat constructor. }
  destruct (chunks_play_back_to_back sample_decode sample_decodeAudioData
              sample_createPcmBlob no_throw cs streaming output_context Hctx Hall)
    as ((H1 & _) & H3 & H4).
  assert (Htime : on_time (nextStartTime streaming) (map timing cs)).
  { repeat split; vm_compute; discriminate. }
  destruct (H3 Htime) as [P1 P2].
  split; [split; [|exact P2]|split].
  - etransitivity; [exact H1|]; rewrite P1; reflexivity.
  - exact (proj1 (H4 (sample_run [OnMessage 0 (audio_message "pcm-a" false)] streaming)
                    0%nat buffer_a eq_refl)).
  - assert (Htenths : Forall (sample_clean output_context) tenths).
    { repeat constructor. }
    destruct (chunks_play_back_to_back (num := doubles)
                sample_decode sample_decodeAudioData
                sample_createPcmBlob no_throw tenths streaming output_context
                Hctx Htenths) as ((D1 & _) & _).
    etransitivity; [exact D1|]; vm_compute; reflexivity.
Defined.

(** A 2.0 s chunk is scheduled at time 0; at 0.5 an interruption comes,
    then a 1.0 s chunk: the first source is stopped, the set emptied, the
    cursor zeroed, and the new chunk starts at 0.5. *)
Example barge_in_scenario :
  let w1 := sample_run [OnMessage 0 (audio_message "pcm-2.0s" false); Settle 0]
              streaming in
  let w2 := sample_run [OnMessage (1 # 2) interruption_message] w1 in
  let w3 := sample_run [OnMessage (1 # 2) (audio_message "pcm-1.0s" false); Settle 0]
              w2 in
  sources w1 = [0%nat]
  /\ sources w2 = [] /\ nextStartTime w2 = 0
  /\ List.filter is_release (effects w2) = []
  /\ count_effects (fun e => match e with SourceStop 0 => true | _ => false end) w2 = 1%nat
  /\ map Qred (start_times w3) = [0; 1 # 2]
  /\ Qred (nextStartTime w3) = 3 # 2.
Proof. vm_compute; repeat split; reflexivity. Qed.



(** Against C3 as stated: nothing orders the decodes.  Chunk a arrives
    before chunk b; b's decode completes first and b is started first.
    And an interruption that rides on an audio message acts only when
    that message's decode completes: chunk b, arrived after it, is in the
    set by then. *)
Lemma later_chunk_is_scheduled_first :
  let evs := [OnMessage 0 (audio_message "pcm-a" false);
              OnMessage 0 (audio_message "pcm-b" false);
              Settle 1; Settle 0] in
  let late := [OnMessage 0 (audio_message "pcm-a" true);
               OnMessage 0 (audio_message "pcm-b" false);
               Settle 1] in
  choose (arrived sample_decode sample_decodeAudioData output_context) evs
  = [buffer_a; buffer_b]
  /\ started (sample_run evs streaming) = [buffer_b; buffer_a]
  /\ started (sample_run late streaming) = [buffer_b]
  /\ sources (sample_run late streaming) = [0%nat].
Proof. vm_compute; repeat split; reflexivity. Qed.

Lemma arrival_order_needs_ordered_decodes_witness :
  let evs := [OnMessage 0 (audio_message "pcm-a" false);
              OnMessage 0 (audio_message "pcm-b" false);
              Settle 0; Settle 0] in
  pipeline (sample_run evs streaming) = [buffer_a; buffer_b]
  /\ sources (step sample_decode sample_decodeAudioData sample_createPcmBlob no_throw
               (sample_run evs streaming) (OnMessage 1 interruption_message)) = [].
Proof.
  intros evs.
  assert (Hctx : outputAudioContext streaming = Some output_context) by reflexivity.
  assert (Hev : forallb in_order evs = true) by reflexivity.
  destruct (arrival_order_needs_ordered_decodes
              sample_decode sample_decodeAudioData sample_createPcmBlob no_throw
              evs streaming output_context Hctx Hev) as (H1 & H2 & _).
  split; [exact H1|].
  destruct (H2 1 interruption_message eq_refl eq_refl) as (Hs & _).
  exact Hs.
Defined.

(** Against C4 as stated: a second [disconnect] calls [close()] on both
    contexts although they are closed, and asks the Transport to close a
    second time. *)
Lemma second_disconnect_releases_again :
  let w2 := sample_run [Disconnect; Disconnect] streaming in
  count_effects is_reclose w2 = 2%nat
  /\ count_effects is_context_close w2 = 4%nat
  /\ count_effects is_session_close w2 = 2%nat.
Proof. vm_compute; repeat split; reflexivity. Qed.

Lemma disconnect_is_not_latched_witness :
  exists w1 w2,
    disconnect no_throw streaming = Returned w1
    /\ disconnect no_throw w1 = Returned w2
    /\ effects w1 = effects streaming ++ device_calls streaming ++ transport_calls streaming
    /\ effects w2
       = effects w1 ++ map reclosed (device_calls streaming) ++ transport_calls streaming
    /\ stream w1 = stream streaming
    /\ cleanupCallbacks w1 = cleanupCallbacks streaming.
Proof.
  apply (disconnect_is_not_latched no_throw streaming).
  intros e; reflexivity.
Defined.

(** Against C5 as stated: after a failed chunk the valid chunks that
    follow are all started, but in the order their decodes complete, not
    the order they arrived in. *)
Lemma chunks_after_a_failure_can_swap :
  let evs := [OnMessage 0 (audio_message "not base64" false);
              OnMessage 0 (audio_message "pcm-a" false);
              OnMessage 0 (audio_message "pcm-b" false);
              Settle 1; Settle 0] in
  choose (arrived sample_decode sample_decodeAudioData output_context) evs
  = [buffer_a; buffer_b]
  /\ started (sample_run evs streaming) = [buffer_b; buffer_a].
Proof. vm_compute; split; reflexivity. Qed.

Lemma failed_decode_is_dropped_witness :
  let bad := audio_message "not base64" false in
  let cs := [mkChunk 1 (audio_message "pcm-a" false) buffer_a;
             mkChunk 2 (audio_message "pcm-b" false) buffer_b] in
  let w1 := sample_run [OnMessage (1 # 2) bad; Settle 0] streaming in
  let after_failure := sample_run (one_by_one w1 cs) w1 in
  sources w1 = sources streaming
  /\ started after_failure = [buffer_a; buffer_b]
  /\ (exists t, nth_error (start_times after_failure) 0 = Some t /\ t == Qmax 0 1)
  /\ pipeline (sample_run [OnMessage 1 (audio_message "pcm-a" false);
                           OnMessage 2 (audio_message "pcm-b" false); Settle 0] w1)
     = [buffer_a; buffer_b].
Proof.
  intros bad cs w1 after_failure.
  assert (Hctx : outputAudioContext streaming = Some output_context) by reflexivity.
  assert (Haudio : base64Audio bad <> None) by discriminate.
  assert (Hdec : decoded sample_decode sample_decodeAudioData output_context bad = None)
    by reflexivity.
  assert (Hint : is_interrupted bad = false) by reflexivity.
  assert (Hall : Forall (sample_clean output_context) cs) by (repeat constructor).
  destruct (failed_decode_is_dropped sample_decode sample_decodeAudioData
              sample_createPcmBlob no_throw
              streaming output_context (1 # 2) bad cs
              Hctx Haudio Hdec Hint Hall) as ((_ & H1 & _) & H2 & _ & _ & H5 & H6).
  split; [exact H1|]; split; [exact H2|]; split.
  - apply (H5 _ _ eq_refl); unfold Qle; simpl; lia.
  - exact (H6 [OnMessage 1 (audio_message "pcm-a" false);
               OnMessage 2 (audio_message "pcm-b" false); Settle 0] eq_refl).
Defined.

(** A payload that decodes to bytes the buffer builder refuses is
    dropped the same way, after the [await]. *)
Example rejected_decode_is_dropped :
  let w1 := sample_run [OnMessage 0 (audio_message "pcm-empty" false); Settle 0]
              streaming in
  sources w1 = [] /\ awaiting w1 = [] /\ start_times w1 = []
  /\ count_effects (fun e => match e with ConsoleError _ => true | _ => false end) w1
     = 1%nat.
Proof. vm_compute; repeat split; reflexivity. Qed.

(** Against C6 as stated: a frame captured while the connection promise
    is pending is not discarded; it waits on the promise and is sent when
    the promise fulfils. *)
Lemma frame_before_ready_is_sent_later :
  let w1 := sample_run [OnOpen true; AudioProcess [1 # 2]] connecting in
  let w2 := sample_run [OnOpen true; AudioProcess [1 # 2]; Fulfil (Some sample_live)]
              connecting in
  sessionPromise w1 = Some (Pending [ThenSend [1 # 2]])
  /\ sends w1 = []
  /\ sends w2 = [[1 # 2]].
Proof. vm_compute; repeat split; reflexivity. Qed.

Lemma frames_wait_on_the_connection_promise_witness :
  let frames := [[1 # 2]; [1 # 4]] in
  let captured := sample_run (map AudioProcess frames) connecting in
  effects captured = effects connecting
  /\ sends (fulfil (Some sample_live) captured) = frames
  /\ effects (reject captured) = effects connecting
  /\ sends (sample_run (map AudioProcess frames) streaming) = frames.
Proof.
  intros frames captured.
  destruct (frames_wait_on_the_connection_promise
              sample_decode sample_decodeAudioData sample_createPcmBlob no_throw
              frames connecting) as (_ & Hpending & _).
  destruct (Hpending [] eq_refl) as (H1 & _ & H3 & H4).
  destruct (frames_wait_on_the_connection_promise
              sample_decode sample_decodeAudioData sample_createPcmBlob no_throw
              frames streaming) as (Hopen & _ & _).
  split; [exact H1|]; split; [exact (H3 sample_live eq_refl)|]; split; [exact H4|].
  exact (Hopen sample_live eq_refl eq_refl).
Defined.

Example contexts_failure_rejects :
  connect no_output_context None new_session
  = Thrown "Could not initialize audio"
      (mkWorld None (Some (mkContext 16000 running)) None 0 [] None []
         [ConsoleError "Audio Context Init Failed"] [] 0).
Proof. reflexivity. Qed.

Example microphone_failure_calls_onError :
  connect no_microphone None new_session
  = Returned
      (mkWorld None (Some (mkContext 16000 running)) (Some (mkContext 24000 running))
         0 [] None []
         [ConsoleError "Mic access denied"; CallOnError "Microphone access denied"] [] 0).
Proof. reflexivity. Qed.

(** Against C7 as stated: a refused microphone puts the session in no
    error state.  [connect] returns normally, both contexts are open and
    held, and a second [connect] on the same instance, the microphone
    now granted, opens the Transport. *)
Lemma refused_session_connects_again :
  let w1 := world_of (connect no_microphone None new_session) in
  connect no_microphone None new_session = Returned w1
  /\ inputAudioContext w1 = Some (mkContext 16000 running)
  /\ outputAudioContext w1 = Some (mkContext 24000 running)
  /\ exists w2,
       connect sample_host None w1 = Returned w2
       /\ sessionPromise w2 = Some (Pending [])
       /\ count_effects is_live_connect w2 = 1%nat.
Proof.
  vm_compute; repeat split; eexists; repeat split.
Qed.

Lemma failed_acquisition_opens_no_transport_witness :
  (count_effects is_live_connect (world_of (connect no_microphone None new_session)) = 0%nat
   /\ error_notifications new_session (connect no_microphone None new_session) = 1%nat)
  /\ (count_effects is_live_connect (world_of (connect no_output_context None new_session))
      = 0%nat
      /\ error_notifications new_session (connect no_output_context None new_session)
         = 1%nat)
  /\ exists w2,
       connect sample_host None (world_of (connect no_output_context None new_session))
       = Returned w2
       /\ sessionPromise w2 = Some (Pending [])
       /\ count_effects is_live_connect w2 = 1%nat.
Proof.
  destruct (failed_acquisition_opens_no_transport no_microphone None new_session eq_refl)
    as (A1 & _ & A3 & _).
  destruct (failed_acquisition_opens_no_transport no_output_context None new_session eq_refl)
    as (B1 & _ & B3 & _ & B5).
  split; [split; assumption|]; split; [split; assumption|].
  exact (B5 sample_host None eq_refl).
Defined.

(** Against C8 as stated: the Transport's close and error callbacks
    release nothing, and a throw from the first track's [stop()] leaves
    the second track, the capture nodes, both contexts and the Transport
    untouched. *)
Lemma cleanup_can_be_skipped :
  List.filter is_release (effects (sample_run [OnClose] streaming)) = []
  /\ List.filter is_release (effects (sample_run [OnError] streaming)) = []
  /\ disconnect track_stop_throws streaming
     = Thrown "host" (emit (TrackStop 0) streaming)
  /\ List.filter is_release (effects (emit (TrackStop 0) streaming)) = [TrackStop 0].
Proof. vm_compute; repeat split; reflexivity. Qed.

Lemma disconnect_stops_at_the_first_throw_witness :
  effects (world_of (disconnect no_throw streaming))
  = effects streaming
    ++ [TrackStop 0; TrackStop 1;
        NodeDisconnect MediaStreamSource; NodeDisconnect ScriptProcessor;
        ContextClose Input running; ContextClose Output running; SessionClose]
  /\ exists w1, disconnect track_stop_throws streaming = Thrown "host" w1.
Proof.
  destruct (disconnect_stops_at_the_first_throw no_throw streaming) as (H1 & _).
  destruct (disconnect_stops_at_the_first_throw track_stop_throws streaming)
    as (_ & _ & H3 & _).
  split; [exact H1 | exact (H3 eq_refl)].
Defined.

Lemma chunks_play_through_gain_witness :
  let w := sample_run [Connect sample_host None; OnOpen true;
                       OnMessage 0 (audio_message "pcm-a" false); Settle 0]
             new_session in
  Forall gain_is_set (effects w)
  /\ In (SourceStart 0 buffer_a (12 # 10) 0) (effects w)
  /\ rendered (SourceStart 0 buffer_a (12 # 10) 0)
     = [(12 # 10) * (64 # 32768); (12 # 10) * (32 # 32768); (12 # 10) * (0 # 32768)].
Proof.
  intros w.
  destruct (chunks_play_through_gain
              sample_decode sample_decodeAudioData sample_createPcmBlob no_throw)
    as (H1 & _ & _).
  split; [apply H1|]; split; [|reflexivity].
  vm_compute; auto 10.
Defined.

Lemma only_first_part_is_read_witness :
  base64Audio second_part_message = None
  /\ started (sample_handle 0 second_part_message streaming) = started streaming
  /\ awaiting (handle_begin sample_decode sample_decodeAudioData 0 second_part_message
                 streaming) = [].
Proof.
  destruct (only_first_part_is_read sample_decode sample_decodeAudioData
              (mkPart None) [mkPart (Some (mkBlob (Some "pcm-a")))] false false
              0 streaming eq_refl) as (H1 & _ & _ & H4 & H5).
  split; [exact H1|]; split; [exact H5 | exact H4].
Defined.

(** ** Worked scenarios for the further properties of the session *)

Lemma bookings_never_overlap_witness :
  let evs := [Connect sample_host None; OnOpen true; Fulfil (Some sample_live);
              OnMessage 0 (audio_message "pcm-a" false);
              OnMessage 0 (audio_message "pcm-b" false);
              Settle 1; Settle 0] in
  List.length (spans (sample_run evs new_session)) = 2%nat
  /\ spaced 0 (spans (sample_run evs new_session)).
Proof.
  intros evs; split; [reflexivity|].
  exact (bookings_never_overlap sample_decode sample_decodeAudioData
           sample_createPcmBlob no_throw evs eq_refl).
Defined.

Lemma nothing_is_released_without_disconnect_witness :
  let evs := [Connect sample_host None; OnOpen true; Fulfil (Some sample_live);
              AudioProcess [1 # 2]; OnMessage 0 interruption_message;
              OnError; OnClose] in
  List.filter is_release (effects (sample_run evs new_session)) = [].
Proof.
  intros evs.
  exact (nothing_is_released_without_disconnect sample_decode sample_decodeAudioData
           sample_createPcmBlob no_throw evs eq_refl).
Defined.

Lemma ended_source_is_not_stopped_again_witness :
  let w := sample_handle 0 (audio_message "pcm-a" false) streaming in
  sources w = [0%nat]
  /\ count_effects (is_source_stop 0)
       (sample_run [Ended 0; OnMessage (1 # 2) interruption_message] w)
     = count_effects (is_source_stop 0) w
  /\ count_effects (is_source_stop 0)
       (sample_run [OnMessage (1 # 2) interruption_message] w)
     = S (count_effects (is_source_stop 0) w).
Proof.
  intros w.
  assert (Hnd : NoDup (sources w)).
  { vm_compute; constructor; [intros []|constructor]. }
  destruct (ended_source_is_not_stopped_again sample_decode sample_decodeAudioData
              sample_createPcmBlob no_throw w output_context 0 (1 # 2)
              interruption_message eq_refl eq_refl eq_refl Hnd) as [H1 H2].
  split; [reflexivity|]; split; [exact H1|].
  apply H2; left; reflexivity.
Defined.

Lemma successful_connect_opens_the_transport_witness :
  exists w',
    connect sample_host None new_session = Returned w'
    /\ effects w' = [LiveConnect default_instruction]
    /\ sessionPromise w' = Some (Pending [])
    /\ stream w' = Some (mkStream [0; 1]%nat).
Proof.
  destruct (successful_connect_opens_the_transport sample_host None new_session eq_refl)
    as (w' & H1 & H2 & _ & H4 & H5 & _).
  exists w'; split; [exact H1|]; split; [exact H2|]; split; [exact H4|exact H5].
Defined.

Lemma connect_releases_nothing_witness :
  let w' := world_of (connect no_microphone None new_session) in
  sessionPromise w' = None
  /\ inputAudioContext w' <> None /\ outputAudioContext w' <> None
  /\ List.filter is_release (effects w') = [].
Proof.
  intros w'.
  destruct (connect_releases_nothing sample_decode sample_decodeAudioData
              sample_createPcmBlob no_throw no_microphone None new_session)
    as (H1 & H2 & H3).
  split; [reflexivity|]; split; [apply H2; discriminate|].
  split; [apply H3; discriminate|exact H1].
Defined.

Lemma close_waits_for_the_connection_witness :
  let w := sample_run [OnOpen true; AudioProcess [1 # 2]] connecting in
  let w1 := world_of (disconnect no_throw w) in
  sessionPromise w = Some (Pending [ThenSend [1 # 2]])
  /\ effects (fulfil (Some sample_live) w1)
     = effects w1 ++ [SendRealtimeInput [1 # 2]; SessionClose]
  /\ effects (reject w1) = effects w1.
Proof.
  intros w w1.
  destruct (close_waits_for_the_connection no_throw w [ThenSend [1 # 2]] sample_live
              (fun _ => eq_refl) eq_refl) as (_ & _ & H3 & H4).
  split; [reflexivity|]; split; [exact H3|exact H4].
Defined.

Lemma messages_after_disconnect_still_play_witness :
  let w1 := world_of (disconnect no_throw streaming) in
  outputAudioContext w1 = Some (mkContext 24000 closed)
  /\ started (sample_handle 0 (audio_message "pcm-a" false) w1) = [buffer_a]
  /\ sources (sample_handle 0 (audio_message "pcm-a" false) w1) = [0%nat].
Proof.
  intros w1.
  destruct (messages_after_disconnect_still_play sample_decode sample_decodeAudioData
              sample_createPcmBlob no_throw streaming output_context
              (mkChunk 0 (audio_message "pcm-a" false) buffer_a)
              (fun _ => eq_refl) eq_refl (conj eq_refl eq_refl)) as (H1 & H2 & H3).
  split; [exact H1|]; split; [exact H2|exact H3].
Defined.

(** ** Worked scenarios for the text endpoint, the voice controls,
       the uploader and the citations *)

Lemma analysed_plan_is_saved_once_witness :
  let p' := handleUploadedPlan sample_generateContent "Check this plan." None
              sample_clock floor_plan sample_plans in
  let newAtt := with_analysis (stamped floor_plan (sample_clock 0) (sample_clock 1))
                  "Timber framing to NZS 3604." in
  activeAttachment p' = Some newAtt
  /\ savedAttachments p' = [newAtt; site_photo]
  /\ List.length (List.filter (fun q => same_name q floor_plan) (savedAttachments p'))
     = 1%nat
  /\ List.length (messages p') = 3%nat.
Proof.
  intros p' newAtt.
  destruct (analysed_plan_is_saved_once sample_generateContent "Check this plan." None
              sample_clock floor_plan sample_plans sample_answer eq_refl)
    as (_ & H2 & _ & H4 & H5 & (question & answer & H6 & _) & _).
  split; [exact H2|]; split; [exact H4|]; split; [exact H5|].
  fold p' in H6; rewrite H6; reflexivity.
Defined.

Lemma failed_analysis_saves_without_replacing_witness :
  let p' := handleUploadedPlan sample_generateContent "offline" None
              sample_clock floor_plan sample_plans in
  let newAtt := stamped floor_plan (sample_clock 0) (sample_clock 1) in
  activeAttachment p' = Some newAtt
  /\ savedAttachments p' = [newAtt; earlier_floor_plan; site_photo]
  /\ List.length (List.filter (fun q => same_name q floor_plan) (savedAttachments p'))
     = 2%nat
  /\ messages p' = [welcome].
Proof.
  intros p' newAtt.
  destruct (failed_analysis_saves_without_replacing sample_generateContent "offline"
              None sample_clock floor_plan sample_plans eq_refl)
    as (H1 & _ & H3 & H4 & H5 & _).
  split; [exact H1|]; split; [exact H3|]; split; [exact H4|exact H5].
Defined.

Lemma saved_analysis_is_shown_again_witness :
  (exists saved,
     hd_error (savedAttachments
                 (handleUploadedPlan sample_generateContent "Check this plan." None
                    sample_clock floor_plan sample_plans)) = Some saved
     /\ option_map ov_text (latestResponse (handleSelectSavedPlan saved sample_plans))
        = Some "Timber framing to NZS 3604.")
  /\ (exists saved,
        hd_error (savedAttachments
                    (handleUploadedPlan sample_generateContent "offline" None
                       sample_clock floor_plan sample_plans)) = Some saved
        /\ option_map ov_text (latestResponse (handleSelectSavedPlan saved sample_plans))
           = Some "Switched context to floor-plan.pdf. No previous analysis saved.").
Proof.
  split.
  - destruct (saved_analysis_is_shown_again sample_generateContent "Check this plan."
                None sample_clock floor_plan sample_plans sample_plans) as [H _].
    destruct (H sample_answer eq_refl) as (saved & Ha & _ & Hc).
    exists saved; split; [exact Ha|exact Hc].
  - destruct (saved_analysis_is_shown_again sample_generateContent "offline"
                None sample_clock floor_plan sample_plans sample_plans) as [_ H].
    destruct (H eq_refl eq_refl) as (saved & Ha & Hc).
    exists saved; split; [exact Ha|exact Hc].
Defined.

Lemma send_adds_the_message_and_one_reply_witness :
  let c' := handleSend sample_generateContent sample_trim None sample_clock sample_chat in
  let question := mkMsg (toString (sample_clock 0)) user "  Is H3.2 required? "
                    (sample_clock 1) false (Some [site_photo]) None in
  input c' = "" /\ attachments c' = []
  /\ exists answer,
       chat_messages c' = [welcome; question; answer]
       /\ msg_text answer = "Timber framing to NZS 3604.".
Proof.
  intros c' question.
  assert (Hguard : sample_trim (input sample_chat) <> "" \/ attachments sample_chat <> []).
  { left; vm_compute; discriminate. }
  destruct (send_adds_the_message_and_one_reply sample_generateContent sample_trim
              None sample_clock sample_chat eq_refl Hguard)
    as (H1 & H2 & _ & H4 & _).
  split; [exact H1|]; split; [exact H2|].
  destruct (H4 sample_answer eq_refl) as (answer & Hm & _ & _ & Ht).
  exists answer; split; [exact Hm|exact Ht].
Defined.

Lemma successful_start_on_screen_witness :
  let plan := with_analysis floor_plan "Timber framing to NZS 3604." in
  let v' := toggleSession no_throw sample_host (Some plan) idle_voice in
  isActive v' = true
  /\ status v' = "Listening..."
  /\ sessionRef v' = Some 0%nat
  /\ exists w,
       heap v' = [w]
       /\ effects w
          = [LiveConnect (planInstruction "floor-plan.pdf" "Timber framing to NZS 3604.")].
Proof.
  intros plan v'.
  destruct (successful_start_on_screen no_throw sample_host (Some plan) idle_voice
              eq_refl eq_refl) as (H1 & H2 & H3 & w & H4 & _ & H6).
  split; [exact H1|]; split; [exact H2|]; split; [exact H3|].
  exists w; split; [exact H4|exact H6].
Defined.

Lemma failed_start_on_screen_witness :
  (let v' := toggleSession no_throw no_microphone None idle_voice in
   isActive v' = true /\ status v' = "Listening..." /\ sessionRef v' = Some 0%nat)
  /\ (let v' := toggleSession no_throw no_output_context None idle_voice in
      isActive v' = false /\ status v' = "Tap to retry" /\ sessionRef v' = None).
Proof.
  split; intros v'.
  - destruct (failed_start_on_screen no_throw no_microphone None idle_voice eq_refl)
      as [H _].
    destruct (H eq_refl eq_refl) as (H1 & H2 & H3 & _).
    split; [exact H1|]; split; [exact H2|exact H3].
  - destruct (failed_start_on_screen no_throw no_output_context None idle_voice eq_refl)
      as [_ H].
    destruct (H eq_refl) as (H1 & H2 & H3 & _).
    split; [exact H1|]; split; [exact H2|exact H3].
Defined.

Lemma tap_after_error_abandons_the_session_witness :
  let v1 := session_event sample_decode sample_decodeAudioData sample_createPcmBlob
              no_throw 0 OnError active_voice in
  let v2 := toggleSession no_throw sample_host None v1 in
  isActive v1 = false
  /\ status v1 = "Connection error. Retrying..."
  /\ sessionRef v1 = Some 0%nat
  /\ sessionRef v2 = Some 1%nat
  /\ nth_error (heap (unmount no_throw v2)) 0 = Some (onerror streaming)
  /\ List.filter is_release (effects (onerror streaming)) = [].
Proof.
  intros v1 v2.
  destruct (tap_after_error_abandons_the_session sample_decode sample_decodeAudioData
              sample_createPcmBlob no_throw sample_host None active_voice 0 streaming
              eq_refl eq_refl eq_refl)
    as (H1 & H2 & H3 & H4 & _ & _ & H7 & H8).
  split; [exact H1|]; split; [exact H2|]; split; [exact H3|]; split; [exact H4|].
  split; [exact H7|exact H8].
Defined.

Lemma tap_while_active_disconnects_once_witness :
  let v1 := toggleSession no_throw sample_host None active_voice in
  isActive v1 = false
  /\ status v1 = "Tap orb to start"
  /\ sessionRef v1 = None
  /\ (exists w1,
        nth_error (heap v1) 0 = Some w1
        /\ List.filter is_release (effects w1)
           = [TrackStop 0; TrackStop 1;
              NodeDisconnect MediaStreamSource; NodeDisconnect ScriptProcessor;
              ContextClose Input running; ContextClose Output running;
              SessionClose])
  /\ unmount no_throw v1 = v1.
Proof.
  intros v1.
  destruct (tap_while_active_disconnects_once no_throw sample_host None active_voice
              0 streaming eq_refl eq_refl eq_refl (fun _ => eq_refl))
    as (H1 & H2 & H3 & (w1 & _ & H5 & H6) & H7).
  split; [exact H1|]; split; [exact H2|]; split; [exact H3|]; split; [|exact H7].
  exists w1; split; [exact H5|]; rewrite H6; reflexivity.
Defined.

Lemma speaking_follows_the_first_part_witness :
  isSpeaking (ui_onMessage (audio_message "pcm-a" false) active_voice) = true
  /\ ui_onMessage second_part_message active_voice = active_voice.
Proof.
  split.
  - destruct (speaking_follows_the_first_part (audio_message "pcm-a" false) active_voice)
      as (_ & H & _).
    apply H; [reflexivity|discriminate].
  - destruct (speaking_follows_the_first_part second_part_message active_voice)
      as (_ & _ & H & _).
    apply H; reflexivity.
Defined.

Lemma uploaded_file_becomes_the_attachment_witness :
  exists a,
    handleFileChange (Some sample_file) = Some a
    /\ att_base64 a = Some "JVBERi0x"
    /\ att_mimeType a = "application/pdf"
    /\ att_type a = pdf
    /\ req_parts (plan_request "Check this plan." [a] None)
       = [InlineData "application/pdf" (Some "JVBERi0x"); TextPart "Check this plan."].
Proof.
  destruct (uploaded_file_becomes_the_attachment sample_file
              "data:application/pdf;base64" "JVBERi0x" eq_refl eq_refl) as [H _].
  destruct (H eq_refl) as (a & H1 & H2 & H3 & _ & _ & _ & H7).
  exists a; split; [exact H1|]; split; [exact H2|]; split; [exact H3|].
  split; [|exact (H7 "Check this plan." None)].
  injection H1 as <-; reflexivity.
Defined.

Lemma citations_keep_the_text_witness :
  renderMessageContent cited_message
  = [Cited "Timber" [2%nat]; Plain " framing to "; Cited "NZS 3604" [1%nat]; Plain "."]
  /\ shown_text (renderMessageContent cited_message) = "Timber framing to NZS 3604.".
Proof.
  split; [reflexivity|].
  apply (citations_keep_the_text cited_message).
  intros g supports _ Hg Hs.
  injection Hg as <-; injection Hs as <-.
  vm_compute; repeat split; lia.
Defined.
